(** * Witeboard server: a shallow embedding of the realtime plane

    This development models, from the TypeScript sources, the per-board
    event sequencer ([sequencer.ts]), the token-bucket rate limiter
    ([rate-limiter.ts]), the presence manager and cursor batcher
    ([presence.ts]), the HELLO / DRAW_EVENT / CURSOR_MOVE handlers
    ([handlers.ts]), the snapshot renderer ([snapshot.ts]) and the avatar
    color hash of the shared package, and proves properties about them.

    Modelling conventions.
    - A JS [Map] is an association list with unique keys that keeps the
      insertion order ([JsMap]); [Map.prototype.set] on an existing key
      updates the value in place, on a new key appends; [delete] removes
      the entry.  A JS [Set] is a duplicate-free list in insertion order.
    - A JS string is a Stdlib [string]; [charCodeAt] is the character code
      (identifiers handled by the server are ASCII).
    - [Date.now()] is an explicit argument in milliseconds ([Z]).
    - Database queries are functions of an explicit table content; an
      operation that can fail returns [option].
    - Coordinates, widths and token counts (JS doubles) are rationals [Q].
    - A WebSocket is a natural number; whether its write side is open is a
      predicate given with the state. *)

From Stdlib Require Import QArith Qround Qminmax Qabs ZArith Lia Lqa.
From stdpp Require Import base list strings relations sorting.
From Stdlib Require Import Permutation Sorted.

Open Scope list_scope.

(* ------------------------------------------------------------------ *)
(** ** JS [Map] and [Set] *)

Module JsMap.
Section JsMap.
Context {K V : Type} `{EqDecision K}.

Fixpoint get (m : list (K * V)) (k : K) : option V :=
  match m with
  | [] => None
  | (k', v) :: m' => if decide (k = k') then Some v else get m' k
  end.

Definition has (m : list (K * V)) (k : K) : bool :=
  match get m k with Some _ => true | None => false end.

(** [m.set(k, v)]: in place when [k] is present, appended otherwise. *)
Fixpoint set (m : list (K * V)) (k : K) (v : V) : list (K * V) :=
  match m with
  | [] => [(k, v)]
  | (k', v') :: m' =>
      if decide (k = k') then (k, v) :: m' else (k', v') :: set m' k v
  end.

Definition delete (m : list (K * V)) (k : K) : list (K * V) :=
  filter (fun p => fst p <> k) m.

Definition keys (m : list (K * V)) : list K := map fst m.

(** [Array.from(m.values())] *)
Definition values (m : list (K * V)) : list V := map snd m.

Definition size (m : list (K * V)) : nat := length m.
End JsMap.
End JsMap.

Module JsSet.
Section JsSet.
Context {A : Type} `{EqDecision A}.

Definition add (s : list A) (x : A) : list A :=
  if decide (x ∈ s) then s else s ++ [x].

Definition delete (s : list A) (x : A) : list A :=
  filter (fun y => y <> x) s.
End JsSet.
End JsSet.

(* ------------------------------------------------------------------ *)
(** ** Shared types ([@witeboard/shared]) *)

Inductive DrawEventType := ETstroke | ETshape | ETtext | ETdelete | ETclear.

Inductive ShapeType := Rectangle | Ellipse | Line.

(** [DrawEventPayload]: the payload variants by their fields. *)
Inductive DrawEventPayload :=
  | StrokePayload (strokeId color : string) (width : Q) (opacity : option Q)
      (points : list (Q * Q))
  | ShapePayload (strokeId : string) (shapeType : ShapeType)
      (start end_ : Q * Q) (color : string) (width : Q) (opacity : option Q)
  | TextPayload (strokeId text : string) (position : Q * Q) (color : string)
      (fontSize : Q)
  | DeletePayload (strokeIds : list string)
  | ClearPayload.

Record DrawEvent := mkDrawEvent {
  ev_boardId : string;
  ev_seq : nat;
  ev_type : DrawEventType;
  ev_userId : string;
  ev_timestamp : Z;
  ev_payload : DrawEventPayload
}.

(* ------------------------------------------------------------------ *)
(** ** Event store ([db/client.ts]): the [drawing_events] table *)

Module Store.

(** The seq column of the rows of board [b]. *)
Definition seqs_of (b : string) (rows : list (string * nat)) : list nat :=
  map snd (filter (fun r => fst r = b) rows).

(** [getMaxSeq]: [SELECT MAX(seq)], and 0 for a board with no row. *)
Definition getMaxSeq (rows : list (string * nat)) (b : string) : nat :=
  foldr Nat.max 0 (seqs_of b rows).

End Store.

(* ------------------------------------------------------------------ *)
(** ** Sequencer ([sequencer.ts]) *)

Module Sequencer.

(** The process state the sequencer touches: the in-memory [nextSeq]
    map, the [(board_id, seq)] rows of [drawing_events], and the
    appends that have reserved a seq and are awaiting the database. *)
Record state := mkState {
  nextSeq : list (string * nat);
  stored : list (string * nat);
  inflight : list (string * nat)
}.

Definition empty : state := mkState [] [] [].

(** [initBoardSequence]: when the board has no counter yet, set it to
    [getMaxSeq + 1].  The [getMaxSeq] round trip is taken as one step. *)
Definition initBoardSequence (st : state) (b : string) : state :=
  if JsMap.has (nextSeq st) b then st
  else mkState (JsMap.set (nextSeq st) b (Store.getMaxSeq (stored st) b + 1))
               (stored st) (inflight st).

(** Lines 39-40 of [sequenceEvent]: [seq = nextSeq.get(b)!],
    [nextSeq.set(b, seq + 1)]; the reserved seq goes to the database. *)
Definition reserve (st : state) (b : string) : option (nat * state) :=
  match JsMap.get (nextSeq st) b with
  | Some n => Some (n, mkState (JsMap.set (nextSeq st) b (n + 1)) (stored st)
                               (inflight st ++ [(b, n)]))
  | None => None
  end.

(** The [DELETE FROM drawing_events WHERE board_id = $1] of [deleteBoard]
    ([db/client.ts], run by [DELETE /api/boards/:id] for any signed-in
    user, before the owner check): the board's rows go, while the
    [nextSeq] map of [sequencer.ts] keeps the board's counter. *)
Definition deleteEvents (st : state) (b : string) : state :=
  mkState (nextSeq st) (filter (fun r => fst r <> b) (stored st)) (inflight st).

(** The steps of concurrent [sequenceEvent] calls, and board deletions.  [appendEvent]
    resolves for any in-flight row, in any order; it fails on a primary
    key collision, and may fail for a transient reason. *)
Inductive step : state -> state -> Prop :=
  | StepInit st b :
      step st (initBoardSequence st b)
  | StepReserve st b n st' :
      reserve st b = Some (n, st') -> step st st'
  | StepAppendOk st p1 b n p2 :
      inflight st = p1 ++ (b, n) :: p2 ->
      (b, n) ∉ stored st ->
      step st (mkState (nextSeq st) (stored st ++ [(b, n)]) (p1 ++ p2))
  | StepAppendFail st p1 b n p2 :
      inflight st = p1 ++ (b, n) :: p2 ->
      step st (mkState (nextSeq st) (stored st) (p1 ++ p2))
  | StepDeleteBoard st b :
      step st (deleteEvents st b).

(** Runs in which no append fails and no board is deleted. *)
Inductive step_ok : state -> state -> Prop :=
  | OkInit st b : step_ok st (initBoardSequence st b)
  | OkReserve st b n st' : reserve st b = Some (n, st') -> step_ok st st'
  | OkAppend st p1 b n p2 :
      inflight st = p1 ++ (b, n) :: p2 ->
      (b, n) ∉ stored st ->
      step_ok st (mkState (nextSeq st) (stored st ++ [(b, n)]) (p1 ++ p2)).

Definition reachable := rtc step empty.
Definition reachable_ok := rtc step_ok empty.

End Sequencer.


(* ------------------------------------------------------------------ *)
(** ** Rate limiter ([rate-limiter.ts]) *)

Module RateLimiter.

Definition conn := nat.

Record Bucket := mkBucket { tokens : Q; lastRefill : Z }.

Definition DRAW_BUCKET_SIZE : Q := 30.
Definition DRAW_REFILL_RATE : Q := 60.
Definition CURSOR_BUCKET_SIZE : Q := 60.
Definition CURSOR_REFILL_RATE : Q := 120.

(** [getBucket]: a new bucket starts full, stamped with the current time. *)
Definition getBucket (buckets : list (conn * Bucket)) (ws : conn) (maxTokens : Q)
    (now : Z) : Bucket :=
  match JsMap.get buckets ws with
  | Some b => b
  | None => mkBucket maxTokens now
  end.

(** [refillBucket]: add [elapsed * refillRate] tokens, at most [maxTokens]. *)
Definition refillBucket (b : Bucket) (refillRate maxTokens : Q) (now : Z) : Bucket :=
  let elapsed := (inject_Z (now - lastRefill b)%Z / 1000)%Q in
  let tokensToAdd := (elapsed * refillRate)%Q in
  mkBucket (Qmin maxTokens (tokens b + tokensToAdd)%Q) now.

(** [tryConsume]: the bucket object held by the map is updated in place. *)
Definition tryConsume (buckets : list (conn * Bucket)) (ws : conn)
    (refillRate maxTokens : Q) (now : Z) : bool * list (conn * Bucket) :=
  let b := refillBucket (getBucket buckets ws maxTokens now) refillRate maxTokens now in
  if Qle_bool 1 (tokens b)
  then (true, JsMap.set buckets ws (mkBucket (tokens b - 1)%Q (lastRefill b)))
  else (false, JsMap.set buckets ws b).

Definition checkDrawLimit (drawBuckets : list (conn * Bucket)) (ws : conn) (now : Z) :=
  tryConsume drawBuckets ws DRAW_REFILL_RATE DRAW_BUCKET_SIZE now.

Definition checkCursorLimit (cursorBuckets : list (conn * Bucket)) (ws : conn) (now : Z) :=
  tryConsume cursorBuckets ws CURSOR_REFILL_RATE CURSOR_BUCKET_SIZE now.

(** A sequence of limiter calls [(connection, Date.now())] against one
    bucket class; each call is tagged with its verdict. *)
Fixpoint limiter_run (buckets : list (conn * Bucket)) (refillRate maxTokens : Q)
    (calls : list (conn * Z)) : list (conn * Z * bool) :=
  match calls with
  | [] => []
  | (ws, t) :: calls' =>
      let '(ok, buckets') := tryConsume buckets ws refillRate maxTokens t in
      (ws, t, ok) :: limiter_run buckets' refillRate maxTokens calls'
  end.

(** The number of calls of [ws] admitted at a time in [[a, a + 1000]]. *)
Definition admitted_in_window (ws : conn) (a : Z) (res : list (conn * Z * bool)) : nat :=
  length (filter (fun r => r.1.1 = ws /\ r.2 = true /\ a <= r.1.2 <= a + 1000)%Z res).

End RateLimiter.


(* ------------------------------------------------------------------ *)
(** ** Presence manager ([presence.ts]) *)

Record UserIdentity := mkIdentity {
  userId : string;
  displayName : string;
  isAnonymous : bool;
  avatarColor : option string
}.

Record PresenceState := mkPresence {
  p_boardId : string;
  p_userId : string;
  p_displayName : string;
  p_isAnonymous : bool;
  p_avatarColor : option string;
  p_cursor : option (Z * Z * Z);
  p_connectedAt : Z
}.

Record CursorData := mkCursor {
  c_userId : string;
  c_displayName : string;
  c_avatarColor : option string;
  c_x : Z;
  c_y : Z
}.

Module Presence.

Definition conn := RateLimiter.conn.

(** The module-level maps of [presence.ts]. *)
Record State := mkState {
  connectionToUser : list (conn * UserIdentity);
  connectionToBoard : list (conn * string);
  clientsByBoard : list (string * list conn);
  presenceByBoard : list (string * list (string * PresenceState));
  cursorBatches : list (string * list (string * CursorData))
}.

Definition empty : State := mkState [] [] [] [] [].

(** [if (!m.has(k)) m.set(k, new X()); m.get(k)!.op(...)]: the inner
    object is created on first use and then mutated in place. *)
Definition update_inner {K V : Type} `{EqDecision K} (m : list (K * V)) (k : K)
    (fresh : V) (op : V -> V) : list (K * V) :=
  match JsMap.get m k with
  | Some v => JsMap.set m k (op v)
  | None => JsMap.set m k (op fresh)
  end.

(** [joinBoard] *)
Definition joinBoard (st : State) (ws : conn) (boardId : string)
    (identity : UserIdentity) (now : Z) : PresenceState * State :=
  let presence := mkPresence boardId (userId identity) (displayName identity)
                    (isAnonymous identity) (avatarColor identity) None now in
  (presence,
   mkState (JsMap.set (connectionToUser st) ws identity)
           (JsMap.set (connectionToBoard st) ws boardId)
           (update_inner (clientsByBoard st) boardId [] (fun s => JsSet.add s ws))
           (update_inner (presenceByBoard st) boardId []
              (fun m => JsMap.set m (userId identity) presence))
           (cursorBatches st)).

(** [leaveBoard]; [!boardId] also holds for the empty string. *)
Definition leaveBoard (st : State) (ws : conn) : option (string * string) * State :=
  match JsMap.get (connectionToUser st) ws, JsMap.get (connectionToBoard st) ws with
  | Some identity, Some boardId =>
    if decide (boardId = "") then (None, st) else
      let clients' :=
        match JsMap.get (clientsByBoard st) boardId with
        | Some c =>
            let c' := JsSet.delete c ws in
            if decide (length c' = 0) then JsMap.delete (clientsByBoard st) boardId
            else JsMap.set (clientsByBoard st) boardId c'
        | None => clientsByBoard st
        end in
      let presence' :=
        match JsMap.get (presenceByBoard st) boardId with
        | Some m =>
            let m' := JsMap.delete m (userId identity) in
            if decide (JsMap.size m' = 0) then JsMap.delete (presenceByBoard st) boardId
            else JsMap.set (presenceByBoard st) boardId m'
        | None => presenceByBoard st
        end in
      (Some (boardId, userId identity),
       mkState (JsMap.delete (connectionToUser st) ws)
               (JsMap.delete (connectionToBoard st) ws)
               clients' presence' (cursorBatches st))
  | _, _ => (None, st)
  end.

(** [updateCursor]: the presence entry of the user, if any, records the
    cursor; the result describes the sender. *)
Definition updateCursor (st : State) (ws : conn) (x y now : Z)
    : option (string * string * string * option string) * State :=
  match JsMap.get (connectionToUser st) ws, JsMap.get (connectionToBoard st) ws with
  | Some identity, Some boardId =>
    if decide (boardId = "") then (None, st) else
      let presence' :=
        match JsMap.get (presenceByBoard st) boardId with
        | Some m =>
            match JsMap.get m (userId identity) with
            | Some p =>
                JsMap.set (presenceByBoard st) boardId
                  (JsMap.set m (userId identity)
                     (mkPresence (p_boardId p) (p_userId p) (p_displayName p)
                        (p_isAnonymous p) (p_avatarColor p) (Some (x, y, now))
                        (p_connectedAt p)))
            | None => presenceByBoard st
            end
        | None => presenceByBoard st
        end in
      (Some (boardId, userId identity, displayName identity, avatarColor identity),
       mkState (connectionToUser st) (connectionToBoard st) (clientsByBoard st)
               presence' (cursorBatches st))
  | _, _ => (None, st)
  end.

(** [getBoardClients] *)
Definition getBoardClients (st : State) (boardId : string) : list conn :=
  match JsMap.get (clientsByBoard st) boardId with Some s => s | None => [] end.

(** [getBoardPresence] *)
Definition getBoardPresence (st : State) (boardId : string) : list PresenceState :=
  match JsMap.get (presenceByBoard st) boardId with
  | Some m => JsMap.values m
  | None => []
  end.

(** [queueCursorUpdate] *)
Definition queueCursorUpdate (st : State) (boardId userId displayName : string)
    (avatarColor : option string) (x y : Z) : State :=
  mkState (connectionToUser st) (connectionToBoard st) (clientsByBoard st)
          (presenceByBoard st)
          (update_inner (cursorBatches st) boardId []
             (fun m => JsMap.set m userId (mkCursor userId displayName avatarColor x y))).

(** [flushCursorBatches]: for every board whose buffer is non-empty, one
    call of the broadcaster with the buffered entries, then the buffer
    is cleared (the board keeps an empty buffer). *)
Definition flushCursorBatches (st : State) (hasBroadcaster : bool)
    : list (string * list CursorData) * State :=
  if negb hasBroadcaster then ([], st) else
  (flat_map (fun '(b, cursors) =>
               if decide (0 < JsMap.size cursors) then [(b, JsMap.values cursors)] else [])
            (cursorBatches st),
   mkState (connectionToUser st) (connectionToBoard st) (clientsByBoard st)
           (presenceByBoard st)
           (map (fun '(b, cursors) =>
                   (b, if decide (0 < JsMap.size cursors) then [] else cursors))
                (cursorBatches st))).

End Presence.


(* ------------------------------------------------------------------ *)
(** ** Shared helpers ([@witeboard/shared] utils) *)

Module Shared.

Definition COLORS : list string :=
  ["#FF6B6B"; "#4ECDC4"; "#45B7D1"; "#96CEB4"; "#FFEAA7"; "#DDA0DD";
   "#98D8C8"; "#F7DC6F"; "#BB8FCE"; "#85C1E9"; "#F8B500"; "#00CED1";
   "#FF7F50"; "#9370DB"; "#20B2AA"; "#FF69B4"; "#00FA9A"; "#FFD700"]%string.

(** ECMAScript ToInt32. *)
Definition toInt32 (z : Z) : Z :=
  let m := (z mod 2 ^ 32)%Z in
  if (2 ^ 31 <=? m)%Z then (m - 2 ^ 32)%Z else m.

(** The loop of [generateAvatarColor]:
    [hash = ((hash << 5) - hash) + userId.charCodeAt(i); hash = hash & hash]. *)
Fixpoint hash_loop (hash : Z) (s : string) : Z :=
  match s with
  | EmptyString => hash
  | String c s' =>
      let h1 := (toInt32 (Z.shiftl (toInt32 hash) 5) - hash
                 + Z.of_N (Ascii.N_of_ascii c))%Z in
      hash_loop (Z.land (toInt32 h1) (toInt32 h1)) s'
  end.

(** [generateAvatarColor]: [COLORS[Math.abs(hash) % COLORS.length]]. *)
Definition generateAvatarColor (userId : string) : string :=
  nth (Z.to_nat (Z.rem (Z.abs (hash_loop 0 userId)) (Z.of_nat (length COLORS))))
      COLORS ""%string.

End Shared.

(* ------------------------------------------------------------------ *)
(** ** Database access ([db/client.ts]) *)

Module Db.

Record BoardRow := mkBoardRow {
  br_id : string;
  br_name : option string;
  br_owner_id : option string;
  br_is_private : option bool
}.

Record Board := mkBoard {
  b_id : string;
  b_name : option string;
  b_ownerId : option string;
  b_isPrivate : bool
}.

(** A row of [board_snapshots] as [getSnapshot] reads it. *)
Record SnapshotRow := mkSnapshotRow {
  sr_board_id : string;
  sr_seq : nat;
  sr_image_data : string
}.

(** [Snapshot] as returned by [getSnapshot]: no offset fields. *)
Record Snapshot := mkSnapshot {
  s_boardId : string;
  s_seq : nat;
  s_imageData : string
}.

Record Db := mkDb {
  boards : list BoardRow;
  drawing_events : list DrawEvent;
  board_snapshots : list SnapshotRow
}.

(** [rowToBoard]: [is_private ?? false]. *)
Definition rowToBoard (r : BoardRow) : Board :=
  mkBoard (br_id r) (br_name r) (br_owner_id r)
          (match br_is_private r with Some p => p | None => false end).

Definition getBoard (db : Db) (boardId : string) : option Board :=
  option_map rowToBoard (List.find (fun r => bool_decide (br_id r = boardId)) (boards db)).

(** [ensureBoardExists]: [INSERT ... is_private = false ON CONFLICT DO NOTHING]. *)
Definition ensureBoardExists (db : Db) (boardId : string) : Db :=
  match List.find (fun r => bool_decide (br_id r = boardId)) (boards db) with
  | Some _ => db
  | None => mkDb (boards db ++ [mkBoardRow boardId None None (Some false)])
                 (drawing_events db) (board_snapshots db)
  end.

Definition event_key (e : DrawEvent) : string * nat := (ev_boardId e, ev_seq e).

Definition getMaxSeq (db : Db) (boardId : string) : nat :=
  Store.getMaxSeq (map event_key (drawing_events db)) boardId.

(** [ORDER BY seq ASC] *)
Definition by_seq (e1 e2 : DrawEvent) : Prop := ev_seq e1 <= ev_seq e2.

Global Instance by_seq_dec : RelDecision by_seq :=
  fun e1 e2 => decide (ev_seq e1 <= ev_seq e2).

Definition getEvents (db : Db) (boardId : string) : list DrawEvent :=
  merge_sort by_seq (filter (fun e => ev_boardId e = boardId) (drawing_events db)).

(** [getEventsFromSeq]: [WHERE board_id = $1 AND seq > $2 ORDER BY seq ASC]. *)
Definition getEventsFromSeq (db : Db) (boardId : string) (fromSeq : Z) : list DrawEvent :=
  merge_sort by_seq
    (filter (fun e => ev_boardId e = boardId /\ (fromSeq < Z.of_nat (ev_seq e))%Z)
            (drawing_events db)).

(** [getEventsAfterSnapshot]: the same query. *)
Definition getEventsAfterSnapshot (db : Db) (boardId : string) (snapshotSeq : nat)
    : list DrawEvent :=
  merge_sort by_seq
    (filter (fun e => ev_boardId e = boardId /\ snapshotSeq < ev_seq e)
            (drawing_events db)).

Definition getSnapshot (db : Db) (boardId : string) : option Snapshot :=
  option_map (fun r => mkSnapshot (sr_board_id r) (sr_seq r) (sr_image_data r))
    (List.find (fun r => bool_decide (sr_board_id r = boardId)) (board_snapshots db)).

(** [appendEvent]: the insert fails on a [(board_id, seq)] collision and
    when the database is unavailable ([dbUp = false]). *)
Definition appendEvent (db : Db) (ev : DrawEvent) (dbUp : bool) : option Db :=
  if dbUp && negb (bool_decide (event_key ev ∈ map event_key (drawing_events db)))
  then Some (mkDb (boards db) (drawing_events db ++ [ev]) (board_snapshots db))
  else None.

End Db.


(* ------------------------------------------------------------------ *)
(** ** Message handlers ([handlers.ts], [auth.ts]) *)

Module Handlers.

Definition conn := RateLimiter.conn.

Inductive ErrorCode :=
  | INVALID_JSON | UNKNOWN_MESSAGE | NOT_JOINED | UNAUTHORIZED
  | JOIN_FAILED | DRAW_FAILED | CREATE_FAILED.

(** The [snapshot] field of [SYNC_SNAPSHOT]; an offset read from a
    [Snapshot] that has no such field is [undefined] ([None]). *)
Record SnapshotData := mkSnapshotData {
  sd_imageData : string;
  sd_seq : nat;
  sd_offsetX : option Q;
  sd_offsetY : option Q
}.

Inductive ServerMessage :=
  | WELCOME (userId displayName : string) (avatarColor : option string)
  | SYNC_SNAPSHOT (boardId : string) (events : list DrawEvent) (lastSeq : nat)
      (isDelta : bool) (snapshot : option SnapshotData)
  | DRAW_EVENT (event : DrawEvent)
  | CURSOR_BATCH (boardId : string) (cursors : list CursorData)
  | USER_LIST (boardId : string) (users : list PresenceState)
  | USER_JOIN (boardId : string) (user : PresenceState)
  | USER_LEAVE (boardId userId : string)
  | ACCESS_DENIED (boardId reason : string)
  | ERROR (code : ErrorCode) (message : string)
  | PONG.

Record HelloPayload := mkHello {
  h_boardId : string;
  h_authToken : option string;
  h_clientId : option string;
  h_displayName : option string;
  h_isAnonymous : bool;
  h_resumeFromSeq : option Z
}.

(** The environment: whether [CLERK_SECRET_KEY] is set, the result of
    the external [verifyToken] ([None] when it throws), and whether a
    socket's write side is open. *)
Record Env := mkEnv {
  clerkSecretKey : bool;
  verifyToken : string -> option string;
  isOpen : conn -> bool
}.

(** The server's process state and database. *)
Record Server := mkServer {
  pres : Presence.State;
  nextSeq : list (string * nat);
  db : Db.Db;
  drawBuckets : list (conn * RateLimiter.Bucket);
  cursorBuckets : list (conn * RateLimiter.Bucket)
}.

Definition set_pres (st : Server) (p : Presence.State) : Server :=
  mkServer p (nextSeq st) (db st) (drawBuckets st) (cursorBuckets st).
Definition set_nextSeq (st : Server) (n : list (string * nat)) : Server :=
  mkServer (pres st) n (db st) (drawBuckets st) (cursorBuckets st).
Definition set_db (st : Server) (d : Db.Db) : Server :=
  mkServer (pres st) (nextSeq st) d (drawBuckets st) (cursorBuckets st).
Definition set_drawBuckets (st : Server) (b : list (conn * RateLimiter.Bucket)) : Server :=
  mkServer (pres st) (nextSeq st) (db st) b (cursorBuckets st).
Definition set_cursorBuckets (st : Server) (b : list (conn * RateLimiter.Bucket)) : Server :=
  mkServer (pres st) (nextSeq st) (db st) (drawBuckets st) b.

(** JS truthiness of a [string | null | undefined]. *)
Definition truthy (o : option string) : bool :=
  match o with Some s => negb (bool_decide (s = ""%string)) | None => false end.

(** [a || b] on optional strings. *)
Definition js_or (a b : option string) : option string :=
  if truthy a then a else b.

(** [verifyClerkToken] ([auth.ts]). *)
Definition verifyClerkToken (env : Env) (token : option string) : option string :=
  if negb (truthy token) then None
  else if negb (clerkSecretKey env) then None
  else match token with Some t => verifyToken env t | None => None end.

(** [resolveIdentity] ([presence.ts]); [uuid] and [anonName] are the
    values [generateUUID()] and [generateAnonymousName()] return. *)
Definition resolveIdentity (clientId displayName : option string) (isAnon : bool)
    (uuid anonName : string) : UserIdentity :=
  let userId := match js_or clientId (Some uuid) with Some u => u | None => uuid end in
  let displayName := match js_or displayName (Some anonName) with
                     | Some d => d | None => anonName end in
  mkIdentity userId displayName isAnon (Some (Shared.generateAvatarColor userId)).

(** Lines 564-568 of [handleHello]. *)
Definition hello_identity (env : Env) (p : HelloPayload) (uuid anonName : string)
    : UserIdentity :=
  let clerkUserId := verifyClerkToken env (h_authToken p) in
  resolveIdentity (js_or clerkUserId (h_clientId p)) (h_displayName p)
    (negb (truthy clerkUserId) && h_isAnonymous p) uuid anonName.

(** [send]: only on an open socket. *)
Definition send (env : Env) (ws : conn) (m : ServerMessage) : list (conn * ServerMessage) :=
  if isOpen env ws then [(ws, m)] else [].

(** [broadcast] (all but [excludeWs]) and [broadcastAll]. *)
Definition broadcast (env : Env) (p : Presence.State) (boardId : string)
    (m : ServerMessage) (excludeWs : option conn) : list (conn * ServerMessage) :=
  flat_map (fun c => if bool_decide (Some c <> excludeWs) && isOpen env c
                     then [(c, m)] else [])
           (Presence.getBoardClients p boardId).

Definition broadcastAll (env : Env) (p : Presence.State) (boardId : string)
    (m : ServerMessage) : list (conn * ServerMessage) :=
  flat_map (fun c => if isOpen env c then [(c, m)] else [])
           (Presence.getBoardClients p boardId).

(** [broadcastCursorBatch] *)
Definition broadcastCursorBatch (env : Env) (p : Presence.State) (boardId : string)
    (cursors : list CursorData) : list (conn * ServerMessage) :=
  broadcastAll env p boardId (CURSOR_BATCH boardId cursors).

(** One cursor tick: [flushCursorBatches] with [broadcastCursorBatch]
    installed as the broadcaster. *)
Definition cursorTick (env : Env) (p : Presence.State)
    : list (conn * ServerMessage) * Presence.State :=
  let '(batches, p') := Presence.flushCursorBatches p true in
  (flat_map (fun '(b, cursors) => broadcastCursorBatch env p b cursors) batches, p').

(** [initBoardSequence] ([sequencer.ts]) on the server state. *)
Definition initBoardSequence (st : Server) (boardId : string) : Server :=
  if JsMap.has (nextSeq st) boardId then st
  else set_nextSeq st (JsMap.set (nextSeq st) boardId (Db.getMaxSeq (db st) boardId + 1)).

(** Lines 584-619 of [handleHello]: the [SYNC_SNAPSHOT] reply. *)
Definition syncSnapshot (d : Db.Db) (boardId : string) (resumeFromSeq : option Z)
    : ServerMessage :=
  let lastSeq := Db.getMaxSeq d boardId in
  match resumeFromSeq with
  | Some r =>
      if (0 <? r)%Z
      then SYNC_SNAPSHOT boardId (Db.getEventsFromSeq d boardId r) lastSeq true None
      else
        match Db.getSnapshot d boardId with
        | Some s =>
            SYNC_SNAPSHOT boardId (Db.getEventsAfterSnapshot d boardId (Db.s_seq s)) lastSeq
              false (Some (mkSnapshotData (Db.s_imageData s) (Db.s_seq s) None None))
        | None => SYNC_SNAPSHOT boardId (Db.getEvents d boardId) lastSeq false None
        end
  | None =>
      match Db.getSnapshot d boardId with
      | Some s =>
          SYNC_SNAPSHOT boardId (Db.getEventsAfterSnapshot d boardId (Db.s_seq s)) lastSeq
            false (Some (mkSnapshotData (Db.s_imageData s) (Db.s_seq s) None None))
      | None => SYNC_SNAPSHOT boardId (Db.getEvents d boardId) lastSeq false None
      end
  end.

(** Steps 4-10 of [handleHello]: the join of an admitted connection. *)
Definition hello_join (env : Env) (st : Server) (ws : conn) (p : HelloPayload)
    (now : Z) (uuid anonName : string) : Server * list (conn * ServerMessage) :=
  let boardId := h_boardId p in
  let st2 := initBoardSequence st boardId in
  let identity := hello_identity env p uuid anonName in
  let '(presence, pres') := Presence.joinBoard (pres st2) ws boardId identity now in
  let st3 := set_pres st2 pres' in
  (st3,
   send env ws (WELCOME (userId identity) (displayName identity) (avatarColor identity))
   ++ send env ws (syncSnapshot (db st3) boardId (h_resumeFromSeq p))
   ++ send env ws (USER_LIST boardId (Presence.getBoardPresence pres' boardId))
   ++ broadcast env pres' boardId (USER_JOIN boardId presence) (Some ws)).

(** [handleHello], with every database call succeeding. *)
Definition handleHello (env : Env) (st : Server) (ws : conn) (p : HelloPayload)
    (now : Z) (uuid anonName : string) : Server * list (conn * ServerMessage) :=
  let boardId := h_boardId p in
  let clerkUserId := verifyClerkToken env (h_authToken p) in
  let d1 := match Db.getBoard (db st) boardId with
            | Some _ => db st
            | None => Db.ensureBoardExists (db st) boardId
            end in
  let st1 := set_db st d1 in
  match Db.getBoard d1 boardId with
  | Some board =>
      if Db.b_isPrivate board then
        if negb (truthy clerkUserId) then
          (st1, send env ws (ACCESS_DENIED boardId
                   "This is a private board. Please sign in to access it."))
        else if bool_decide (Db.b_ownerId board <> clerkUserId) then
          (st1, send env ws (ACCESS_DENIED boardId
                   "This board is private. Only the owner can access it."))
        else hello_join env st1 ws p now uuid anonName
      else hello_join env st1 ws p now uuid anonName
  | None => hello_join env st1 ws p now uuid anonName
  end.

(** [handleDrawEvent]; [dbUp] says whether the database accepts the
    insert of [appendEvent] (absent a key collision).  The compaction
    trigger runs detached and is left out. *)
Definition handleDrawEvent (env : Env) (st : Server) (ws : conn)
    (etype : DrawEventType) (payload : DrawEventPayload) (now : Z) (dbUp : bool)
    : Server * list (conn * ServerMessage) :=
  let '(allowed, dk) := RateLimiter.checkDrawLimit (drawBuckets st) ws now in
  let st1 := set_drawBuckets st dk in
  if negb allowed then (st1, []) else
  let boardId := JsMap.get (Presence.connectionToBoard (pres st1)) ws in
  let identity := JsMap.get (Presence.connectionToUser (pres st1)) ws in
  match boardId, identity with
  | Some b, Some id =>
      if negb (truthy (Some b)) then
        (st1, send env ws (ERROR NOT_JOINED "Must send HELLO first"))
      else
      (* sequenceEvent *)
      let st2 := initBoardSequence st1 b in
      match JsMap.get (nextSeq st2) b with
      | Some seq =>
          let st3 := set_nextSeq st2 (JsMap.set (nextSeq st2) b (seq + 1)) in
          let event := mkDrawEvent b seq etype (userId id) now payload in
          match Db.appendEvent (db st3) event dbUp with
          | Some d' => (set_db st3 d', broadcastAll env (pres st3) b (DRAW_EVENT event))
          | None => (st3, send env ws (ERROR DRAW_FAILED "Failed to process draw event"))
          end
      | None => (st2, [])
      end
  | _, _ => (st1, send env ws (ERROR NOT_JOINED "Must send HELLO first"))
  end.

(** [handleCursorMove] *)
Definition handleCursorMove (env : Env) (st : Server) (ws : conn) (x y now : Z)
    : Server * list (conn * ServerMessage) :=
  let '(allowed, ck) := RateLimiter.checkCursorLimit (cursorBuckets st) ws now in
  let st1 := set_cursorBuckets st ck in
  if negb allowed then (st1, []) else
  let '(result, p') := Presence.updateCursor (pres st1) ws x y now in
  match result with
  | None => (set_pres st1 p', [])
  | Some (b, u, dn, ac) =>
      (set_pres st1 (Presence.queueCursorUpdate p' b u dn ac x y), [])
  end.

End Handlers.

(* ------------------------------------------------------------------ *)
(** ** Snapshot renderer ([renderEventsToSnapshot])

    The canvas is abstracted to its size and the list of events drawn on
    it, in drawing order; [toDataURL] of a canvas is that canvas. *)

Module Renderer.

Definition MAX_CANVAS_SIZE : Z := 16384.
Definition PADDING : Q := 100.

Record BoundingBox := mkBox { minX : Q; minY : Q; maxX : Q; maxY : Q }.

Record Canvas := mkCanvas { c_width : Z; c_height : Z; c_drawn : list DrawEvent }.

Record SnapshotResult := mkResult { imageData : Canvas; offsetX : Q; offsetY : Q }.

(** [text.split('\n')] *)
Fixpoint split_nl (s : string) (cur : string) : list string :=
  match s with
  | EmptyString => [cur]
  | String c s' =>
      if Ascii.eqb c (Ascii.ascii_of_nat 10) then cur :: split_nl s' ""
      else split_nl s' (cur +:+ String c EmptyString)
  end.

(** [Math.min(m, v)] / [Math.max(m, v)] from [Infinity] / [-Infinity]:
    [None] is the box before any content ([hasContent = false]). *)
Definition extend (bb : option BoundingBox) (x0 y0 x1 y1 : Q) : option BoundingBox :=
  Some (match bb with
        | None => mkBox x0 y0 x1 y1
        | Some b => mkBox (Qmin (minX b) x0) (Qmin (minY b) y0)
                          (Qmax (maxX b) x1) (Qmax (maxY b) y1)
        end).

(** One iteration of the loop of [calculateBounds]. *)
Definition bounds_step (deletedIds : list string) (bb : option BoundingBox) (e : DrawEvent)
    : option BoundingBox :=
  match ev_type e, ev_payload e with
  | ETstroke, StrokePayload strokeId _ width _ points =>
      if bool_decide (strokeId ∈ deletedIds) then bb else
      fold_left (fun bb '(x, y) =>
                   extend bb (x - width)%Q (y - width)%Q (x + width)%Q (y + width)%Q)
        points bb
  | ETshape, ShapePayload strokeId _ start end_ _ width _ =>
      if bool_decide (strokeId ∈ deletedIds) then bb else
      extend bb (Qmin (start.1 - width) (end_.1 - width))%Q
                (Qmin (start.2 - width) (end_.2 - width))%Q
                (Qmax (start.1 + width) (end_.1 + width))%Q
                (Qmax (start.2 + width) (end_.2 + width))%Q
  | ETtext, TextPayload strokeId text position _ fontSize =>
      if bool_decide (strokeId ∈ deletedIds) then bb else
      let lines := split_nl text "" in
      let textWidth := (inject_Z (Z.of_nat (foldr Nat.max 0%nat (map String.length lines)))
                         * fontSize * (6 # 10))%Q in
      let textHeight := (inject_Z (Z.of_nat (length lines)) * fontSize * (13 # 10))%Q in
      extend bb position.1 position.2 (position.1 + textWidth)%Q (position.2 + textHeight)%Q
  | _, _ => bb
  end.

Definition calculateBounds (events : list DrawEvent) (deletedIds : list string)
    : option BoundingBox :=
  fold_left (bounds_step deletedIds) events None.

(** The condition under which the second pass draws an event. *)
Definition renders (deletedIds : list string) (e : DrawEvent) : bool :=
  match ev_type e, ev_payload e with
  | ETstroke, StrokePayload strokeId _ _ _ _
  | ETshape, ShapePayload strokeId _ _ _ _ _ _
  | ETtext, TextPayload strokeId _ _ _ _ => negb (bool_decide (strokeId ∈ deletedIds))
  | _, _ => false
  end.

(** One iteration of the first pass: the loop index [i], the deleted ids
    (reset at each clear) and [lastClearIndex]. *)
Definition first_pass_step (st : nat * (list string * Z)) (e : DrawEvent)
    : nat * (list string * Z) :=
  let '(i, (deletedIds, lastClearIndex)) := st in
  (S i, match ev_type e, ev_payload e with
        | ETdelete, DeletePayload strokeIds =>
            (fold_left JsSet.add strokeIds deletedIds, lastClearIndex)
        | ETclear, _ => ([], Z.of_nat i)
        | _, _ => (deletedIds, lastClearIndex)
        end).

Definition first_pass (events : list DrawEvent) : list string * Z :=
  (fold_left first_pass_step events (0, ([], (-1)%Z))).2.

Definition renderEventsToSnapshot (events : list DrawEvent) : SnapshotResult :=
  let '(deletedIds, lastClearIndex) := first_pass events in
  let eventsToRender :=
    if (0 <=? lastClearIndex)%Z then drop (Z.to_nat lastClearIndex + 1) events else events in
  match calculateBounds eventsToRender deletedIds with
  | None => mkResult (mkCanvas 1 1 []) 0%Q 0%Q
  | Some bounds =>
      let width := Z.min MAX_CANVAS_SIZE
                     (Qceiling (maxX bounds - minX bounds + PADDING * 2)%Q) in
      let height := Z.min MAX_CANVAS_SIZE
                      (Qceiling (maxY bounds - minY bounds + PADDING * 2)%Q) in
      mkResult (mkCanvas width height (filter (fun e => renders deletedIds e = true) eventsToRender))
               (minX bounds - PADDING)%Q (minY bounds - PADDING)%Q
  end.

End Renderer.

(* ------------------------------------------------------------------ *)
(** ** One cursor-batch tick

    The [queueCursorUpdate] calls made between two runs of
    [flushCursorBatches], in order, as
    [(boardId, userId, displayName, avatarColor, x, y)]. *)

Module CursorTick.

Definition update := (string * string * string * option string * Z * Z)%type.

Definition queue_all (p : Presence.State) (qs : list update) : Presence.State :=
  fold_left (fun s '(b, u, dn, ac, x, y) => Presence.queueCursorUpdate s b u dn ac x y) qs p.

(** The entry of [u] on board [b] after the updates [qs], starting from [acc]. *)
Definition last_update_from (qs : list update) (b u : string) (acc : option CursorData)
    : option CursorData :=
  fold_left (fun acc '(b', u', dn, ac, x, y) =>
               if bool_decide (b' = b /\ u' = u) then Some (mkCursor u' dn ac x y) else acc)
            qs acc.

(** The entry of the last update of [u] on [b] in [qs], if any. *)
Definition last_update (qs : list update) (b u : string) : option CursorData :=
  last_update_from qs b u None.

(** The buffer of board [b] ([cursorBatches.get(b)], or an empty map). *)
Definition buf (p : Presence.State) (b : string) : list (string * CursorData) :=
  match JsMap.get (Presence.cursorBatches p) b with Some m => m | None => [] end.

(** The board a [CURSOR_BATCH] message is for. *)
Definition batch_board (m : Handlers.ServerMessage) : option string :=
  match m with Handlers.CURSOR_BATCH b _ => Some b | _ => None end.

End CursorTick.

(* ------------------------------------------------------------------ *)
(** ** Board administration ([db/client.ts]) *)

Module DbAdmin.
Import Db.

(** [createBoard]: [INSERT ... RETURNING]; the insert fails when the id is
    taken ([boards.id] is the primary key).  [name ?? null] and
    [ownerId ?? null] keep an absent value absent; an [isPrivate] the
    caller leaves [undefined] ([None]) is sent as NULL. *)
Definition createBoard (d : Db) (boardId : string) (name ownerId : option string)
    (isPrivate : option bool) : option (Board * Db) :=
  if bool_decide (boardId ∈ map br_id (boards d)) then None else
  let row := mkBoardRow boardId name ownerId isPrivate in
  Some (rowToBoard row, mkDb (boards d ++ [row]) (drawing_events d) (board_snapshots d)).

(** [deleteBoard]: [DELETE FROM drawing_events WHERE board_id = $1], then
    [DELETE FROM boards WHERE id = $1 AND owner_id = $2] (a NULL owner
    matches nothing); the result is [rowCount > 0] of the second query. *)
Definition deleteBoard (d : Db) (boardId ownerId : string) : bool * Db :=
  let events' := filter (fun e => ev_boardId e <> boardId) (drawing_events d) in
  let removed := filter (fun r => br_id r = boardId /\ br_owner_id r = Some ownerId) (boards d) in
  let boards' := filter (fun r => ~ (br_id r = boardId /\ br_owner_id r = Some ownerId))
                   (boards d) in
  (bool_decide (0 < length removed), mkDb boards' events' (board_snapshots d)).

(** [canAccessBoard]: [userId !== null && board.ownerId === userId] for a
    private board. *)
Definition canAccessBoard (d : Db) (boardId : string) (userId : option string) : bool :=
  match getBoard d boardId with
  | None => false
  | Some board =>
      if negb (b_isPrivate board) then true
      else match userId with
           | Some u => bool_decide (b_ownerId board = Some u)
           | None => false
           end
  end.

(** [saveSnapshot]: [INSERT ... ON CONFLICT (board_id) DO UPDATE]; the
    table is keyed by [board_id]. *)
Definition saveSnapshot (d : Db) (boardId : string) (seq : nat) (imageData : string) : Db :=
  let row := mkSnapshotRow boardId seq imageData in
  if bool_decide (boardId ∈ map sr_board_id (board_snapshots d))
  then mkDb (boards d) (drawing_events d)
         (map (fun r => if bool_decide (sr_board_id r = boardId) then row else r)
              (board_snapshots d))
  else mkDb (boards d) (drawing_events d) (board_snapshots d ++ [row]).

End DbAdmin.

(* ------------------------------------------------------------------ *)
(** ** Remaining handlers ([handlers.ts]) and the REST routes ([index.ts]) *)

Module HandlersMore.
Import Handlers.

(** Outgoing messages, with [BOARD_CREATED] besides [ServerMessage]. *)
Inductive Outgoing :=
  | Msg (m : ServerMessage)
  | BOARD_CREATED (boardId : string) (name : option string) (isPrivate : option bool).

Definition sendOut (env : Env) (ws : conn) (m : Outgoing) : list (conn * Outgoing) :=
  if isOpen env ws then [(ws, m)] else [].

Definition lift (r : Server * list (conn * ServerMessage)) : Server * list (conn * Outgoing) :=
  (r.1, map (fun cm => (cm.1, Msg cm.2)) r.2).

(** [handleDisconnect]: [leaveBoard], then [USER_LEAVE] to the board's
    remaining clients. *)
Definition handleDisconnect (env : Env) (st : Server) (ws : conn)
    : Server * list (conn * ServerMessage) :=
  let '(result, p') := Presence.leaveBoard (pres st) ws in
  (set_pres st p',
   match result with
   | Some (b, u) => broadcast env p' b (USER_LEAVE b u) None
   | None => []
   end).

(** [handleCreateBoard]; [uuid] is the value [generateUUID()] returns, and
    a failing [createBoard] is the [CREATE_FAILED] branch of the catch. *)
Definition handleCreateBoard (env : Env) (st : Server) (ws : conn) (name : option string)
    (isPrivate : option bool) (clerkToken : option string) (uuid : string)
    : Server * list (conn * Outgoing) :=
  let clerkUserId := verifyClerkToken env clerkToken in
  if negb (truthy clerkUserId) then
    (st, sendOut env ws (Msg (ERROR UNAUTHORIZED "You must be signed in to create a board")))
  else
  match DbAdmin.createBoard (db st) uuid name clerkUserId isPrivate with
  | None => (st, sendOut env ws (Msg (ERROR CREATE_FAILED "Failed to create board")))
  | Some (_, d') =>
      (initBoardSequence (set_db st d') uuid, sendOut env ws (BOARD_CREATED uuid name isPrivate))
  end.

(** A parsed client message; [CM_OTHER] is one whose [type] is none of the
    known ones.  A missing optional field is [None]. *)
Inductive ClientMessage :=
  | CM_HELLO (p : HelloPayload)
  | CM_DRAW_EVENT (etype : DrawEventType) (payload : DrawEventPayload)
  | CM_CURSOR_MOVE (x y : Z)
  | CM_PING
  | CM_LEAVE_BOARD
  | CM_CREATE_BOARD (name : option string) (isPrivate : option bool) (clerkToken : option string)
  | CM_OTHER.

(** What a handler reads from its environment besides the state: the
    clock, the values of [generateUUID] and [generateAnonymousName], and
    whether the database accepts an insert. *)
Record Inputs := mkInputs { i_now : Z; i_uuid : string; i_anonName : string; i_dbUp : bool }.

(** [handleMessage]; [None] is data that [JSON.parse] rejects. *)
Definition handleMessage (env : Env) (st : Server) (ws : conn) (data : option ClientMessage)
    (i : Inputs) : Server * list (conn * Outgoing) :=
  match data with
  | None => (st, sendOut env ws (Msg (ERROR INVALID_JSON "Invalid JSON message")))
  | Some (CM_HELLO p) => lift (handleHello env st ws p (i_now i) (i_uuid i) (i_anonName i))
  | Some (CM_DRAW_EVENT t pl) => lift (handleDrawEvent env st ws t pl (i_now i) (i_dbUp i))
  | Some (CM_CURSOR_MOVE x y) => lift (handleCursorMove env st ws x y (i_now i))
  | Some CM_PING => (st, sendOut env ws (Msg PONG))
  | Some CM_LEAVE_BOARD => lift (handleDisconnect env st ws)
  | Some (CM_CREATE_BOARD n p t) => handleCreateBoard env st ws n p t (i_uuid i)
  | Some CM_OTHER => (st, sendOut env ws (Msg (ERROR UNKNOWN_MESSAGE "Unknown message type")))
  end.

Definition COMPACTION_THRESHOLD : nat := 5000.

Section Compaction.
(** [canvas.toDataURL('image/png')] *)
Variable toDataURL : Renderer.Canvas -> string.

(** [maybeCompactBoard] run to completion, given the boards whose
    compaction is in progress.  [saveSnapshot] declares three parameters,
    so the offsets passed to it are dropped. *)
Definition maybeCompactBoard (inProgress : list string) (d : Db.Db) (boardId : string)
    (currentSeq : nat) : Db.Db :=
  if negb (Nat.eqb (currentSeq mod COMPACTION_THRESHOLD) 0) then d
  else if bool_decide (boardId ∈ inProgress) then d
  else
    let events := Db.getEvents d boardId in
    if Nat.ltb (length events) COMPACTION_THRESHOLD then d
    else
      let snapshotResult := Renderer.renderEventsToSnapshot events in
      DbAdmin.saveSnapshot d boardId currentSeq (toDataURL (Renderer.imageData snapshotResult)).
End Compaction.

(** Status codes of the [/api/boards] routes of [handleApi] ([index.ts]),
    [userId] being the result of [verifyClerkToken]. *)

(** [POST /api/boards]: [createBoard(boardId, name, userId, isPrivate ?? true)]. *)
Definition apiCreateBoard (st : Server) (userId : option string) (name : option string)
    (isPrivate : option bool) (uuid : string) : Z * Server :=
  if negb (truthy userId) then (401%Z, st) else
  match DbAdmin.createBoard (db st) uuid name userId
          (Some (match isPrivate with Some p => p | None => true end)) with
  | None => (500%Z, st)
  | Some (_, d') => (201%Z, initBoardSequence (set_db st d') uuid)
  end.

(** [DELETE /api/boards/:id] *)
Definition apiDeleteBoard (d : Db.Db) (userId : option string) (boardId : string) : Z * Db.Db :=
  match userId with
  | Some u =>
      if negb (truthy userId) then (401%Z, d) else
      let '(deleted, d') := DbAdmin.deleteBoard d boardId u in
      (if deleted then 200%Z else 404%Z, d')
  | None => (401%Z, d)
  end.

End HandlersMore.

(* ------------------------------------------------------------------ *)
(** ** More of the shared utilities *)

Module SharedMore.
Import Stdlib.Strings.Ascii.

Definition ANIMALS : list string :=
  ["Tiger"; "Falcon"; "Dolphin"; "Wolf"; "Eagle"; "Bear"; "Fox"; "Hawk";
   "Lion"; "Panther"; "Raven"; "Shark"; "Cobra"; "Lynx"; "Orca"; "Viper";
   "Phoenix"; "Dragon"; "Griffin"; "Pegasus"; "Kraken"; "Hydra"; "Sphinx";
   "Unicorn"; "Chimera"; "Manticore"; "Basilisk"; "Wyvern"; "Cerberus"]%string.

(** [generateAnonymousName], [r] being the value of [Math.random()]; an
    index out of range reads [undefined]. *)
Definition generateAnonymousName (r : Q) : string :=
  let i := Qfloor (r * inject_Z (Z.of_nat (length ANIMALS))) in
  if (i <? 0)%Z then "Anonymous undefined"
  else match nth_error ANIMALS (Z.to_nat i) with
       | Some animal => String.append "Anonymous " animal
       | None => "Anonymous undefined"
       end.

(** [x | 0] on a double: truncation towards zero, then ToInt32. *)
Definition or0 (q : Q) : Z :=
  Shared.toInt32 (if Qle_bool 0 q then Qfloor q else (- Qfloor (- q))%Z).

Definition HEX : string := "0123456789abcdef".

Definition hexDigit (v : Z) : Ascii.ascii :=
  match String.get (Z.to_nat v) HEX with Some c => c | None => "0"%char end.

(** [Number.prototype.toString(16)] on an integer. *)
Fixpoint hex_digits (fuel : nat) (n : Z) (acc : string) : string :=
  match fuel with
  | O => acc
  | S f =>
      let acc' := String (hexDigit (n mod 16)) acc in
      if (n / 16 =? 0)%Z then acc' else hex_digits f (n / 16) acc'
  end.

Definition toString16 (v : Z) : string :=
  if (v <? 0)%Z then String.append "-" (hex_digits 64 (- v) "") else hex_digits 64 v "".

(** The replacement callback of [generateUUID], on the [k]-th match. *)
Definition uuid_char (c : Ascii.ascii) (r : Q) : string :=
  let r' := or0 (r * 16) in
  let v := if Ascii.eqb c "x"%char then r' else Z.lor (Z.land r' 3) 8 in
  toString16 v.

(** [template.replace(/[xy]/g, cb)]; [rand k] is the [k]-th value of
    [Math.random()]. *)
Fixpoint uuid_fill (tmpl : string) (rand : nat -> Q) (k : nat) : string :=
  match tmpl with
  | EmptyString => EmptyString
  | String c t =>
      if Ascii.eqb c "x"%char || Ascii.eqb c "y"%char
      then String.append (uuid_char c (rand k)) (uuid_fill t rand (S k))
      else String c (uuid_fill t rand k)
  end.

Definition UUID_TEMPLATE : string := "xxxxxxxx-xxxx-4xxx-yxxx-xxxxxxxxxxxx".

Definition generateUUID (rand : nat -> Q) : string := uuid_fill UUID_TEMPLATE rand 0.

Definition point := (Q * Q)%type.

Section Simplify.
(** [Math.sqrt] *)
Variable sqrt : Q -> Q.

(** [perpendicularDistance] *)
Definition perpendicularDistance (p lineStart lineEnd : point) : Q :=
  let '(px, py) := p in
  let '(x1, y1) := lineStart in
  let '(x2, y2) := lineEnd in
  let dx := (x2 - x1)%Q in
  let dy := (y2 - y1)%Q in
  if Qeq_bool dx 0 && Qeq_bool dy 0
  then sqrt ((px - x1) ^ 2 + (py - y1) ^ 2)%Q
  else (Qabs (dy * px - dx * py + x2 * y1 - y2 * x1) / sqrt (dx * dx + dy * dy))%Q.

(** The loop over [points[1 .. length - 2]] of [simplifyStroke], from
    index [i], with the running [(maxDistance, maxIndex)]. *)
Fixpoint max_dist (first last : point) (pts : list point) (i : nat) (best : Q * nat)
    : Q * nat :=
  match pts with
  | [] => best
  | p :: ps =>
      let distance := perpendicularDistance p first last in
      max_dist first last ps (S i)
        (if negb (Qle_bool distance best.1) then (distance, i) else best)
  end.

(** [simplifyStroke], run with at most [fuel] nested calls; [None] when
    the recursion has not finished within that depth. *)
Fixpoint simplify (fuel : nat) (points : list point) (epsilon : Q) : option (list point) :=
  match points with
  | first :: rest =>
      if Nat.leb (length points) 2 then Some points else
      match fuel with
      | O => None
      | S f =>
          let last := List.last rest first in
          let '(maxDistance, maxIndex) := max_dist first last (removelast rest) 1 (0%Q, 0) in
          if negb (Qle_bool maxDistance epsilon) then
            match simplify f (take (maxIndex + 1) points) epsilon,
                  simplify f (drop maxIndex points) epsilon with
            | Some left', Some right' => Some (removelast left' ++ right')
            | _, _ => None
            end
          else Some [first; last]
      end
  | [] => Some []
  end.
End Simplify.

End SharedMore.

(* ================================================================== *)
(** * Proofs *)

(* ------------------------------------------------------------------ *)
(** ** Facts about [JsMap] *)

Module JsMapFacts.
Section Facts.
Context {K V : Type} `{EqDecision K}.

Lemma get_set_eq (m : list (K * V)) k v : JsMap.get (JsMap.set m k v) k = Some v.
Proof.
  induction m as [|[k' v'] m IH]; simpl.
  - by rewrite decide_True.
  - destruct (decide (k = k')) as [->|Hne]; simpl.
    + by rewrite decide_True.
    + by rewrite decide_False.
Qed.

Lemma get_set_ne (m : list (K * V)) k k' v :
  k' <> k -> JsMap.get (JsMap.set m k v) k' = JsMap.get m k'.
Proof.
  intros Hne. induction m as [|[k0 v0] m IH]; simpl.
  - by rewrite decide_False.
  - destruct (decide (k = k0)) as [->|Hne0]; simpl.
    + by rewrite !decide_False.
    + destruct (decide (k' = k0)); [done|]. exact IH.
Qed.

Lemma get_None_set (m : list (K * V)) k v :
  JsMap.get m k = None -> JsMap.set m k v = m ++ [(k, v)].
Proof.
  induction m as [|[k0 v0] m IH]; simpl; [done|].
  intros H. destruct (decide (k = k0)); [discriminate|]. by rewrite IH.
Qed.

Lemma get_None_not_in_keys (m : list (K * V)) k :
  JsMap.get m k = None -> k ∉ JsMap.keys m.
Proof.
  induction m as [|[k0 v0] m IH]; simpl; [set_solver|].
  intros H. destruct (decide (k = k0)); [discriminate|]. set_solver.
Qed.

Lemma delete_not_in (m : list (K * V)) k :
  k ∉ JsMap.keys m -> JsMap.delete m k = m.
Proof.
  induction m as [|[k0 v0] m IH]; simpl; [done|].
  intros Hk. unfold JsMap.delete. rewrite filter_cons_True; [|set_solver].
  f_equal. apply IH. set_solver.
Qed.

Lemma delete_app_last (m : list (K * V)) k v :
  k ∉ JsMap.keys m -> JsMap.delete (m ++ [(k, v)]) k = m.
Proof.
  intros Hk. unfold JsMap.delete. rewrite filter_app.
  rewrite filter_cons_False by (simpl; tauto).
  rewrite filter_nil, app_nil_r. by apply delete_not_in.
Qed.
End Facts.
End JsMapFacts.

(* ------------------------------------------------------------------ *)
(** ** Sequencer *)

Module SequencerProofs.
Import Sequencer.

Lemma seqs_of_app b l1 l2 :
  Store.seqs_of b (l1 ++ l2) = Store.seqs_of b l1 ++ Store.seqs_of b l2.
Proof. unfold Store.seqs_of. by rewrite filter_app, map_app. Qed.

Lemma seqs_of_one_eq b n : Store.seqs_of b [(b, n)] = [n].
Proof. unfold Store.seqs_of. by rewrite filter_cons_True, filter_nil. Qed.

Lemma seqs_of_one_ne b b' n : b' <> b -> Store.seqs_of b' [(b, n)] = [].
Proof.
  intros Hne. unfold Store.seqs_of. rewrite filter_cons_False; [done|].
  simpl. congruence.
Qed.

Lemma seqs_of_cons_eq b n l : Store.seqs_of b ((b, n) :: l) = n :: Store.seqs_of b l.
Proof. unfold Store.seqs_of. by rewrite filter_cons_True. Qed.

Lemma seqs_of_cons_ne b b' n l :
  b' <> b -> Store.seqs_of b' ((b, n) :: l) = Store.seqs_of b' l.
Proof.
  intros Hne. unfold Store.seqs_of. rewrite filter_cons_False; [done|].
  simpl. congruence.
Qed.

Lemma foldr_max_perm (l l' : list nat) :
  Permutation l l' -> foldr Nat.max 0 l = foldr Nat.max 0 l'.
Proof. induction 1; simpl; lia. Qed.

Lemma foldr_max_seq m : foldr Nat.max 0 (seq 1 m) = m.
Proof.
  induction m as [|m IH]; [done|].
  assert (Hp : Permutation (seq 1 (S m)) (S m :: seq 1 m)).
  { rewrite seq_S. apply Permutation_sym, Permutation_cons_append. }
  rewrite (foldr_max_perm _ _ Hp). simpl. rewrite IH. lia.
Qed.

Lemma max_of_perm_seq (l : list nat) m :
  Permutation l (seq 1 m) -> foldr Nat.max 0 l = m.
Proof. intros H. rewrite (foldr_max_perm _ _ H). apply foldr_max_seq. Qed.

(** The counter invariant: a board without a counter has no append in
    flight and a gapless log; a board with counter [n] has reserved
    exactly [1 .. n-1], each either persisted or in flight. *)
Definition counter_inv (st : state) : Prop :=
  forall b,
    match JsMap.get (nextSeq st) b with
    | None =>
        Store.seqs_of b (inflight st) = [] /\
        Permutation (Store.seqs_of b (stored st))
                    (seq 1 (Store.getMaxSeq (stored st) b))
    | Some n =>
        1 <= n /\
        Permutation (Store.seqs_of b (stored st) ++ Store.seqs_of b (inflight st))
                    (seq 1 (n - 1))
    end.

Lemma counter_inv_empty : counter_inv empty.
Proof. intros b. simpl. split; [done|]. unfold Store.getMaxSeq. done. Qed.

Lemma counter_inv_step st st' : step_ok st st' -> counter_inv st -> counter_inv st'.
Proof.
  intros Hs Hinv b'. specialize (Hinv b'). destruct Hs as
    [st b|st b n st' Hr|st p1 b n p2 Hin Hnot].
  - (* init *)
    unfold initBoardSequence, JsMap.has.
    destruct (JsMap.get (nextSeq st) b) eqn:Hg; [exact Hinv|]. simpl.
    destruct (decide (b' = b)) as [->|Hne].
    + rewrite JsMapFacts.get_set_eq. rewrite Hg in Hinv.
      destruct Hinv as [Hf Hp]. split; [lia|].
      rewrite Hf, app_nil_r. by replace (_ + 1 - 1) with (Store.getMaxSeq (stored st) b) by lia.
    + by rewrite JsMapFacts.get_set_ne.
  - (* reserve *)
    unfold reserve in Hr. destruct (JsMap.get (nextSeq st) b) as [n0|] eqn:Hg;
      [|discriminate].
    injection Hr as <- <-. simpl. rewrite seqs_of_app.
    destruct (decide (b' = b)) as [->|Hne].
    + rewrite JsMapFacts.get_set_eq, seqs_of_one_eq. rewrite Hg in Hinv.
      destruct Hinv as [H1 Hp]. split; [lia|].
      replace (n0 + 1 - 1) with (S (n0 - 1)) by lia. rewrite seq_S.
      rewrite app_assoc. replace (1 + (n0 - 1)) with n0 by lia.
      by apply Permutation_app_tail.
    + rewrite JsMapFacts.get_set_ne by done. rewrite seqs_of_one_ne by done.
      by rewrite app_nil_r.
  - (* a successful append *)
    simpl. rewrite Hin in Hinv. rewrite !seqs_of_app in *.
    destruct (decide (b' = b)) as [->|Hne].
    + rewrite seqs_of_one_eq. rewrite seqs_of_cons_eq in Hinv.
      destruct (JsMap.get (nextSeq st) b) as [c|].
      * destruct Hinv as [H1 Hp]. split; [done|]. rewrite <- Hp.
        rewrite <- !app_assoc. apply Permutation_app_head.
        simpl. apply Permutation_middle.
      * exfalso. destruct Hinv as [Hf _].
        apply app_eq_nil in Hf. destruct Hf as [_ Hf]. discriminate.
    + rewrite seqs_of_one_ne by done. rewrite app_nil_r.
      rewrite seqs_of_cons_ne in Hinv by done.
      destruct (JsMap.get (nextSeq st) b') as [c|]; [exact Hinv|].
      unfold Store.getMaxSeq in *. rewrite seqs_of_app, seqs_of_one_ne, app_nil_r by done.
      exact Hinv.
Qed.

(** [step_ok] is the part of [step] without failed appends and without
    board deletions. *)
Lemma step_ok_step st st' : step_ok st st' -> step st st'.
Proof.
  intros [st0 b|st0 b n st1 Hr|st0 p1 b n p2 Hin Hnot].
  - apply StepInit.
  - by eapply StepReserve.
  - by eapply StepAppendOk.
Qed.

Lemma counter_inv_reachable st : reachable_ok st -> counter_inv st.
Proof.
  unfold reachable_ok. intros Hr.
  enough (forall s0, rtc step_ok s0 st -> counter_inv s0 -> counter_inv st) as H.
  { apply (H empty); [done|apply counter_inv_empty]. }
  clear Hr. intros s0 Hr. induction Hr as [|x y z Hxy Hyz IH]; [done|].
  intros Hx. apply IH. by eapply counter_inv_step.
Qed.

End SequencerProofs.

(** Claim C1, as stated: at any time the persisted seqs of a board are
    exactly [1 .. maxSeq].  Two runs on board "B" end, with nothing in
    flight, with a gap.  In the first, the first append fails (a transient
    database error) and the second succeeds: the single row is seq 2.  In
    the second, no append fails: seqs 1 and 2 are stored, the board is
    deleted through [DELETE /api/boards/:id] (its events go, the counter
    stays at 3), and the next draw stores seq 3 alone. *)
Lemma C1_gaps_in_persisted_seqs :
  (exists st, Sequencer.reachable st /\ Sequencer.inflight st = [] /\
    Store.seqs_of "B" (Sequencer.stored st) = [2] /\
    Store.getMaxSeq (Sequencer.stored st) "B" = 2 /\
    ~ Permutation (Store.seqs_of "B" (Sequencer.stored st))
                  (seq 1 (Store.getMaxSeq (Sequencer.stored st) "B"))) /\
  (exists st,
    rtc (fun s s' => Sequencer.step_ok s s' \/ exists b, s' = Sequencer.deleteEvents s b)
      Sequencer.empty st /\
    Sequencer.reachable st /\ Sequencer.inflight st = [] /\
    Store.seqs_of "B" (Sequencer.stored st) = [3] /\
    Store.getMaxSeq (Sequencer.stored st) "B" = 3 /\
    ~ Permutation (Store.seqs_of "B" (Sequencer.stored st))
                  (seq 1 (Store.getMaxSeq (Sequencer.stored st) "B"))).
Proof.
  split.
  - exists (Sequencer.mkState [("B", 3)] [("B", 2)] []).
    split; [|split; [done|split; [done|split; [done|]]]].
    + unfold Sequencer.reachable.
      eapply rtc_l; [apply (Sequencer.StepInit _ "B")|]. cbn.
      eapply rtc_l; [apply (Sequencer.StepReserve _ "B" 1); reflexivity|].
      eapply rtc_l; [apply (Sequencer.StepAppendFail _ [] "B" 1 []); reflexivity|].
      cbn.
      eapply rtc_l; [apply (Sequencer.StepReserve _ "B" 2); reflexivity|].
      eapply rtc_l; [apply (Sequencer.StepAppendOk _ [] "B" 2 []); [reflexivity|set_solver]|].
      cbn. apply rtc_refl.
    + cbn. intros Hp. apply Permutation_length in Hp. discriminate.
  - exists (Sequencer.mkState [("B", 4)] [("B", 3)] []).
    assert (Hr : rtc (fun s s' => Sequencer.step_ok s s' \/
                                  exists b, s' = Sequencer.deleteEvents s b)
                   Sequencer.empty (Sequencer.mkState [("B", 4)] [("B", 3)] [])).
    { eapply rtc_l; [left; apply (Sequencer.OkInit _ "B")|]. cbn.
      eapply rtc_l; [left; apply (Sequencer.OkReserve _ "B" 1); reflexivity|].
      eapply rtc_l; [left; apply (Sequencer.OkAppend _ [] "B" 1 []); [reflexivity|set_solver]|].
      cbn.
      eapply rtc_l; [left; apply (Sequencer.OkReserve _ "B" 2); reflexivity|].
      eapply rtc_l; [left; apply (Sequencer.OkAppend _ [] "B" 2 []); [reflexivity|set_solver]|].
      cbn.
      eapply rtc_l; [right; exists "B"%string; reflexivity|].
      cbn.
      eapply rtc_l; [left; apply (Sequencer.OkReserve _ "B" 3); reflexivity|].
      eapply rtc_l; [left; apply (Sequencer.OkAppend _ [] "B" 3 []); [reflexivity|set_solver]|].
      cbn. apply rtc_refl. }
    split; [exact Hr|]. split.
    + unfold Sequencer.reachable. clear -Hr.
      induction Hr as [|x y z Hxy _ IH]; [apply rtc_refl|].
      eapply rtc_l; [|exact IH].
      destruct Hxy as [Hs|[b ->]]; [by apply SequencerProofs.step_ok_step|].
      apply Sequencer.StepDeleteBoard.
    + split; [done|split; [done|split; [done|]]].
      cbn. intros Hp. apply Permutation_length in Hp. discriminate.
Qed.

(** Claim C1, amended: in a run where no append fails and no board is
    deleted ([step_ok], a restriction of [step] by [step_ok_step]),
    whenever no append is in flight the persisted seqs of every board are
    a duplicate-free enumeration of [1 .. maxSeq(board)]. *)
Theorem C1_gapless_without_failures st :
  Sequencer.reachable_ok st -> Sequencer.inflight st = [] ->
  forall b,
    Permutation (Store.seqs_of b (Sequencer.stored st))
                (seq 1 (Store.getMaxSeq (Sequencer.stored st) b)) /\
    NoDup (Store.seqs_of b (Sequencer.stored st)).
Proof.
  intros Hr Hq b.
  assert (Hp : Permutation (Store.seqs_of b (Sequencer.stored st))
                           (seq 1 (Store.getMaxSeq (Sequencer.stored st) b))).
  { pose proof (SequencerProofs.counter_inv_reachable st Hr b) as Hi.
    destruct (JsMap.get (Sequencer.nextSeq st) b) as [n|].
    - destruct Hi as [_ Hi]. rewrite Hq in Hi. cbn in Hi. rewrite app_nil_r in Hi.
      unfold Store.getMaxSeq. rewrite (SequencerProofs.max_of_perm_seq _ _ Hi).
      exact Hi.
    - apply Hi. }
  split; [exact Hp|].
  rewrite Hp. apply NoDup_seq.
Qed.

Lemma C1_gapless_without_failures_witness :
  Sequencer.reachable_ok (Sequencer.mkState [("B", 3)] [("B", 1); ("B", 2)] []) /\
  Sequencer.inflight (Sequencer.mkState [("B", 3)] [("B", 1); ("B", 2)] []) = [] /\
  Permutation (Store.seqs_of "B" [("B", 1); ("B", 2)])
              (seq 1 (Store.getMaxSeq [("B", 1); ("B", 2)] "B")) /\
  NoDup (Store.seqs_of "B" [("B", 1); ("B", 2)]).
Proof.
  assert (Hr : Sequencer.reachable_ok
                 (Sequencer.mkState [("B", 3)] [("B", 1); ("B", 2)] [])).
  { unfold Sequencer.reachable_ok.
    eapply rtc_l; [apply (Sequencer.OkInit _ "B")|]. cbn.
    eapply rtc_l; [apply (Sequencer.OkReserve _ "B" 1); reflexivity|].
    eapply rtc_l; [apply (Sequencer.OkReserve _ "B" 2); reflexivity|].
    eapply rtc_l; [apply (Sequencer.OkAppend _ [] "B" 1 [("B", 2)]); [reflexivity|set_solver]|].
    eapply rtc_l; [apply (Sequencer.OkAppend _ [] "B" 2 []); [reflexivity|set_solver]|].
    apply rtc_refl. }
  split; [exact Hr|]. split; [reflexivity|].
  exact (C1_gapless_without_failures _ Hr eq_refl "B").
Defined.

(* ------------------------------------------------------------------ *)
(** ** Rate limiter *)

Module RateLimiterProofs.
Import RateLimiter.
Local Open Scope Q_scope.

Lemma Qnat_plus_1 (n : nat) :
  inject_Z (Z.of_nat (n + 1)) == inject_Z (Z.of_nat n) + 1.
Proof. rewrite Nat2Z.inj_add, inject_Z_plus. reflexivity. Qed.

Lemma Qnat_nonneg (n : nat) : 0 <= inject_Z (Z.of_nat n).
Proof. change 0 with (inject_Z 0). rewrite <- Zle_Qle. lia. Qed.

Section Budget.
Variables refillRate maxTokens : Q.
Hypothesis rate_nonneg : 0 <= refillRate.
Hypothesis cap_nonneg : 0 <= maxTokens.
Variable ws0 : conn.
Variable a : Z.

(** Tokens granted by the clock up to time [t], measured from 0. *)
Definition credit (t : Z) : Q := inject_Z t * refillRate / 1000.

Lemma credit_diff t l :
  inject_Z (t - l)%Z / 1000 * refillRate == credit t - credit l.
Proof.
  unfold credit. unfold Z.sub. rewrite inject_Z_plus, inject_Z_opp. field.
Qed.

Lemma credit_mono t t' : (t <= t')%Z -> credit t <= credit t'.
Proof.
  intros H. enough (0 <= credit t' - credit t) by lra.
  rewrite <- credit_diff. apply Qmult_le_0_compat; [|exact rate_nonneg].
  apply Qle_shift_div_l; [reflexivity|]. rewrite Qmult_0_l.
  change 0 with (inject_Z 0). rewrite <- Zle_Qle. lia.
Qed.

Lemma credit_window : credit (a + 1000) - credit a == refillRate.
Proof. unfold credit. rewrite inject_Z_plus. field. Qed.

(** The budget invariant of the bucket of [ws0], given the number
    [cnt] of its calls admitted so far inside [[a, a + 1000]]. *)
Definition bucket_inv (b : Bucket) (cnt : nat) : Prop :=
  0 <= tokens b <= maxTokens /\
  ((lastRefill b < a)%Z -> cnt = 0%nat) /\
  ((a <= lastRefill b <= a + 1000)%Z ->
     inject_Z (Z.of_nat cnt) + tokens b <= maxTokens + (credit (lastRefill b) - credit a)) /\
  ((a + 1000 < lastRefill b)%Z -> inject_Z (Z.of_nat cnt) <= maxTokens + refillRate).

Definition limiter_inv (buckets : list (conn * Bucket)) (cnt : nat) : Prop :=
  match JsMap.get buckets ws0 with
  | None => cnt = 0%nat
  | Some b => bucket_inv b cnt
  end.

Lemma bucket_inv_fresh t : bucket_inv (mkBucket maxTokens t) 0.
Proof.
  unfold bucket_inv, tokens, lastRefill. change (inject_Z (Z.of_nat 0)) with 0.
  split; [lra|]. split; [done|]. split.
  - intros H. pose proof (credit_mono a t ltac:(lia)). lra.
  - intros _. lra.
Qed.

Lemma refill_bounds b t :
  (lastRefill b <= t)%Z -> 0 <= tokens b ->
  0 <= tokens (refillBucket b refillRate maxTokens t) <= maxTokens /\
  tokens (refillBucket b refillRate maxTokens t) <=
    tokens b + (credit t - credit (lastRefill b)).
Proof.
  intros Hl Hpos. unfold refillBucket; simpl. rewrite credit_diff.
  pose proof (credit_mono _ _ Hl).
  destruct (Q.min_spec maxTokens (tokens b + (credit t - credit (lastRefill b))))
    as [[Hlt ->]|[Hle ->]]; lra.
Qed.

Definition counted (ws : conn) (t : Z) (ok : bool) : nat :=
  if decide ((ws, t, ok).1.1 = ws0 /\ (ws, t, ok).2 = true /\
             (a <= (ws, t, ok).1.2 <= a + 1000)%Z) then 1 else 0.

Lemma limiter_inv_step buckets cnt ws t :
  limiter_inv buckets cnt ->
  (forall b, JsMap.get buckets ws0 = Some b -> (lastRefill b <= t)%Z) ->
  limiter_inv (tryConsume buckets ws refillRate maxTokens t).2
              (cnt + counted ws t (tryConsume buckets ws refillRate maxTokens t).1).
Proof.
  intros Hinv Hlast. unfold limiter_inv in *.
  assert (Hb0 : bucket_inv (getBucket buckets ws maxTokens t) cnt /\
                (lastRefill (getBucket buckets ws maxTokens t) <= t)%Z \/ ws <> ws0).
  { destruct (decide (ws = ws0)) as [->|Hne]; [left|by right].
    unfold getBucket. destruct (JsMap.get buckets ws0) as [b|] eqn:Hg.
    - split; [exact Hinv|]. by apply Hlast.
    - subst cnt. split; [apply bucket_inv_fresh|]. simpl. lia. }
  unfold tryConsume.
  set (b1 := refillBucket (getBucket buckets ws maxTokens t) refillRate maxTokens t).
  destruct (decide (ws = ws0)) as [->|Hne].
  2:{ assert (Hk : forall ok, counted ws t ok = 0%nat).
      { intros ok. unfold counted. rewrite decide_False; [done|]. simpl. tauto. }
      destruct (Qle_bool 1 (tokens b1)); simpl; rewrite Hk, Nat.add_0_r;
        rewrite JsMapFacts.get_set_ne by done; exact Hinv. }
  destruct Hb0 as [[Hb0 Hl0]|]; [|done].
  destruct Hb0 as [[Htok0 Hcap0] [Hbefore [Hin Hafter]]].
  destruct (refill_bounds _ _ Hl0 Htok0) as [[Htok1 Hcap1] Hgrow].
  fold b1 in Htok1, Hcap1, Hgrow.
  assert (Hlast1 : lastRefill b1 = t) by reflexivity.
  pose proof (credit_window) as Hw.
  set (b0 := getBucket buckets ws0 maxTokens t) in *.
  clearbody b1.
  destruct (Qle_bool 1 (tokens b1)) eqn:Hok; simpl;
    rewrite JsMapFacts.get_set_eq; unfold bucket_inv, counted; simpl; rewrite Hlast1.
  - apply Qle_bool_iff in Hok.
    destruct (decide (ws0 = ws0 /\ true = true /\ (a <= t <= a + 1000)%Z)) as [Hwin|Hwin].
    + rewrite Qnat_plus_1. split; [split; lra|]. split; [lia|]. split; [|lia].
      intros _. 
      destruct (Z.lt_ge_cases (lastRefill b0) a) as [Hlt|Hge].
      * rewrite (Hbefore Hlt). change (inject_Z (Z.of_nat 0)) with 0. pose proof (credit_mono a t ltac:(lia)). lra.
      * specialize (Hin ltac:(lia)). lra.
    + rewrite Nat.add_0_r. split; [split; lra|]. split; [|split].
      * intros Ht. apply Hbefore. lia.
      * intros Ht. exfalso. apply Hwin. tauto.
      * intros Ht. pose proof (Qnat_nonneg cnt).
        destruct (Z.lt_ge_cases (lastRefill b0) a) as [Hlt|Hge].
        { rewrite (Hbefore Hlt). change (inject_Z (Z.of_nat 0)) with 0. lra. }
        destruct (Z.le_gt_cases (lastRefill b0) (a + 1000)) as [Hle|Hgt].
        { specialize (Hin ltac:(lia)). pose proof (credit_mono _ _ Hle). lra. }
        { exact (Hafter Hgt). }
  - rewrite decide_False by (intros [_ [? _]]; discriminate).
    rewrite Nat.add_0_r. split; [split; lra|]. split; [|split].
    + intros Ht. apply Hbefore. lia.
    + intros Ht.
      destruct (Z.lt_ge_cases (lastRefill b0) a) as [Hlt|Hge].
      * rewrite (Hbefore Hlt). change (inject_Z (Z.of_nat 0)) with 0. pose proof (credit_mono a t ltac:(lia)). lra.
      * specialize (Hin ltac:(lia)). lra.
    + intros Ht. pose proof (Qnat_nonneg cnt).
      destruct (Z.lt_ge_cases (lastRefill b0) a) as [Hlt|Hge].
      { rewrite (Hbefore Hlt). change (inject_Z (Z.of_nat 0)) with 0. lra. }
      destruct (Z.le_gt_cases (lastRefill b0) (a + 1000)) as [Hle|Hgt].
      { specialize (Hin ltac:(lia)). pose proof (credit_mono _ _ Hle). lra. }
      { exact (Hafter Hgt). }
Qed.


Lemma limiter_inv_bound buckets cnt :
  limiter_inv buckets cnt -> inject_Z (Z.of_nat cnt) <= maxTokens + refillRate.
Proof.
  unfold limiter_inv. destruct (JsMap.get buckets ws0) as [b|].
  - intros [[Htok Hcap] [Hbefore [Hin Hafter]]]. pose proof credit_window.
    destruct (Z.lt_ge_cases (lastRefill b) a) as [Hlt|Hge].
    { rewrite (Hbefore Hlt). change (inject_Z (Z.of_nat 0)) with 0. lra. }
    destruct (Z.le_gt_cases (lastRefill b) (a + 1000)) as [Hle|Hgt].
    { specialize (Hin ltac:(lia)). pose proof (credit_mono _ _ Hle). lra. }
    exact (Hafter Hgt).
  - intros ->. change (inject_Z (Z.of_nat 0)) with 0. lra.
Qed.

Lemma limiter_run_budget calls buckets cnt :
  StronglySorted Z.le (map snd calls) ->
  (forall b, JsMap.get buckets ws0 = Some b ->
     Forall (fun t => lastRefill b <= t)%Z (map snd calls)) ->
  limiter_inv buckets cnt ->
  inject_Z (Z.of_nat (cnt + admitted_in_window ws0 a
                            (limiter_run buckets refillRate maxTokens calls)))
    <= maxTokens + refillRate.
Proof.
  revert buckets cnt. induction calls as [|[ws t] calls IH]; intros buckets cnt Hs Hl Hinv.
  - simpl. rewrite Nat.add_0_r. by apply (limiter_inv_bound buckets).
  - simpl in Hs. apply StronglySorted_inv in Hs as [Hs Hhd].
    simpl. destruct (tryConsume buckets ws refillRate maxTokens t) as [ok bs'] eqn:Htc.
    unfold admitted_in_window. simpl. rewrite filter_cons.
    assert (Hstep := limiter_inv_step buckets cnt ws t Hinv
               (fun b Hb => Forall_inv (Hl b Hb))).
    rewrite Htc in Hstep. simpl in Hstep.
    assert (Hcnt : forall k, (cnt + length (if decide ((ws, t, ok).1.1 = ws0 /\ (ws, t, ok).2 = true /\
                      (a <= (ws, t, ok).1.2 <= a + 1000)%Z)
                  then (ws, t, ok) :: k else k))%nat
                = (cnt + counted ws t ok + length k)%nat).
    { intros k. unfold counted. destruct (decide _); simpl; lia. }
    rewrite Hcnt. apply IH; [exact Hs| |exact Hstep].
    intros b Hb. unfold tryConsume in Htc.
    destruct (decide (ws = ws0)) as [->|Hne].
    + destruct (Qle_bool 1 _); injection Htc as _ <-;
        rewrite JsMapFacts.get_set_eq in Hb; injection Hb as <-; exact Hhd.
    + destruct (Qle_bool 1 _); injection Htc as _ <-;
        rewrite JsMapFacts.get_set_ne in Hb by done;
        specialize (Hl b Hb); inversion Hl; done.
Qed.

End Budget.

(** From an empty bucket table, with non-decreasing clock readings. *)
Lemma budget_from_empty rate cap (Hr : 0 <= rate) (Hc : 0 <= cap) ws a calls :
  Sorted Z.le (map snd calls) ->
  inject_Z (Z.of_nat (admitted_in_window ws a (limiter_run [] rate cap calls))) <= cap + rate.
Proof.
  intros Hs.
  pose proof (limiter_run_budget rate cap Hr Hc ws a calls [] 0
                (Sorted_StronglySorted Z.le_trans Hs) (fun b Hb => ltac:(discriminate)) eq_refl) as H.
  exact H.
Qed.

Lemma budget_nat rate cap (Hr : 0 <= rate) (Hc : 0 <= cap) (bound : nat) ws a calls :
  cap + rate == inject_Z (Z.of_nat bound) ->
  Sorted Z.le (map snd calls) ->
  (admitted_in_window ws a (limiter_run [] rate cap calls) <= bound)%nat.
Proof.
  intros Hb Hs. pose proof (budget_from_empty rate cap Hr Hc ws a calls Hs) as H.
  rewrite Hb, <- Zle_Qle in H. lia.
Qed.
End RateLimiterProofs.

(* ------------------------------------------------------------------ *)
(** ** Draw and cursor handlers *)

Module HandlerProofs.
Import Handlers.

Definition env_open : Env := mkEnv true (fun _ => None) (fun _ => true).

Definition server0 : Server := mkServer Presence.empty [] (Db.mkDb [] [] []) [] [].

Lemma initBoardSequence_db st b : db (initBoardSequence st b) = db st.
Proof. unfold initBoardSequence. by destruct (JsMap.has _ _). Qed.

Lemma initBoardSequence_pres st b : pres (initBoardSequence st b) = pres st.
Proof. unfold initBoardSequence. by destruct (JsMap.has _ _). Qed.

Lemma initBoardSequence_has st b :
  exists n, JsMap.get (nextSeq (initBoardSequence st b)) b = Some n.
Proof.
  unfold initBoardSequence, JsMap.has.
  destruct (JsMap.get (nextSeq st) b) as [n|] eqn:Hg.
  - by exists n.
  - simpl. eexists. apply JsMapFacts.get_set_eq.
Qed.

Lemma initBoardSequence_drawBuckets st dk b :
  nextSeq (initBoardSequence (set_drawBuckets st dk) b) = nextSeq (initBoardSequence st b).
Proof. unfold initBoardSequence. simpl. by destruct (JsMap.has _ _). Qed.

Definition alice : UserIdentity := mkIdentity "alice" "Alice" false None.

Lemma update_inner_get {K V : Type} `{EqDecision K} (m : list (K * V)) k fresh op :
  JsMap.get (Presence.update_inner m k fresh op) k =
    Some (op (match JsMap.get m k with Some v => v | None => fresh end)).
Proof.
  unfold Presence.update_inner. destruct (JsMap.get m k); apply JsMapFacts.get_set_eq.
Qed.

Lemma joinBoard_joined p ws b identity now :
  let p' := (Presence.joinBoard p ws b identity now).2 in
  JsMap.get (Presence.connectionToBoard p') ws = Some b /\
  JsMap.get (Presence.connectionToUser p') ws = Some identity /\
  ws ∈ Presence.getBoardClients p' b /\
  (exists pr, JsMap.get (Presence.presenceByBoard p') b = Some pr /\
              JsMap.get pr (userId identity) =
                Some (Presence.joinBoard p ws b identity now).1).
Proof.
  simpl. split; [apply JsMapFacts.get_set_eq|]. split; [apply JsMapFacts.get_set_eq|].
  split.
  - unfold Presence.getBoardClients. simpl. rewrite update_inner_get.
    unfold JsSet.add. destruct (decide (ws ∈ _)) as [Hin|]; [exact Hin|].
    apply elem_of_app. right. by apply list_elem_of_singleton.
  - eexists. split; [apply update_inner_get|]. apply JsMapFacts.get_set_eq.
Qed.

(** [handleHello] either denies (with the database step of the board
    lookup only) or runs the join. *)
Lemma handleHello_cases env st ws p now uuid anon :
  let d1 := match Db.getBoard (db st) (h_boardId p) with
            | Some _ => db st
            | None => Db.ensureBoardExists (db st) (h_boardId p)
            end in
  (exists reason,
     handleHello env st ws p now uuid anon =
       (set_db st d1, send env ws (ACCESS_DENIED (h_boardId p) reason))) \/
  handleHello env st ws p now uuid anon = hello_join env (set_db st d1) ws p now uuid anon.
Proof.
  simpl. unfold handleHello.
  destruct (Db.getBoard _ (h_boardId p)) as [board|]; [|by right].
  destruct (Db.b_isPrivate board); [|by right].
  destruct (negb _); [left; eexists; reflexivity|].
  destruct (bool_decide _); [left; eexists; reflexivity|by right].
Qed.

Lemma ensureBoardExists_events d b :
  Db.drawing_events (Db.ensureBoardExists d b) = Db.drawing_events d /\
  Db.board_snapshots (Db.ensureBoardExists d b) = Db.board_snapshots d.
Proof. unfold Db.ensureBoardExists. by destruct (List.find _ _). Qed.

(** Connection 1 joined to board "B", whose counter is at 1. *)
Definition server_joined : Server :=
  mkServer (Presence.joinBoard Presence.empty 1 "B" alice 0).2 [("B", 1)]
           (Db.mkDb [] [] []) [] [].


Global Instance by_seq_total : Total Db.by_seq.
Proof. intros e1 e2. unfold Db.by_seq. lia. Qed.

Lemma sorted_by_seq l : Sorted Db.by_seq (merge_sort Db.by_seq l).
Proof. apply Sorted_merge_sort. exact by_seq_total. Qed.

Lemma syncSnapshot_ensure d b' b r :
  syncSnapshot (Db.ensureBoardExists d b') b r = syncSnapshot d b r.
Proof.
  unfold Db.ensureBoardExists. destruct (List.find _ _); [done|].
  destruct d; reflexivity.
Qed.

Lemma hello_join_pres env st ws p now uuid anon :
  pres (hello_join env st ws p now uuid anon).1 =
    (Presence.joinBoard (pres st) ws (h_boardId p) (hello_identity env p uuid anon) now).2.
Proof.
  unfold hello_join. rewrite initBoardSequence_pres.
  destruct (Presence.joinBoard _ _ _ _ _). done.
Qed.

Lemma hello_join_sync env st ws p now uuid anon :
  isOpen env ws = true ->
  In (ws, syncSnapshot (db st) (h_boardId p) (h_resumeFromSeq p))
     (hello_join env st ws p now uuid anon).2.
Proof.
  intros Hopen. unfold hello_join.
  destruct (Presence.joinBoard _ _ _ _ _). simpl.
  rewrite initBoardSequence_db. unfold send. rewrite Hopen.
  simpl. tauto.
Qed.

(** The outcome of [handleHello] on an existing board. *)
Lemma handleHello_existing env st ws p now uuid anon board :
  Db.getBoard (db st) (h_boardId p) = Some board ->
  handleHello env st ws p now uuid anon =
    if Db.b_isPrivate board then
      if negb (truthy (verifyClerkToken env (h_authToken p))) then
        (set_db st (db st), send env ws (ACCESS_DENIED (h_boardId p)
                 "This is a private board. Please sign in to access it."))
      else if bool_decide (Db.b_ownerId board <> verifyClerkToken env (h_authToken p)) then
        (set_db st (db st), send env ws (ACCESS_DENIED (h_boardId p)
                 "This board is private. Only the owner can access it."))
      else hello_join env (set_db st (db st)) ws p now uuid anon
    else hello_join env (set_db st (db st)) ws p now uuid anon.
Proof. intros Hb. unfold handleHello. rewrite Hb. simpl. rewrite Hb. done. Qed.

(** Fixtures: a verifier that knows two tokens, a private board "P"
    owned by "alice", and a public board "B" with a snapshot at seq 1. *)
Definition env_clerk : Env :=
  mkEnv true
    (fun t => if bool_decide (t = "tokA"%string) then Some "alice"%string
              else if bool_decide (t = "tokB"%string) then Some "bob"%string
              else if bool_decide (t = "tokE"%string) then Some ""%string
              else None)
    (fun _ => true).

Definition ev (b : string) (n : nat) : DrawEvent :=
  mkDrawEvent b n ETclear "alice" 0 ClearPayload.

Definition db_fixture : Db.Db :=
  Db.mkDb [Db.mkBoardRow "P" None (Some "alice") (Some true);
           Db.mkBoardRow "B" None None (Some false)]
          [ev "B" 1; ev "B" 2]
          [Db.mkSnapshotRow "B" 1 "img"].

Definition server_fixture : Server := mkServer Presence.empty [] db_fixture [] [].

Definition hello (b : string) (tok clientId : option string) (anon : bool)
    (resume : option Z) : HelloPayload :=
  mkHello b tok clientId None anon resume.

Lemma generateAvatarColor_In u : In (Shared.generateAvatarColor u) Shared.COLORS.
Proof.
  unfold Shared.generateAvatarColor. apply nth_In.
  pose proof (Z.rem_bound_pos (Z.abs (Shared.hash_loop 0 u)) (Z.of_nat (length Shared.COLORS))
                (Z.abs_nonneg _) ltac:(simpl; lia)) as Hb.
  lia.
Qed.

Lemma handleHello_pres_cases env st ws p now uuid anon :
  pres (handleHello env st ws p now uuid anon).1 = pres st \/
  pres (handleHello env st ws p now uuid anon).1 =
    (Presence.joinBoard (pres st) ws (h_boardId p) (hello_identity env p uuid anon) now).2.
Proof.
  destruct (handleHello_cases env st ws p now uuid anon) as [[reason ->] | ->].
  - by left.
  - right. by rewrite hello_join_pres.
Qed.
End HandlerProofs.

(* ------------------------------------------------------------------ *)
(** ** Cursor batching *)

Module CursorProofs.
Import CursorTick.

Section MapFacts.
Context {K V : Type} `{EqDecision K}.

Lemma get_In (m : list (K * V)) k v : JsMap.get m k = Some v -> In (k, v) m.
Proof.
  induction m as [|[k' v'] m IH]; simpl; [discriminate|].
  destruct (decide (k = k')) as [->|]; [intros [= ->]; by left|].
  intros H. right. by apply IH.
Qed.

Lemma In_get (m : list (K * V)) k v :
  NoDup (JsMap.keys m) -> In (k, v) m -> JsMap.get m k = Some v.
Proof.
  unfold JsMap.keys. induction m as [|[k' v'] m IH]; simpl; [done|].
  intros Hnd Hin. inversion Hnd as [|? ? Hnot Hnd']; subst.
  destruct Hin as [[= -> ->]|Hin].
  - by rewrite decide_True.
  - rewrite decide_False; [by apply IH|]. intros ->. apply Hnot.
    apply list_elem_of_In, in_map_iff. by exists (k', v).
Qed.

Lemma keys_set (m : list (K * V)) k v :
  JsMap.keys (JsMap.set m k v) =
    match JsMap.get m k with Some _ => JsMap.keys m | None => JsMap.keys m ++ [k] end.
Proof.
  unfold JsMap.keys. induction m as [|[k' v'] m IH]; simpl; [done|].
  destruct (decide (k = k')) as [->|Hne]; simpl; [done|].
  rewrite IH. by destruct (JsMap.get m k).
Qed.

Lemma keys_set_NoDup (m : list (K * V)) k v :
  NoDup (JsMap.keys m) -> NoDup (JsMap.keys (JsMap.set m k v)).
Proof.
  intros Hnd. rewrite keys_set. destruct (JsMap.get m k) eqn:Hg; [done|].
  apply JsMapFacts.get_None_not_in_keys in Hg.
  apply NoDup_app. split; [done|]. split.
  - intros x Hx Hx2. apply list_elem_of_singleton in Hx2. subst. contradiction.
  - apply NoDup_singleton.
Qed.

Lemma set_In (m : list (K * V)) k v kv :
  In kv (JsMap.set m k v) -> In kv m \/ kv = (k, v).
Proof.
  induction m as [|[k' v'] m IH]; simpl.
  - intros [<-|[]]. by right.
  - destruct (decide (k = k')) as [->|]; simpl.
    + intros [<-|H]; [by right|left; by right].
    + intros [<-|H]; [left; by left|]. destruct (IH H); [left; by right|by right].
Qed.

Lemma update_inner_get_ne (m : list (K * V)) k k' fresh op :
  k' <> k -> JsMap.get (Presence.update_inner m k fresh op) k' = JsMap.get m k'.
Proof.
  intros Hne. unfold Presence.update_inner.
  destruct (JsMap.get m k); by apply JsMapFacts.get_set_ne.
Qed.
End MapFacts.

Lemma filter_none {A} (P : A -> Prop) `{forall x, Decision (P x)} (l : list A) :
  (forall x, In x l -> ~ P x) -> filter P l = [].
Proof.
  induction l as [|x l IH]; simpl; intros Hn; [done|].
  rewrite filter_cons_False by (apply Hn; by left). apply IH. intros y Hy. apply Hn. by right.
Qed.

Lemma filter_nil_In {A} (P : A -> Prop) `{forall x, Decision (P x)} (l : list A) x :
  filter P l = [] -> In x l -> ~ P x.
Proof.
  induction l as [|y l IH]; simpl; [tauto|].
  destruct (decide (P y)) as [Hy|Hy].
  - rewrite filter_cons_True by done. discriminate.
  - rewrite filter_cons_False by done. intros Hf [<-|Hin]; [done|by apply IH].
Qed.

Section Keyed.
Context {A B : Type} (g : string * A -> list (string * B)).
Hypothesis g_key : forall bm bc, In bc (g bm) -> bc.1 = bm.1.
Hypothesis g_len : forall bm, length (g bm) <= 1.

Lemma keyed_filter_absent (l : list (string * A)) b :
  b ∉ map fst l -> filter (fun bc => bc.1 = b) (flat_map g l) = [].
Proof.
  intros Hn. apply filter_none. intros bc Hin Hb.
  apply in_flat_map in Hin as [bm [Hbm Hbc]]. apply Hn.
  apply list_elem_of_In, in_map_iff. exists bm. split; [|done]. rewrite <- Hb. symmetry. by apply g_key.
Qed.

Lemma keyed_at_most_one (l : list (string * A)) b :
  NoDup (map fst l) -> length (filter (fun bc => bc.1 = b) (flat_map g l)) <= 1.
Proof.
  induction l as [|bm l IH]; simpl; [lia|].
  intros Hnd. inversion Hnd as [|? ? Hnot Hnd']; subst.
  rewrite filter_app, length_app.
  destruct (decide (bm.1 = b)) as [<-|Hne].
  - rewrite (keyed_filter_absent l bm.1 Hnot). simpl.
    pose proof (length_filter (fun bc => bc.1 = bm.1) (g bm)). pose proof (g_len bm). lia.
  - rewrite (filter_none _ (g bm)); [simpl; by apply IH|].
    intros bc Hbc Hb. apply Hne. rewrite <- Hb. symmetry. by apply g_key.
Qed.
End Keyed.

(** A buffer is a map from user ids to entries of that user. *)
Definition buf_ok (m : list (string * CursorData)) : Prop :=
  NoDup (JsMap.keys m) /\ Forall (fun kv => c_userId kv.2 = kv.1) m.

Definition bufs_ok (p : Presence.State) : Prop :=
  NoDup (JsMap.keys (Presence.cursorBatches p)) /\
  Forall (fun bm => buf_ok bm.2) (Presence.cursorBatches p).

Lemma buf_queue p b' u' dn ac x y b :
  buf (Presence.queueCursorUpdate p b' u' dn ac x y) b =
    if decide (b' = b) then JsMap.set (buf p b) u' (mkCursor u' dn ac x y) else buf p b.
Proof.
  unfold buf, Presence.queueCursorUpdate. simpl.
  destruct (decide (b' = b)) as [->|Hne].
  - by rewrite HandlerProofs.update_inner_get.
  - by rewrite update_inner_get_ne.
Qed.

Lemma queue_all_buf_get qs p b u :
  JsMap.get (buf (queue_all p qs) b) u = last_update_from qs b u (JsMap.get (buf p b) u).
Proof.
  revert p. induction qs as [|[[[[[b' u'] dn] ac] x] y] qs IH]; intros p; [done|].
  unfold queue_all, last_update_from in *. simpl. rewrite IH. f_equal.
  rewrite buf_queue. destruct (decide (b' = b)) as [->|Hne].
  - destruct (decide (u' = u)) as [->|Hu].
    + rewrite bool_decide_true by done. apply JsMapFacts.get_set_eq.
    + rewrite bool_decide_false by tauto. by apply JsMapFacts.get_set_ne.
  - rewrite bool_decide_false by tauto. done.
Qed.

Lemma bufs_ok_queue p b' u' dn ac x y :
  bufs_ok p -> bufs_ok (Presence.queueCursorUpdate p b' u' dn ac x y).
Proof.
  intros [Hnd Hall]. unfold bufs_ok, Presence.queueCursorUpdate. simpl.
  assert (Hb : buf_ok (buf p b')).
  { unfold buf. destruct (JsMap.get _ b') as [m|] eqn:Hg.
    - apply get_In in Hg. rewrite List.Forall_forall in Hall. exact (Hall _ Hg).
    - split; constructor. }
  assert (Hb' : buf_ok (JsMap.set (buf p b') u' (mkCursor u' dn ac x y))).
  { destruct Hb as [Hk Hf]. split; [by apply keys_set_NoDup|].
    rewrite List.Forall_forall in *. intros kv Hin.
    apply set_In in Hin as [Hin| ->]; [by apply Hf|done]. }
  assert (Hui : Presence.update_inner (Presence.cursorBatches p) b' []
                  (fun m => JsMap.set m u' (mkCursor u' dn ac x y)) =
                JsMap.set (Presence.cursorBatches p) b'
                  (JsMap.set (buf p b') u' (mkCursor u' dn ac x y))).
  { unfold Presence.update_inner, buf. by destruct (JsMap.get _ b'). }
  rewrite Hui. split; [by apply keys_set_NoDup|].
  rewrite List.Forall_forall in *. intros bm Hin.
  apply set_In in Hin as [Hin| ->]; [by apply Hall|exact Hb'].
Qed.

Lemma bufs_ok_queue_all qs p : bufs_ok p -> bufs_ok (queue_all p qs).
Proof.
  revert p. induction qs as [|[[[[[b' u'] dn] ac] x] y] qs IH]; intros p Hp; [done|].
  unfold queue_all in *. simpl. apply IH. by apply bufs_ok_queue.
Qed.

Lemma queue_all_clients qs p :
  Presence.clientsByBoard (queue_all p qs) = Presence.clientsByBoard p.
Proof.
  revert p. induction qs as [|[[[[[b' u'] dn] ac] x] y] qs IH]; intros p; [done|].
  unfold queue_all in *. simpl. by rewrite IH.
Qed.

Lemma flush_In p b cs :
  In (b, cs) (Presence.flushCursorBatches p true).1 ->
  exists m, In (b, m) (Presence.cursorBatches p) /\ cs = JsMap.values m /\
            (0 < JsMap.size m)%nat.
Proof.
  simpl. intros Hin. apply in_flat_map in Hin as [[b' m] [Hin Hm]].
  destruct (decide _) as [Hs|]; [|destruct Hm].
  destruct Hm as [[= <- <-]|[]]. eauto.
Qed.

Lemma flush_complete p b m :
  In (b, m) (Presence.cursorBatches p) -> (0 < JsMap.size m)%nat ->
  In (b, JsMap.values m) (Presence.flushCursorBatches p true).1.
Proof.
  simpl. intros Hin Hs. apply in_flat_map. exists (b, m). split; [done|].
  rewrite decide_True by done. by left.
Qed.

Lemma flush_at_most_one p b :
  NoDup (JsMap.keys (Presence.cursorBatches p)) ->
  length (filter (fun bc => bc.1 = b) (Presence.flushCursorBatches p true).1) <= 1.
Proof.
  intros Hnd. simpl. apply keyed_at_most_one; [| |exact Hnd].
  - intros [b' m] bc. simpl. destruct (decide _); [|intros []].
    intros [<-|[]]. done.
  - intros [b' m]. simpl. destruct (decide _); simpl; lia.
Qed.

Lemma flush_cleared p b m :
  JsMap.get (Presence.cursorBatches (Presence.flushCursorBatches p true).2) b = Some m -> m = [].
Proof.
  simpl. intros Hg. apply get_In, in_map_iff in Hg as [[b' cs] [Heq _]].
  destruct (decide _) as [|Hs]; injection Heq as _ <-; [done|].
  destruct cs; [done|]. exfalso. apply Hs. unfold JsMap.size. simpl. lia.
Qed.

(** The values of a buffer: one entry per key, the one [get] finds. *)
Lemma buf_values m :
  buf_ok m ->
  NoDup (map c_userId (JsMap.values m)) /\
  (forall c, In c (JsMap.values m) <-> exists u, JsMap.get m u = Some c).
Proof.
  intros [Hk Hf].
  assert (Hmap : map c_userId (JsMap.values m) = JsMap.keys m).
  { unfold JsMap.values, JsMap.keys. rewrite map_map.
    induction m as [|[k v] m IH]; [done|]. simpl.
    inversion Hf; subst. inversion Hk; subst. f_equal; [done|]. by apply IH. }
  rewrite Hmap. split; [done|]. intros c. split.
  - unfold JsMap.values. intros Hin. apply in_map_iff in Hin as [[k v] [<- Hin]].
    exists k. by apply In_get.
  - intros [u Hg]. apply get_In in Hg. unfold JsMap.values. apply in_map_iff.
    by exists (u, c).
Qed.

(** Messages to [ws] that are [CURSOR_BATCH] for board [b]. *)
Lemma broadcast_batch_count env p b cs ws :
  NoDup (Presence.getBoardClients p b) -> In ws (Presence.getBoardClients p b) ->
  Handlers.isOpen env ws = true ->
  length (filter (fun o => o.1 = ws /\ batch_board o.2 = Some b)
            (Handlers.broadcastCursorBatch env p b cs)) = 1.
Proof.
  unfold Handlers.broadcastCursorBatch, Handlers.broadcastAll.
  generalize (Presence.getBoardClients p b) as cl.
  induction cl as [|c cl IH]; simpl; [tauto|].
  intros Hnd Hin Hopen. inversion Hnd as [|? ? Hnot Hnd']; subst.
  rewrite filter_app, length_app.
  destruct (decide (c = ws)) as [->|Hne].
  - rewrite Hopen. simpl. rewrite filter_cons_True by done. simpl.
    rewrite filter_none; [done|]. intros o Ho [Ho1 _].
    apply in_flat_map in Ho as [c' [Hc' Ho]].
    destruct (Handlers.isOpen env c'); [|destruct Ho].
    destruct Ho as [<-|[]]. simpl in Ho1. subst. apply Hnot. by apply list_elem_of_In.
  - destruct Hin as [->|Hin]; [done|].
    rewrite (filter_none _ (if Handlers.isOpen env c then _ else [])).
    + simpl. by apply IH.
    + intros o Ho [Ho1 _]. destruct (Handlers.isOpen env c); [|destruct Ho].
      destruct Ho as [<-|[]]. simpl in Ho1. congruence.
Qed.

Lemma broadcast_batch_other env p b' cs b ws :
  b' <> b ->
  filter (fun o => o.1 = ws /\ batch_board o.2 = Some b)
    (Handlers.broadcastCursorBatch env p b' cs) = [].
Proof.
  intros Hne. apply filter_none. intros o Ho [_ Hb].
  unfold Handlers.broadcastCursorBatch, Handlers.broadcastAll in Ho.
  apply in_flat_map in Ho as [c [_ Ho]].
  destruct (Handlers.isOpen env c); [|destruct Ho].
  destruct Ho as [<-|[]]. simpl in Hb. congruence.
Qed.

(** A tick on board "B" with clients 1 and 2: twenty moves of "alice",
    then one of "bob". *)
Definition p_tick : Presence.State := Presence.mkState [] [] [("B"%string, [1; 2])] [] [].

Definition qs_tick : list update :=
  map (fun i => ("B"%string, "alice"%string, "Alice"%string, None, Z.of_nat i, 0%Z)) (seq 0 20)
  ++ [("B"%string, "bob"%string, "Bob"%string, None, 5%Z, 5%Z)].
End CursorProofs.

(* ------------------------------------------------------------------ *)
(** ** Snapshot renderer *)

Module RendererProofs.
Import Renderer.

(** The stroke ids named by the delete events of a list of events. *)
Definition deleted_in (l : list DrawEvent) : list string :=
  flat_map (fun e => match ev_type e, ev_payload e with
                     | ETdelete, DeletePayload ids => ids
                     | _, _ => []
                     end) l.

Lemma add_elem (s : list string) y x : x ∈ JsSet.add s y <-> x ∈ s \/ x = y.
Proof.
  unfold JsSet.add. destruct (decide (y ∈ s)) as [Hy|Hy].
  - split; [by left|]. intros [H| ->]; done.
  - rewrite elem_of_app, list_elem_of_singleton. done.
Qed.

Lemma fold_add_elem (ids s : list string) x :
  x ∈ fold_left JsSet.add ids s <-> x ∈ s \/ x ∈ ids.
Proof.
  revert s. induction ids as [|y ids IH]; intros s; simpl.
  - pose proof (not_elem_of_nil x). tauto.
  - rewrite IH, add_elem, elem_of_cons. tauto.
Qed.

Lemma first_pass_index l i d c : (fold_left first_pass_step l (i, (d, c))).1 = (i + length l)%nat.
Proof.
  revert i d c. induction l as [|e l IH]; intros i d c; simpl; [lia|].
  destruct (ev_type e), (ev_payload e); rewrite IH; lia.
Qed.

Lemma first_pass_noclear l i d c :
  Forall (fun e => ev_type e <> ETclear) l ->
  (fold_left first_pass_step l (i, (d, c))).2.2 = c /\
  forall x, x ∈ (fold_left first_pass_step l (i, (d, c))).2.1 <-> x ∈ d \/ x ∈ deleted_in l.
Proof.
  revert i d c. induction l as [|e l IH]; intros i d c Hl.
  - simpl. split; [done|]. intros x. pose proof (not_elem_of_nil x). tauto.
  - inversion Hl as [|? ? He Hl']; subst. cbn [fold_left].
    assert (Hstep : exists d', first_pass_step (i, (d, c)) e = (S i, (d', c)) /\
              forall x, x ∈ d' <-> x ∈ d \/ x ∈ deleted_in [e]).
    { unfold first_pass_step, deleted_in. simpl.
      destruct (ev_type e), (ev_payload e); try congruence;
        try (eexists; split; [reflexivity|]; intros x;
             rewrite ?app_nil_r; pose proof (not_elem_of_nil x); tauto).
      eexists; split; [reflexivity|]. intros x. rewrite fold_add_elem, app_nil_r. tauto. }
    destruct Hstep as (d' & -> & Hd').
    destruct (IH (S i) d' c Hl') as [H1 H2]. split; [exact H1|].
    intros x. rewrite H2, Hd'.
    replace (deleted_in (e :: l)) with (deleted_in [e] ++ deleted_in l)
      by (unfold deleted_in; simpl; by rewrite app_nil_r).
    rewrite elem_of_app. tauto.
Qed.

Lemma bounds_step_renders del bb e :
  bounds_step del bb e = if renders del e then bounds_step [] bb e else bb.
Proof.
  unfold bounds_step, renders.
  destruct (ev_type e), (ev_payload e); try reflexivity;
    (destruct (bool_decide (_ ∈ del)); simpl; [done|];
     rewrite ?bool_decide_false by apply not_elem_of_nil; reflexivity).
Qed.

Lemma bounds_filter del (l : list DrawEvent) bb :
  fold_left (bounds_step del) l bb =
    fold_left (bounds_step []) (filter (fun e => renders del e = true) l) bb.
Proof.
  revert bb. induction l as [|e l IH]; intros bb; simpl; [done|].
  rewrite bounds_step_renders. destruct (renders del e) eqn:Hr.
  - rewrite filter_cons_True by done. simpl. apply IH.
  - rewrite filter_cons_False by congruence. apply IH.
Qed.

Lemma renders_ext d d' e : (forall x, x ∈ d <-> x ∈ d') -> renders d e = renders d' e.
Proof.
  intros H. unfold renders.
  destruct (ev_type e), (ev_payload e); try reflexivity;
    f_equal; apply bool_decide_ext, H.
Qed.

Lemma filter_renders_ext d d' (l : list DrawEvent) :
  (forall x, x ∈ d <-> x ∈ d') ->
  filter (fun e => renders d e = true) l = filter (fun e => renders d' e = true) l.
Proof.
  intros H. induction l as [|e l IH]; [done|].
  rewrite !filter_cons, IH, (renders_ext d d' e H). reflexivity.
Qed.

(** The first pass on events whose suffix after the last clear is [suf]. *)
Lemma first_pass_decomp pre suf :
  (pre = [] \/ exists pre' c, pre = pre' ++ [c] /\ ev_type c = ETclear) ->
  Forall (fun e => ev_type e <> ETclear) suf ->
  exists d lci, first_pass (pre ++ suf) = (d, lci) /\
    (forall x, x ∈ d <-> x ∈ deleted_in suf) /\
    (if (0 <=? lci)%Z then drop (Z.to_nat lci + 1) (pre ++ suf) else pre ++ suf) = suf.
Proof.
  intros Hpre Hsuf. unfold first_pass.
  destruct Hpre as [->|(pre' & c & -> & Hc)].
  - simpl. destruct (first_pass_noclear suf 0 [] (-1)%Z Hsuf) as [H1 H2].
    destruct (fold_left first_pass_step suf (0%nat, ([], (-1)%Z))) as [i [d lci]].
    simpl in *. exists d, lci. split; [done|]. split.
    + intros x. rewrite H2. pose proof (not_elem_of_nil x). tauto.
    + by subst lci.
  - rewrite <- app_assoc. simpl. rewrite fold_left_app.
    pose proof (first_pass_index pre' 0 [] (-1)%Z) as Hi.
    destruct (fold_left first_pass_step pre' (0%nat, ([], (-1)%Z))) as [i [d0 c0]].
    simpl in Hi. subst i. cbn [fold_left].
    assert (Hlast : forall st, first_pass_step st c = (S st.1, ([], Z.of_nat st.1))).
    { intros [i [d1 c1]]. unfold first_pass_step. rewrite Hc. by destruct (ev_payload c). }
    rewrite Hlast. cbn [fst snd].
    destruct (first_pass_noclear suf (S (length pre')) [] (Z.of_nat (length pre')) Hsuf)
      as [H1 H2].
    destruct (fold_left first_pass_step suf (S (length pre'), ([], Z.of_nat (length pre'))))
      as [i [d lci]].
    simpl in *. exists d, lci. split; [done|]. split.
    + intros x. rewrite H2. pose proof (not_elem_of_nil x). tauto.
    + subst lci. rewrite (proj2 (Z.leb_le 0 _)) by lia.
      replace (pre' ++ c :: suf) with ((pre' ++ [c]) ++ suf)
        by (rewrite <- app_assoc; reflexivity).
      replace (Z.to_nat (Z.of_nat (length pre')) + 1)%nat with (length (pre' ++ [c]))
        by (rewrite length_app; simpl; lia).
      apply drop_app_length.
Qed.

(** A board whose history is a stroke, a clear, two strokes and a delete
    of the second of them. *)
Definition stroke_ev (sid : string) (n : nat) (pts : list (Q * Q)) : DrawEvent :=
  mkDrawEvent "B" n ETstroke "alice" 0 (StrokePayload sid "#000000" 2 None pts).

Definition pre_r : list DrawEvent :=
  [stroke_ev "s0" 1 [(0, 0)%Q]; mkDrawEvent "B" 2 ETclear "alice" 0 ClearPayload].

Definition suf_r : list DrawEvent :=
  [stroke_ev "s1" 3 [(10, 20)%Q; (30, 40)%Q]; stroke_ev "s2" 4 [(500, 500)%Q];
   mkDrawEvent "B" 5 ETdelete "alice" 0 (DeletePayload ["s2"])].
End RendererProofs.

(* ------------------------------------------------------------------ *)
(** ** More of the presence manager *)

Module PresenceMore.
Import Presence.

Section Maps.
Context {K V : Type} `{EqDecision K}.

Lemma get_delete_eq (m : list (K * V)) k : JsMap.get (JsMap.delete m k) k = None.
Proof.
  unfold JsMap.delete. induction m as [|[k' v] m IH]; [done|].
  rewrite filter_cons. case_decide as H; simpl in *; [|exact IH].
  rewrite decide_False by congruence. exact IH.
Qed.

Lemma get_delete_ne (m : list (K * V)) k k' :
  k' <> k -> JsMap.get (JsMap.delete m k) k' = JsMap.get m k'.
Proof.
  intros Hne. unfold JsMap.delete. induction m as [|[k0 v] m IH]; [done|].
  rewrite filter_cons. case_decide as H; simpl in *.
  - destruct (decide (k' = k0)); [done|exact IH].
  - destruct (decide (k' = k0)); [congruence|exact IH].
Qed.

Lemma In_delete (m : list (K * V)) k kv : In kv (JsMap.delete m k) -> In kv m.
Proof.
  unfold JsMap.delete. rewrite <- !list_elem_of_In, list_elem_of_filter. tauto.
Qed.

Lemma set_nonnil (m : list (K * V)) k v : JsMap.set m k v <> [].
Proof. destruct m as [|[k' v'] m]; simpl; [done|]. by destruct (decide (k = k')). Qed.

Lemma In_update_inner (m : list (K * V)) k fresh op kv :
  In kv (update_inner m k fresh op) -> In kv m \/ exists v, kv = (k, op v).
Proof.
  unfold update_inner. destruct (JsMap.get m k);
    intros H; destruct (CursorProofs.set_In _ _ _ _ H) as [?| ->]; eauto.
Qed.
End Maps.

Lemma add_nonnil (s : list conn) ws : JsSet.add s ws <> [].
Proof.
  unfold JsSet.add. destruct (decide (ws ∈ s)) as [H|H].
  - intros ->. by apply not_elem_of_nil in H.
  - by destruct s.
Qed.

Lemma JsSet_delete_elem (s : list conn) x y : x ∈ JsSet.delete s y <-> x ∈ s /\ x <> y.
Proof. unfold JsSet.delete. rewrite list_elem_of_filter. tauto. Qed.

(** The operations of the presence manager, one call each. *)
Inductive op_step : State -> State -> Prop :=
  | os_join p ws b identity now : op_step p (joinBoard p ws b identity now).2
  | os_leave p ws : op_step p (leaveBoard p ws).2
  | os_cursor p ws x y now : op_step p (updateCursor p ws x y now).2
  | os_queue p b u dn ac x y : op_step p (queueCursorUpdate p b u dn ac x y)
  | os_flush p hb : op_step p (flushCursorBatches p hb).2.

(** No board keeps an empty client set or an empty presence map. *)
Definition rooms_nonempty (p : State) : Prop :=
  (forall b s, In (b, s) (clientsByBoard p) -> s <> []) /\
  (forall b m, In (b, m) (presenceByBoard p) -> m <> []).

Lemma rooms_nonempty_step p p' : op_step p p' -> rooms_nonempty p -> rooms_nonempty p'.
Proof.
  intros Hs [Hc Hp]. destruct Hs as [p ws b identity now|p ws|p ws x y now|p b u dn ac x y|p hb].
  - split; simpl.
    + intros b' s Hin. destruct (In_update_inner _ _ _ _ _ Hin) as [H|[v [= -> ->]]];
        [exact (Hc _ _ H)|apply add_nonnil].
    + intros b' m Hin. destruct (In_update_inner _ _ _ _ _ Hin) as [H|[v [= -> ->]]];
        [exact (Hp _ _ H)|apply set_nonnil].
  - unfold leaveBoard.
    destruct (JsMap.get (connectionToUser p) ws) as [identity|],
             (JsMap.get (connectionToBoard p) ws) as [b|]; try (split; assumption).
    destruct (decide (b = "")); [split; assumption|]. split; simpl.
    + destruct (JsMap.get (clientsByBoard p) b) as [c|]; [|exact Hc].
      destruct (decide (length (JsSet.delete c ws) = 0)) as [Hz|Hz].
      * intros b' s Hin. exact (Hc _ _ (In_delete _ _ _ Hin)).
      * intros b' s Hin. destruct (CursorProofs.set_In _ _ _ _ Hin) as [H|[= -> ->]];
          [exact (Hc _ _ H)|]. intros Hn. apply Hz. by rewrite Hn.
    + destruct (JsMap.get (presenceByBoard p) b) as [m|]; [|exact Hp].
      destruct (decide (JsMap.size (JsMap.delete m (userId identity)) = 0)) as [Hz|Hz].
      * intros b' s Hin. exact (Hp _ _ (In_delete _ _ _ Hin)).
      * intros b' s Hin. destruct (CursorProofs.set_In _ _ _ _ Hin) as [H|[= -> ->]];
          [exact (Hp _ _ H)|]. intros Hn. apply Hz. unfold JsMap.size. by rewrite Hn.
  - unfold updateCursor.
    destruct (JsMap.get (connectionToUser p) ws) as [identity|],
             (JsMap.get (connectionToBoard p) ws) as [b|]; try (split; assumption).
    destruct (decide (b = "")); [split; assumption|]. split; simpl; [exact Hc|].
    destruct (JsMap.get (presenceByBoard p) b) as [m|]; [|exact Hp].
    destruct (JsMap.get m (userId identity)) as [pr|]; [|exact Hp].
    intros b' s Hin. destruct (CursorProofs.set_In _ _ _ _ Hin) as [H|[= -> ->]];
      [exact (Hp _ _ H)|apply set_nonnil].
  - split; assumption.
  - unfold flushCursorBatches. destruct hb; split; assumption.
Qed.

Lemma rooms_nonempty_reachable p : rtc op_step empty p -> rooms_nonempty p.
Proof.
  intros Hr. assert (H0 : rooms_nonempty empty) by (split; simpl; tauto).
  revert H0. induction Hr as [|x y z Hxy _ IH]; [done|].
  intros H. apply IH. exact (rooms_nonempty_step _ _ Hxy H).
Qed.

Lemma cursor_keys_step p p' b :
  op_step p p' -> b ∈ JsMap.keys (cursorBatches p) -> b ∈ JsMap.keys (cursorBatches p').
Proof.
  intros Hs Hb. destruct Hs as [p ws b' identity now|p ws|p ws x y now|p b' u dn ac x y|p hb].
  - exact Hb.
  - unfold leaveBoard.
    destruct (JsMap.get (connectionToUser p) ws), (JsMap.get (connectionToBoard p) ws) as [b'|];
      try exact Hb.
    destruct (decide (b' = "")); exact Hb.
  - unfold updateCursor.
    destruct (JsMap.get (connectionToUser p) ws), (JsMap.get (connectionToBoard p) ws) as [b'|];
      try exact Hb.
    destruct (decide (b' = "")); exact Hb.
  - simpl. unfold update_inner.
    destruct (JsMap.get (cursorBatches p) b'); rewrite CursorProofs.keys_set;
      (destruct (JsMap.get (cursorBatches p) b'); [exact Hb|]);
      apply elem_of_app; by left.
  - unfold flushCursorBatches. destruct hb; simpl; [|exact Hb].
    unfold JsMap.keys in *. rewrite map_map.
    erewrite map_ext; [exact Hb|]. intros [b0 c]. reflexivity.
Qed.


Lemma getBoardClients_join_ne p ws b b' identity now :
  b' <> b ->
  getBoardClients (joinBoard p ws b identity now).2 b' = getBoardClients p b'.
Proof.
  intros Hne. unfold getBoardClients. simpl. by rewrite CursorProofs.update_inner_get_ne.
Qed.

(** What [leaveBoard] does to the client set of a board other than the
    connection's own. *)
Lemma leave_clients_other p ws b b' identity :
  JsMap.get (connectionToUser p) ws = Some identity ->
  JsMap.get (connectionToBoard p) ws = Some b -> b <> "" -> b' <> b ->
  getBoardClients (leaveBoard p ws).2 b' = getBoardClients p b'.
Proof.
  intros Hu Hb Hne Hb'. unfold leaveBoard. rewrite Hu, Hb, decide_False by done.
  unfold getBoardClients. simpl.
  destruct (JsMap.get (clientsByBoard p) b) as [c|]; [|done].
  case_decide.
  - by rewrite get_delete_ne.
  - by rewrite JsMapFacts.get_set_ne.
Qed.

Lemma leave_clients_own p ws b identity :
  JsMap.get (connectionToUser p) ws = Some identity ->
  JsMap.get (connectionToBoard p) ws = Some b -> b <> "" ->
  forall w, w ∈ getBoardClients (leaveBoard p ws).2 b <-> w ∈ getBoardClients p b /\ w <> ws.
Proof.
  intros Hu Hb Hne w. unfold leaveBoard. rewrite Hu, Hb, decide_False by done.
  unfold getBoardClients. simpl.
  destruct (JsMap.get (clientsByBoard p) b) as [c|] eqn:Hc.
  - case_decide as Hz.
    + rewrite get_delete_eq. rewrite <- JsSet_delete_elem.
      destruct (JsSet.delete c ws); [|discriminate]. split; intros H; by apply not_elem_of_nil in H.
    + rewrite JsMapFacts.get_set_eq. apply JsSet_delete_elem.
  - rewrite Hc. split; [intros H; by apply not_elem_of_nil in H|intros [H _]; by apply not_elem_of_nil in H].
Qed.

Lemma leave_presence_own p ws b identity :
  JsMap.get (connectionToUser p) ws = Some identity ->
  JsMap.get (connectionToBoard p) ws = Some b -> b <> "" ->
  forall m, JsMap.get (presenceByBoard (leaveBoard p ws).2) b = Some m ->
  JsMap.get m (userId identity) = None /\
  (forall u, u <> userId identity -> exists m0, JsMap.get (presenceByBoard p) b = Some m0 /\
                                              JsMap.get m u = JsMap.get m0 u).
Proof.
  intros Hu Hb Hne m. unfold leaveBoard. rewrite Hu, Hb, decide_False by done. simpl.
  destruct (JsMap.get (presenceByBoard p) b) as [m0|] eqn:Hm0.
  - case_decide as Hz.
    + by rewrite get_delete_eq.
    + rewrite JsMapFacts.get_set_eq. intros [= <-]. split; [apply get_delete_eq|].
      intros u Hne'. exists m0. split; [done|]. by apply get_delete_ne.
  - rewrite Hm0. discriminate.
Qed.

End PresenceMore.

(** Claim C5, as stated: a CURSOR_MOVE from a connection that has not
    sent HELLO gets an [ERROR{NOT_JOINED}].  On the fresh server it gets
    no reply at all: [handleCursorMove] ignores a non-joined sender. *)
Lemma C5_cursor_move_before_hello_ignored :
  (Handlers.handleCursorMove HandlerProofs.env_open HandlerProofs.server0 1 5 5 0).2 = [] /\
  ~ In (1, Handlers.ERROR Handlers.NOT_JOINED "Must send HELLO first")
       (Handlers.handleCursorMove HandlerProofs.env_open HandlerProofs.server0 1 5 5 0).2.
Proof. split; [reflexivity|]. simpl. tauto. Qed.

(** Claim C5, amended: for a connection with no identity (no completed
    HELLO) and an open socket, a DRAW_EVENT that passes the draw rate
    limiter is answered with exactly [ERROR{NOT_JOINED}] and one that does
    not is dropped without reply; a CURSOR_MOVE gets no reply at all. *)
Theorem C5_not_joined_replies env st ws etype payload x y now dbUp :
  Handlers.isOpen env ws = true ->
  JsMap.get (Presence.connectionToUser (Handlers.pres st)) ws = None ->
  (Handlers.handleDrawEvent env st ws etype payload now dbUp).2 =
    (if (RateLimiter.checkDrawLimit (Handlers.drawBuckets st) ws now).1
     then [(ws, Handlers.ERROR Handlers.NOT_JOINED "Must send HELLO first")]
     else []) /\
  (Handlers.handleCursorMove env st ws x y now).2 = [].
Proof.
  intros Hopen Hnone. split.
  - unfold Handlers.handleDrawEvent.
    destruct (RateLimiter.checkDrawLimit _ ws now) as [[|] dk]; simpl; [|done].
    rewrite Hnone. destruct (JsMap.get (Presence.connectionToBoard _) ws);
      unfold Handlers.send; by rewrite Hopen.
  - unfold Handlers.handleCursorMove.
    destruct (RateLimiter.checkCursorLimit _ ws now) as [[|] ck]; simpl; [|done].
    unfold Presence.updateCursor. simpl. rewrite Hnone. done.
Qed.

Lemma C5_not_joined_replies_witness :
  Handlers.isOpen HandlerProofs.env_open 1 = true /\
  JsMap.get (Presence.connectionToUser (Handlers.pres HandlerProofs.server0)) 1 = None /\
  (Handlers.handleDrawEvent HandlerProofs.env_open HandlerProofs.server0 1 ETclear ClearPayload 0 true).2 =
    [(1, Handlers.ERROR Handlers.NOT_JOINED "Must send HELLO first")].
Proof.
  split; [reflexivity|]. split; [reflexivity|].
  exact (proj1 (C5_not_joined_replies HandlerProofs.env_open HandlerProofs.server0 1
                  ETclear ClearPayload 0 0 0 true eq_refl eq_refl)).
Defined.

(** Claim C2, as stated: when [appendEvent] throws, the board's counter
    is rolled back.  With the database down, a DRAW_EVENT of a joined
    connection moves the counter of "B" from 1 to 2: [sequenceEvent]
    advances it before the insert and never restores it. *)
Lemma C2_counter_not_rolled_back :
  JsMap.get (Handlers.nextSeq HandlerProofs.server_joined) "B" = Some 1 /\
  JsMap.get (Handlers.nextSeq (Handlers.handleDrawEvent HandlerProofs.env_open
      HandlerProofs.server_joined 1 ETclear ClearPayload 0 false).1) "B" = Some 2 /\
  (Handlers.handleDrawEvent HandlerProofs.env_open
      HandlerProofs.server_joined 1 ETclear ClearPayload 0 false).2 =
    [(1, Handlers.ERROR Handlers.DRAW_FAILED "Failed to process draw event")].
Proof. split; [reflexivity|]. split; reflexivity. Qed.

(** Claim C2, amended: when the insert of the sequenced event fails, the
    caller (on an open socket) receives exactly one message,
    [ERROR{DRAW_FAILED}], so nothing is fanned out and nothing is stored,
    while the board's counter stays advanced past the reserved seq. *)
Theorem C2_append_failure env st ws b id etype payload now dbUp n :
  Handlers.isOpen env ws = true ->
  JsMap.get (Presence.connectionToBoard (Handlers.pres st)) ws = Some b ->
  b <> ""%string ->
  JsMap.get (Presence.connectionToUser (Handlers.pres st)) ws = Some id ->
  (RateLimiter.checkDrawLimit (Handlers.drawBuckets st) ws now).1 = true ->
  JsMap.get (Handlers.nextSeq (Handlers.initBoardSequence st b)) b = Some n ->
  Db.appendEvent (Handlers.db st) (mkDrawEvent b n etype (userId id) now payload) dbUp = None ->
  (Handlers.handleDrawEvent env st ws etype payload now dbUp).2 =
    [(ws, Handlers.ERROR Handlers.DRAW_FAILED "Failed to process draw event")] /\
  JsMap.get (Handlers.nextSeq (Handlers.handleDrawEvent env st ws etype payload now dbUp).1) b
    = Some (n + 1) /\
  Handlers.db (Handlers.handleDrawEvent env st ws etype payload now dbUp).1 = Handlers.db st.
Proof.
  intros Hopen Hb Hne Hid Hlim Hn Happ.
  unfold Handlers.handleDrawEvent.
  destruct (RateLimiter.checkDrawLimit _ ws now) as [allowed dk]. simpl in Hlim. subst allowed.
  simpl. rewrite Hb, Hid.
  unfold Handlers.truthy. rewrite bool_decide_false by done. simpl.
  rewrite <- (HandlerProofs.initBoardSequence_drawBuckets st dk) in Hn. rewrite Hn.
  simpl. rewrite HandlerProofs.initBoardSequence_db. simpl. rewrite Happ. simpl.
  unfold Handlers.send. rewrite Hopen.
  split; [done|]. split; [apply JsMapFacts.get_set_eq|].
  by rewrite HandlerProofs.initBoardSequence_db.
Qed.

Lemma C2_append_failure_witness :
  (Handlers.handleDrawEvent HandlerProofs.env_open HandlerProofs.server_joined 1
     ETclear ClearPayload 0 false).2 =
    [(1, Handlers.ERROR Handlers.DRAW_FAILED "Failed to process draw event")] /\
  JsMap.get (Handlers.nextSeq (Handlers.handleDrawEvent HandlerProofs.env_open
     HandlerProofs.server_joined 1 ETclear ClearPayload 0 false).1) "B" = Some 2.
Proof.
  destruct (C2_append_failure HandlerProofs.env_open HandlerProofs.server_joined 1 "B"
              HandlerProofs.alice ETclear ClearPayload 0 false 1
              eq_refl eq_refl ltac:(discriminate) eq_refl eq_refl eq_refl eq_refl)
    as [H1 [H2 _]].
  split; [exact H1|exact H2].
Defined.

(** Claim C4: on a HELLO to a private board whose owner is a user id (never
    the empty string), a verified subject that is absent or differs from the
    owner yields exactly one message to the connection, [ACCESS_DENIED] with
    a reason, and leaves the presence state untouched (the connection is in
    no room, no presence entry is made, no [USER_JOIN] is sent); a verified
    subject equal to the owner joins the board's room with a presence entry. *)
Theorem C4_private_board_access env st ws p now uuid anon board :
  Handlers.isOpen env ws = true ->
  Db.getBoard (Handlers.db st) (Handlers.h_boardId p) = Some board ->
  Db.b_isPrivate board = true ->
  Db.b_ownerId board <> Some ""%string ->
  let clerk := Handlers.verifyClerkToken env (Handlers.h_authToken p) in
  let r := Handlers.handleHello env st ws p now uuid anon in
  ((clerk = None \/ clerk <> Db.b_ownerId board) ->
     (exists reason, r.2 = [(ws, Handlers.ACCESS_DENIED (Handlers.h_boardId p) reason)]) /\
     Handlers.pres r.1 = Handlers.pres st) /\
  (clerk <> None -> clerk = Db.b_ownerId board ->
     JsMap.get (Presence.connectionToBoard (Handlers.pres r.1)) ws = Some (Handlers.h_boardId p) /\
     ws ∈ Presence.getBoardClients (Handlers.pres r.1) (Handlers.h_boardId p) /\
     exists pr pe, JsMap.get (Presence.presenceByBoard (Handlers.pres r.1)) (Handlers.h_boardId p)
                     = Some pr /\
                   JsMap.get pr (userId (Handlers.hello_identity env p uuid anon)) = Some pe).
Proof.
  intros Hopen Hb Hpriv Howner clerk r.
  subst r. rewrite (HandlerProofs.handleHello_existing _ _ _ _ _ _ _ _ Hb), Hpriv.
  fold clerk. split.
  - intros Hden. unfold Handlers.send. rewrite Hopen.
    destruct (negb (Handlers.truthy clerk)) eqn:Ht; [split; [eexists; reflexivity|done]|].
    rewrite bool_decide_true; [split; [eexists; reflexivity|done]|].
    destruct Hden as [Hn|Hne]; [|congruence].
    rewrite Hn in Ht. discriminate.
  - intros Hsome Heq.
    assert (Ht : Handlers.truthy clerk = true).
    { destruct clerk as [c|]; [|congruence]. unfold Handlers.truthy.
      rewrite bool_decide_false; [done|]. intros ->. congruence. }
    rewrite Ht. simpl. rewrite bool_decide_false by congruence.
    rewrite HandlerProofs.hello_join_pres.
    destruct (HandlerProofs.joinBoard_joined (Handlers.pres (Handlers.set_db st (Handlers.db st)))
                ws (Handlers.h_boardId p) (Handlers.hello_identity env p uuid anon) now)
      as (H1 & _ & H3 & pr & H4 & H5).
    split; [exact H1|]. split; [exact H3|]. eauto.
Qed.

Lemma C4_private_board_access_witness :
  (exists reason,
     (Handlers.handleHello HandlerProofs.env_clerk HandlerProofs.server_fixture 1
        (HandlerProofs.hello "P" (Some "tokB"%string) None false None) 0 "u" "anon").2 =
       [(1, Handlers.ACCESS_DENIED "P" reason)]) /\
  JsMap.get (Presence.connectionToBoard (Handlers.pres
     (Handlers.handleHello HandlerProofs.env_clerk HandlerProofs.server_fixture 1
        (HandlerProofs.hello "P" (Some "tokA"%string) None false None) 0 "u" "anon").1)) 1
    = Some "P"%string.
Proof.
  split.
  - refine (proj1 (proj1 (C4_private_board_access HandlerProofs.env_clerk
              HandlerProofs.server_fixture 1
              (HandlerProofs.hello "P" (Some "tokB"%string) None false None) 0 "u" "anon"
              (Db.mkBoard "P" None (Some "alice"%string) true)
              eq_refl eq_refl eq_refl ltac:(discriminate)) _)).
    right. vm_compute. discriminate.
  - refine (proj1 (proj2 (C4_private_board_access HandlerProofs.env_clerk
              HandlerProofs.server_fixture 1
              (HandlerProofs.hello "P" (Some "tokA"%string) None false None) 0 "u" "anon"
              (Db.mkBoard "P" None (Some "alice"%string) true)
              eq_refl eq_refl eq_refl ltac:(discriminate)) _ _)).
    + vm_compute. discriminate.
    + vm_compute. reflexivity.
Defined.

(** Claim C10: when the bearer token of a HELLO verifies to a (non-empty)
    subject [c], the identity built for the connection has [userId = c] and
    [isAnonymous = false], whatever [clientId] and [isAnonymous] the client
    sent; its avatar colour is [generateAvatarColor c], a colour of the
    fixed palette; and this identity is the one assigned to the connection
    unless the HELLO is denied (which leaves the presence state unchanged). *)
Theorem C10_verified_identity env p uuid anon c :
  Handlers.verifyClerkToken env (Handlers.h_authToken p) = Some c ->
  c <> ""%string ->
  let idt := Handlers.hello_identity env p uuid anon in
  userId idt = c /\ isAnonymous idt = false /\
  avatarColor idt = Some (Shared.generateAvatarColor c) /\
  In (Shared.generateAvatarColor c) Shared.COLORS /\
  (forall st ws now,
     let r := Handlers.handleHello env st ws p now uuid anon in
     Handlers.pres r.1 = Handlers.pres st \/
     JsMap.get (Presence.connectionToUser (Handlers.pres r.1)) ws = Some idt).
Proof.
  intros Hv Hne idt.
  assert (Ht : Handlers.truthy (Some c) = true).
  { unfold Handlers.truthy. by rewrite bool_decide_false. }
  assert (Hid : idt = mkIdentity c (match Handlers.js_or (Handlers.h_displayName p) (Some anon)
                                     with Some d => d | None => anon end)
                                  false (Some (Shared.generateAvatarColor c))).
  { subst idt. unfold Handlers.hello_identity, Handlers.resolveIdentity.
    rewrite Hv. unfold Handlers.js_or. rewrite !Ht. reflexivity. }
  split; [by rewrite Hid|]. split; [by rewrite Hid|].
  split; [by rewrite Hid|]. split; [apply HandlerProofs.generateAvatarColor_In|].
  intros st ws now r. subst r.
  destruct (HandlerProofs.handleHello_pres_cases env st ws p now uuid anon) as [H|H];
    [by left|right].
  rewrite H. apply HandlerProofs.joinBoard_joined.
Qed.

Lemma C10_verified_identity_witness :
  userId (Handlers.hello_identity HandlerProofs.env_clerk
            (HandlerProofs.hello "B" (Some "tokA"%string) (Some "mallory"%string) true None)
            "u" "anon") = "alice"%string.
Proof.
  exact (proj1 (C10_verified_identity HandlerProofs.env_clerk
           (HandlerProofs.hello "B" (Some "tokA"%string) (Some "mallory"%string) true None)
           "u" "anon" "alice" eq_refl ltac:(discriminate))).
Defined.

(** Claim C3, as stated: a HELLO with [resumeFromSeq] neither positive nor
    absent nor 0 gets all events and no snapshot.  With [resumeFromSeq = -1]
    on board "B", which has a snapshot at seq 1, the reply carries that
    snapshot and only the event after it: the delta test is [> 0] and every
    other value takes the snapshot path. *)
Lemma C3_negative_resume_gets_snapshot :
  In (1, Handlers.SYNC_SNAPSHOT "B" [HandlerProofs.ev "B" 2] 2 false
           (Some (Handlers.mkSnapshotData "img" 1 None None)))
     (Handlers.handleHello HandlerProofs.env_clerk HandlerProofs.server_fixture 1
        (HandlerProofs.hello "B" None None true (Some (-1)%Z)) 0 "u" "anon").2.
Proof. vm_compute. right. left. reflexivity. Qed.

(** Claim C3, amended: every HELLO that is not denied gets a
    [SYNC_SNAPSHOT] reply (on an open socket) with [lastSeq = maxSeq] of the
    board and its events in ascending seq order.  If [resumeFromSeq > 0]:
    [isDelta = true], no snapshot, and the events are exactly the board's
    stored events with seq greater than [resumeFromSeq].  If
    [resumeFromSeq] is absent or [<= 0]: [isDelta = false]; when a snapshot
    exists it is included with its image and seq and the events are exactly
    those with seq greater than the snapshot's seq; otherwise there is no
    snapshot and the events are all of the board's events. *)
Theorem C3_sync_reply env st ws p now uuid anon :
  Handlers.isOpen env ws = true ->
  (forall reason, ~ In (ws, Handlers.ACCESS_DENIED (Handlers.h_boardId p) reason)
                       (Handlers.handleHello env st ws p now uuid anon).2) ->
  let b := Handlers.h_boardId p in
  let d := Handlers.db st in
  exists evs isDelta snap,
    In (ws, Handlers.SYNC_SNAPSHOT b evs (Db.getMaxSeq d b) isDelta snap)
       (Handlers.handleHello env st ws p now uuid anon).2 /\
    Sorted Db.by_seq evs /\
    (forall r, Handlers.h_resumeFromSeq p = Some r -> (0 < r)%Z ->
       isDelta = true /\ snap = None /\
       evs ≡ₚ filter (fun e => ev_boardId e = b /\ (r < Z.of_nat (ev_seq e))%Z)
                     (Db.drawing_events d)) /\
    ((forall r, Handlers.h_resumeFromSeq p = Some r -> (r <= 0)%Z) ->
       isDelta = false /\
       match Db.getSnapshot d b with
       | Some s =>
           (exists sd, snap = Some sd /\ Handlers.sd_imageData sd = Db.s_imageData s /\
                       Handlers.sd_seq sd = Db.s_seq s) /\
           evs ≡ₚ filter (fun e => ev_boardId e = b /\ Db.s_seq s < ev_seq e)
                         (Db.drawing_events d)
       | None =>
           snap = None /\ evs ≡ₚ filter (fun e => ev_boardId e = b) (Db.drawing_events d)
       end).
Proof.
  intros Hopen Hnd b d.
  assert (HIn : In (ws, Handlers.syncSnapshot d b (Handlers.h_resumeFromSeq p))
                   (Handlers.handleHello env st ws p now uuid anon).2).
  { destruct (HandlerProofs.handleHello_cases env st ws p now uuid anon)
      as [[reason Heq] | Heq]; rewrite Heq.
    - exfalso. apply (Hnd reason). rewrite Heq. unfold Handlers.send. rewrite Hopen.
      simpl. by left.
    - pose proof (HandlerProofs.hello_join_sync env
                    (Handlers.set_db st
                       match Db.getBoard (Handlers.db st) (Handlers.h_boardId p) with
                       | Some _ => Handlers.db st
                       | None => Db.ensureBoardExists (Handlers.db st) (Handlers.h_boardId p)
                       end) ws p now uuid anon Hopen) as H.
      simpl in H. destruct (Db.getBoard _ _); [exact H|].
      rewrite HandlerProofs.syncSnapshot_ensure in H. exact H. }
  clear Hnd. unfold Handlers.syncSnapshot in HIn.
  destruct (Handlers.h_resumeFromSeq p) as [r|] eqn:Hres.
  - destruct (0 <? r)%Z eqn:Hr.
    + apply Z.ltb_lt in Hr.
      eexists _, _, _. split; [exact HIn|]. split; [apply HandlerProofs.sorted_by_seq|].
      split.
      * intros r' [= <-] _. split; [done|]. split; [done|]. apply merge_sort_Permutation.
      * intros Hle. specialize (Hle r eq_refl). lia.
    + apply Z.ltb_ge in Hr.
      destruct (Db.getSnapshot d b) as [s|] eqn:Hs.
      * eexists _, _, _. split; [exact HIn|]. split; [apply HandlerProofs.sorted_by_seq|].
        split; [intros r' [= <-] Hpos; lia|].
        intros _. split; [done|]. split; [|apply merge_sort_Permutation].
        eexists. done.
      * eexists _, _, _. split; [exact HIn|]. split; [apply HandlerProofs.sorted_by_seq|].
        split; [intros r' [= <-] Hpos; lia|].
        intros _. split; [done|]. split; [done|apply merge_sort_Permutation].
  - destruct (Db.getSnapshot d b) as [s|] eqn:Hs.
    + eexists _, _, _. split; [exact HIn|]. split; [apply HandlerProofs.sorted_by_seq|].
      split; [intros r' [=]|].
      intros _. split; [done|]. split; [|apply merge_sort_Permutation].
      eexists. done.
    + eexists _, _, _. split; [exact HIn|]. split; [apply HandlerProofs.sorted_by_seq|].
      split; [intros r' [=]|].
      intros _. split; [done|]. split; [done|apply merge_sort_Permutation].
Qed.

Lemma C3_sync_reply_witness :
  exists evs isDelta snap,
    In (1, Handlers.SYNC_SNAPSHOT "B" evs 2 isDelta snap)
       (Handlers.handleHello HandlerProofs.env_clerk HandlerProofs.server_fixture 1
          (HandlerProofs.hello "B" None None true (Some 1%Z)) 0 "u" "anon").2.
Proof.
  destruct (C3_sync_reply HandlerProofs.env_clerk HandlerProofs.server_fixture 1
              (HandlerProofs.hello "B" None None true (Some 1%Z)) 0 "u" "anon" eq_refl)
    as (evs & isDelta & snap & HIn & _).
  - intros reason. vm_compute. intros [H|[H|[H|H]]]; try discriminate; contradiction.
  - exists evs, isDelta, snap. exact HIn.
Defined.

(** Claim C8: the token bucket.  From no buckets and with non-decreasing
    clock readings, at most capacity + rate calls of one connection are
    admitted at times inside any window [[a, a + 1000]] ms: 30 + 60 for
    draw, 60 + 120 for cursor.  A new bucket starts full; a call refills
    the bucket by [rate * elapsed / 1000] capped at capacity, and is admitted
    exactly when the refilled bucket holds at least one token, which it
    consumes; an over-limit DRAW_EVENT or CURSOR_MOVE gets no reply. *)
Theorem C8_rate_limit_budget :
  (forall calls ws a,
     Sorted Z.le (map snd calls) ->
     (RateLimiter.admitted_in_window ws a
        (RateLimiter.limiter_run [] RateLimiter.DRAW_REFILL_RATE
           RateLimiter.DRAW_BUCKET_SIZE calls) <= 90)%nat /\
     (RateLimiter.admitted_in_window ws a
        (RateLimiter.limiter_run [] RateLimiter.CURSOR_REFILL_RATE
           RateLimiter.CURSOR_BUCKET_SIZE calls) <= 180)%nat) /\
  (forall buckets ws cap now, JsMap.get buckets ws = None ->
     RateLimiter.getBucket buckets ws cap now = RateLimiter.mkBucket cap now) /\
  (forall buckets ws rate cap now,
     let b := RateLimiter.getBucket buckets ws cap now in
     let b' := RateLimiter.refillBucket b rate cap now in
     RateLimiter.tokens b' =
       Qmin cap (RateLimiter.tokens b + inject_Z (now - RateLimiter.lastRefill b)%Z / 1000 * rate) /\
     ((RateLimiter.tryConsume buckets ws rate cap now).1 = true <-> (1 <= RateLimiter.tokens b')%Q) /\
     ((RateLimiter.tryConsume buckets ws rate cap now).1 = true ->
        JsMap.get (RateLimiter.tryConsume buckets ws rate cap now).2 ws =
          Some (RateLimiter.mkBucket (RateLimiter.tokens b' - 1) now))) /\
  (forall env st ws etype payload x y now dbUp,
     ((RateLimiter.checkDrawLimit (Handlers.drawBuckets st) ws now).1 = false ->
        (Handlers.handleDrawEvent env st ws etype payload now dbUp).2 = []) /\
     ((RateLimiter.checkCursorLimit (Handlers.cursorBuckets st) ws now).1 = false ->
        (Handlers.handleCursorMove env st ws x y now).2 = [])).
Proof.
  split; [|split; [|split]].
  - intros calls ws a Hs. split.
    + apply (RateLimiterProofs.budget_nat RateLimiter.DRAW_REFILL_RATE RateLimiter.DRAW_BUCKET_SIZE
               ltac:(unfold RateLimiter.DRAW_REFILL_RATE; lra)
               ltac:(unfold RateLimiter.DRAW_BUCKET_SIZE; lra)); [|exact Hs].
      unfold RateLimiter.DRAW_REFILL_RATE, RateLimiter.DRAW_BUCKET_SIZE. reflexivity.
    + apply (RateLimiterProofs.budget_nat RateLimiter.CURSOR_REFILL_RATE RateLimiter.CURSOR_BUCKET_SIZE
               ltac:(unfold RateLimiter.CURSOR_REFILL_RATE; lra)
               ltac:(unfold RateLimiter.CURSOR_BUCKET_SIZE; lra)); [|exact Hs].
      unfold RateLimiter.CURSOR_REFILL_RATE, RateLimiter.CURSOR_BUCKET_SIZE. reflexivity.
  - intros buckets ws cap now Hn. unfold RateLimiter.getBucket. by rewrite Hn.
  - intros buckets ws rate cap now b b'. split; [reflexivity|].
    unfold RateLimiter.tryConsume. fold b b'. split.
    + destruct (Qle_bool 1 (RateLimiter.tokens b')) eqn:Hq; simpl.
      * split; [intros _; by apply Qle_bool_iff|done].
      * split; [done|]. intros H. apply (proj2 (Qle_bool_iff 1 (RateLimiter.tokens b'))) in H. congruence.
    + destruct (Qle_bool 1 (RateLimiter.tokens b')); [|done]. intros _. simpl.
      apply JsMapFacts.get_set_eq.
  - intros env st ws etype payload x y now dbUp. split.
    + intros Hf. unfold Handlers.handleDrawEvent.
      destruct (RateLimiter.checkDrawLimit _ ws now) as [allowed dk]. simpl in Hf.
      by subst allowed.
    + intros Hf. unfold Handlers.handleCursorMove.
      destruct (RateLimiter.checkCursorLimit _ ws now) as [allowed ck]. simpl in Hf.
      by subst allowed.
Qed.

Lemma C8_rate_limit_budget_witness :
  (RateLimiter.admitted_in_window 1 0%Z
     (RateLimiter.limiter_run [] RateLimiter.DRAW_REFILL_RATE RateLimiter.DRAW_BUCKET_SIZE
        [(1, 0%Z); (1, 10%Z); (1, 500%Z)]) <= 90)%nat.
Proof.
  exact (proj1 (proj1 C8_rate_limit_budget [(1, 0%Z); (1, 10%Z); (1, 500%Z)] 1 0%Z
           ltac:(repeat constructor; simpl; lia))).
Defined.

(** Claim C9, as stated: join then leave restores the board's presence map
    even when another live connection of the same user already held an
    entry.  Connection 1 of "alice" is on board "B"; connection 2 of
    "alice" joins and leaves: the map of "B" had alice's entry before and
    is gone afterwards, since [leaveBoard] deletes by [userId]. *)
Lemma C9_rejoin_same_user_leave_drops_entry :
  let st0 := (Presence.joinBoard Presence.empty 1 "B" HandlerProofs.alice 0).2 in
  let st1 := (Presence.joinBoard st0 2 "B" HandlerProofs.alice 5).2 in
  JsMap.get (Presence.presenceByBoard st0) "B"%string <> None /\
  JsMap.get (Presence.presenceByBoard (Presence.leaveBoard st1 2).2) "B"%string = None.
Proof. split; [vm_compute; discriminate|reflexivity]. Qed.

(** Claim C9, amended: for a non-empty board id whose presence map is not
    an empty map left in place (which the code never does), [joinBoard]
    followed by [leaveBoard] on the same connection
    - gives back exactly the board's presence map from before the join,
      and so the same presence list, when that map had no entry for the
      joining user;
    - deletes the user's entry, so the map is not restored, when that map
      already had an entry for the user (set by another connection). *)
Theorem C9_join_leave_restores st ws b identity now :
  b <> ""%string ->
  JsMap.get (Presence.presenceByBoard st) b <> Some [] ->
  let st' := (Presence.leaveBoard (Presence.joinBoard st ws b identity now).2 ws).2 in
  ((forall m, JsMap.get (Presence.presenceByBoard st) b = Some m ->
              JsMap.get m (userId identity) = None) ->
   JsMap.get (Presence.presenceByBoard st') b = JsMap.get (Presence.presenceByBoard st) b /\
   Presence.getBoardPresence st' b = Presence.getBoardPresence st b) /\
  (forall m p, JsMap.get (Presence.presenceByBoard st) b = Some m ->
     JsMap.get m (userId identity) = Some p ->
     JsMap.get (Presence.presenceByBoard st') b <> Some m /\
     forall m', JsMap.get (Presence.presenceByBoard st') b = Some m' ->
                JsMap.get m' (userId identity) = None).
Proof.
  intros Hb Hne st'.
  assert (Hgone : forall m', JsMap.get (Presence.presenceByBoard st') b = Some m' ->
                             JsMap.get m' (userId identity) = None).
  { destruct (HandlerProofs.joinBoard_joined st ws b identity now) as (Hcb & Hcu & _).
    intros m' Hm'. exact (proj1 (PresenceMore.leave_presence_own _ ws b identity Hcu Hcb Hb m' Hm')). }
  split.
  2:{ intros m p Hm Hp. split; [|exact Hgone].
      intros Heq. specialize (Hgone m Heq). congruence. }
  intros Hu.
  enough (H : JsMap.get (Presence.presenceByBoard st') b =
              JsMap.get (Presence.presenceByBoard st) b).
  { split; [exact H|]. unfold Presence.getBoardPresence. by rewrite H. }
  clear Hgone. subst st'. unfold Presence.leaveBoard. simpl.
  rewrite !JsMapFacts.get_set_eq. rewrite decide_False by done. simpl.
  rewrite HandlerProofs.update_inner_get.
  destruct (JsMap.get (Presence.presenceByBoard st) b) as [m|] eqn:Hm.
  - specialize (Hu m eq_refl).
    rewrite (JsMapFacts.get_None_set _ _ _ Hu).
    rewrite JsMapFacts.delete_app_last by (by apply JsMapFacts.get_None_not_in_keys).
    rewrite decide_False.
    + unfold Presence.update_inner. rewrite Hm.
      rewrite !JsMapFacts.get_set_eq. reflexivity.
    + unfold JsMap.size. destruct m; [congruence|simpl; lia].
  - simpl. rewrite decide_True; [|unfold JsMap.size, JsMap.delete;
      rewrite filter_cons_False by (simpl; tauto); reflexivity].
    unfold Presence.update_inner. rewrite Hm.
    rewrite (JsMapFacts.get_None_set _ _ _ Hm).
    rewrite JsMapFacts.delete_app_last by (by apply JsMapFacts.get_None_not_in_keys).
    exact Hm.
Qed.

(** Board "B" holds "bob" (connection 1).  Connection 2 of "alice" joins
    and leaves: "B"'s map is bob's again.  Then, with "alice" also on "B"
    through connection 3, connection 2 of "alice" joins and leaves: alice's
    entry is gone and bob's map is not restored. *)
Lemma C9_join_leave_restores_witness :
  let bob := mkIdentity "bob" "Bob" false None in
  let st0 := (Presence.joinBoard Presence.empty 1 "B" bob 0).2 in
  let st1 := (Presence.joinBoard st0 3 "B" HandlerProofs.alice 0).2 in
  let m1 := match JsMap.get (Presence.presenceByBoard st1) "B"%string with
            | Some m => m | None => [] end in
  let p1 := match JsMap.get m1 "alice"%string with
            | Some p => p | None => mkPresence "" "" "" false None None 0 end in
  (JsMap.get (Presence.presenceByBoard
      (Presence.leaveBoard (Presence.joinBoard st0 2 "B" HandlerProofs.alice 5).2 2).2) "B"%string
     = JsMap.get (Presence.presenceByBoard st0) "B"%string /\
   Presence.getBoardPresence
      (Presence.leaveBoard (Presence.joinBoard st0 2 "B" HandlerProofs.alice 5).2 2).2 "B"
     = Presence.getBoardPresence st0 "B") /\
  (JsMap.get (Presence.presenceByBoard
      (Presence.leaveBoard (Presence.joinBoard st1 2 "B" HandlerProofs.alice 5).2 2).2) "B"%string
     <> Some m1 /\
   forall m', JsMap.get (Presence.presenceByBoard
      (Presence.leaveBoard (Presence.joinBoard st1 2 "B" HandlerProofs.alice 5).2 2).2) "B"%string
      = Some m' -> JsMap.get m' "alice"%string = None).
Proof.
  intros bob st0 st1 m1 p1. split.
  - apply (proj1 (C9_join_leave_restores st0 2 "B" HandlerProofs.alice 5
                    ltac:(discriminate) ltac:(vm_compute; discriminate))).
    intros m Hm. vm_compute in Hm. injection Hm as <-. reflexivity.
  - apply (proj2 (C9_join_leave_restores st1 2 "B" HandlerProofs.alice 5
                    ltac:(discriminate) ltac:(vm_compute; discriminate)) m1 p1);
      vm_compute; reflexivity.
Defined.

(** Claim C7: take a tick that starts with every cursor buffer empty (as
    the previous flush leaves them) and queues the updates [qs].  The flush
    then emits at most one batch per board.  A board's batch has exactly
    one entry per user who moved on that board during the tick, and that
    entry is the user's last submitted one.  Every board with a pending
    entry gets a batch, and afterwards every buffer is empty.  In the
    [cursorTick] broadcast, each open peer of such a board, listed once in
    its client set, gets exactly one [CURSOR_BATCH] for the board. *)
Theorem C7_cursor_batching env p qs :
  NoDup (JsMap.keys (Presence.cursorBatches p)) ->
  Forall (fun bm => bm.2 = []) (Presence.cursorBatches p) ->
  let p1 := CursorTick.queue_all p qs in
  let batches := (Presence.flushCursorBatches p1 true).1 in
  let p2 := (Presence.flushCursorBatches p1 true).2 in
  (forall b, length (filter (fun bc => bc.1 = b) batches) <= 1) /\
  (forall b cs, In (b, cs) batches ->
     NoDup (map c_userId cs) /\
     (forall c, In c cs <-> exists u, CursorTick.last_update qs b u = Some c)) /\
  (forall b u c, CursorTick.last_update qs b u = Some c -> exists cs, In (b, cs) batches) /\
  (forall b m, JsMap.get (Presence.cursorBatches p2) b = Some m -> m = []) /\
  (forall b cs ws, In (b, cs) batches ->
     NoDup (Presence.getBoardClients p b) -> In ws (Presence.getBoardClients p b) ->
     Handlers.isOpen env ws = true ->
     length (filter (fun o => o.1 = ws /\ CursorTick.batch_board o.2 = Some b)
               (Handlers.cursorTick env p1).1) = 1).
Proof.
  intros Hnd Hempty p1 batches p2.
  assert (Hok : CursorProofs.bufs_ok p).
  { split; [exact Hnd|]. eapply Forall_impl; [exact Hempty|].
    intros bm ->. split; constructor. }
  pose proof (CursorProofs.bufs_ok_queue_all qs p Hok) as [Hnd1 Hall1]. fold p1 in Hnd1, Hall1.
  assert (Hlast : forall b u, JsMap.get (CursorTick.buf p1 b) u = CursorTick.last_update qs b u).
  { intros b u. subst p1. rewrite CursorProofs.queue_all_buf_get.
    unfold CursorTick.last_update. f_equal. unfold CursorTick.buf.
    destruct (JsMap.get (Presence.cursorBatches p) b) as [m|] eqn:Hg; [|done].
    apply CursorProofs.get_In in Hg. rewrite List.Forall_forall in Hempty.
    specialize (Hempty _ Hg). simpl in Hempty. by subst m. }
  split; [|split; [|split; [|split]]].
  - intros b. by apply CursorProofs.flush_at_most_one.
  - intros b cs Hin. apply CursorProofs.flush_In in Hin as (m & Hin & -> & _).
    assert (Hbuf : CursorTick.buf p1 b = m).
    { unfold CursorTick.buf. by rewrite (CursorProofs.In_get _ _ _ Hnd1 Hin). }
    rewrite List.Forall_forall in Hall1.
    destruct (CursorProofs.buf_values m (Hall1 _ Hin)) as [Hu Hc].
    split; [exact Hu|]. intros c. rewrite Hc.
    split; intros [u Hg]; exists u; rewrite <- Hlast, Hbuf in *; exact Hg.
  - intros b u c Hl. rewrite <- Hlast in Hl. unfold CursorTick.buf in Hl.
    destruct (JsMap.get (Presence.cursorBatches p1) b) as [m|] eqn:Hg; [|discriminate].
    exists (JsMap.values m). apply CursorProofs.flush_complete.
    + by apply CursorProofs.get_In.
    + destruct m; [discriminate|]. unfold JsMap.size. simpl. lia.
  - intros b m. apply CursorProofs.flush_cleared.
  - intros b cs ws Hin Hcl Hws Hopen.
    assert (Hclients : Presence.getBoardClients p1 b = Presence.getBoardClients p b).
    { unfold Presence.getBoardClients. subst p1. by rewrite CursorProofs.queue_all_clients. }
    pose proof (CursorProofs.flush_at_most_one p1 b Hnd1) as Hle.
    unfold batches in Hin. unfold Handlers.cursorTick.
    destruct (Presence.flushCursorBatches p1 true) as [bs p'] eqn:Hf. simpl in Hin, Hle |- *.
    apply in_split in Hin as (l1 & l2 & ->).
    rewrite filter_app, length_app in Hle. simpl in Hle.
    rewrite filter_cons_True in Hle by done. simpl in Hle.
    assert (H1 : filter (fun bc => bc.1 = b) l1 = []) by (apply length_zero_iff_nil; lia).
    assert (H2 : filter (fun bc => bc.1 = b) l2 = []) by (apply length_zero_iff_nil; lia).
    rewrite flat_map_app. simpl. rewrite !filter_app, !length_app.
    match goal with
    | |- context [@filter ?A ?SA ?FI ?Q ?D (flat_map ?F l1)] =>
        assert (Hother : forall l, filter (fun bc => bc.1 = b) l = [] ->
                         @filter A SA FI Q D (flat_map F l) = [])
    end.
    { intros l Hl. apply CursorProofs.filter_none. intros o Ho Hq.
      apply in_flat_map in Ho as [[b' c'] [Hbc Ho]]. cbv beta iota in Ho.
      assert (Hne : b' <> b) by (intros Heq; exact (CursorProofs.filter_nil_In _ _ _ Hl Hbc Heq)).
      exact (CursorProofs.filter_nil_In _ _ _
               (CursorProofs.broadcast_batch_other env p1 b' c' b ws Hne) Ho Hq). }
    rewrite (Hother l1 H1), (Hother l2 H2).
    match goal with
    | |- context [length (@filter ?A ?SA ?FI ?Q ?D (Handlers.broadcastCursorBatch env p1 b cs))] =>
        assert (Hc : length (@filter A SA FI Q D (Handlers.broadcastCursorBatch env p1 b cs)) = 1)
          by (rewrite <- Hclients in Hcl, Hws;
              exact (CursorProofs.broadcast_batch_count env p1 b cs ws Hcl Hws Hopen))
    end.
    rewrite Hc. simpl. lia.
Qed.


Lemma C7_cursor_batching_witness :
  length (filter (fun o => o.1 = 2 /\ CursorTick.batch_board o.2 = Some "B"%string)
            (Handlers.cursorTick HandlerProofs.env_open
               (CursorTick.queue_all CursorProofs.p_tick CursorProofs.qs_tick)).1) = 1.
Proof.
  destruct (C7_cursor_batching HandlerProofs.env_open CursorProofs.p_tick CursorProofs.qs_tick
              ltac:(constructor) ltac:(constructor)) as (_ & _ & H3 & _ & H5).
  destruct (H3 "B"%string "alice"%string (mkCursor "alice" "Alice" None 19 0)
              ltac:(vm_compute; reflexivity)) as [cs Hcs].
  exact (H5 "B"%string cs 2 Hcs ltac:(constructor; [rewrite list_elem_of_In; simpl; lia|apply NoDup_singleton])
            ltac:(simpl; tauto) eq_refl).
Defined.


(** Claim C6: given events [pre ++ suf], where [pre] is empty or ends with
    a clear and [suf] holds no clear (so the last clear, if any, closes
    [pre]), [renderEventsToSnapshot] ignores [pre]; of [suf] it draws the
    strokes, shapes and texts whose strokeId no delete event of [suf]
    names, in order. When those survivors have no extent (no bounding box)
    it returns a 1x1 canvas with nothing drawn at offset (0,0); otherwise
    width and height are the ceiling of the padded extent clamped to 16384,
    and the offset is (minX - 100, minY - 100) of the survivors' box. *)
Theorem C6_render_snapshot (events pre suf : list DrawEvent) :
  events = pre ++ suf ->
  (pre = [] \/ exists pre' c, pre = pre' ++ [c] /\ ev_type c = ETclear) ->
  Forall (fun e => ev_type e <> ETclear) suf ->
  let survivors :=
    filter (fun e => Renderer.renders (RendererProofs.deleted_in suf) e = true) suf in
  let r := Renderer.renderEventsToSnapshot events in
  match Renderer.calculateBounds survivors [] with
  | None => r = Renderer.mkResult (Renderer.mkCanvas 1 1 []) 0 0
  | Some b =>
      Renderer.c_drawn (Renderer.imageData r) = survivors /\
      (Renderer.c_width (Renderer.imageData r) <= 16384)%Z /\
      (Renderer.c_height (Renderer.imageData r) <= 16384)%Z /\
      Renderer.c_width (Renderer.imageData r) =
        Z.min 16384 (Qceiling (Renderer.maxX b - Renderer.minX b + 100 * 2)) /\
      Renderer.c_height (Renderer.imageData r) =
        Z.min 16384 (Qceiling (Renderer.maxY b - Renderer.minY b + 100 * 2)) /\
      Renderer.offsetX r = (Renderer.minX b - 100)%Q /\
      Renderer.offsetY r = (Renderer.minY b - 100)%Q
  end.
Proof.
  intros -> Hpre Hsuf. cbv zeta.
  destruct (RendererProofs.first_pass_decomp pre suf Hpre Hsuf) as (d & lci & Hfp & Hd & Hdrop).
  unfold Renderer.renderEventsToSnapshot. rewrite Hfp. cbv beta iota zeta. rewrite Hdrop.
  unfold Renderer.calculateBounds.
  rewrite (RendererProofs.bounds_filter d suf None),
    (RendererProofs.filter_renders_ext d (RendererProofs.deleted_in suf) suf Hd).
  destruct (fold_left (Renderer.bounds_step []) _ None) as [b|]; [|reflexivity].
  cbn [Renderer.c_drawn Renderer.c_width Renderer.c_height Renderer.imageData
       Renderer.offsetX Renderer.offsetY].
  unfold Renderer.MAX_CANVAS_SIZE, Renderer.PADDING.
  repeat split; apply Z.le_min_l.
Qed.

Lemma C6_render_snapshot_witness :
  let survivors :=
    filter (fun e => Renderer.renders (RendererProofs.deleted_in RendererProofs.suf_r) e = true)
      RendererProofs.suf_r in
  let r := Renderer.renderEventsToSnapshot (RendererProofs.pre_r ++ RendererProofs.suf_r) in
  match Renderer.calculateBounds survivors [] with
  | None => r = Renderer.mkResult (Renderer.mkCanvas 1 1 []) 0 0
  | Some b =>
      Renderer.c_drawn (Renderer.imageData r) = survivors /\
      (Renderer.c_width (Renderer.imageData r) <= 16384)%Z /\
      (Renderer.c_height (Renderer.imageData r) <= 16384)%Z /\
      Renderer.c_width (Renderer.imageData r) =
        Z.min 16384 (Qceiling (Renderer.maxX b - Renderer.minX b + 100 * 2)) /\
      Renderer.c_height (Renderer.imageData r) =
        Z.min 16384 (Qceiling (Renderer.maxY b - Renderer.minY b + 100 * 2)) /\
      Renderer.offsetX r = (Renderer.minX b - 100)%Q /\
      Renderer.offsetY r = (Renderer.minY b - 100)%Q
  end.
Proof.
  exact (C6_render_snapshot (RendererProofs.pre_r ++ RendererProofs.suf_r)
           RendererProofs.pre_r RendererProofs.suf_r eq_refl
           (or_intror (ex_intro _ [RendererProofs.stroke_ev "s0" 1 [(0, 0)%Q]]
              (ex_intro _ (mkDrawEvent "B" 2 ETclear "alice" 0 ClearPayload)
                 (conj eq_refl eq_refl))))
           ltac:(repeat constructor; discriminate)).
Defined.

(* ================================================================== *)
(** * Further properties of the code *)

Module Extras.

(* ------------------------------------------------------------------ *)
(** ** Presence manager *)

Module PresenceX.
Import Presence PresenceMore.

(** [leaveBoard] after [joinBoard] of the same connection on a board
    [b <> ""]: the leave reports [(b, userId)], the connection is
    forgotten, it is no longer a client of [b], and [b]'s presence map no
    longer has an entry for the user. *)
Theorem join_then_leave p ws b identity now :
  b <> "" ->
  let p1 := (joinBoard p ws b identity now).2 in
  let r := leaveBoard p1 ws in
  r.1 = Some (b, userId identity) /\
  JsMap.get (connectionToUser r.2) ws = None /\
  JsMap.get (connectionToBoard r.2) ws = None /\
  (ws ∉ getBoardClients r.2 b) /\
  (forall m, JsMap.get (presenceByBoard r.2) b = Some m -> JsMap.get m (userId identity) = None).
Proof.
  intros Hb p1 r.
  destruct (HandlerProofs.joinBoard_joined p ws b identity now) as (Hcb & Hcu & _).
  fold p1 in Hcb, Hcu.
  split; [|split; [|split; [|split]]].
  - unfold r, leaveBoard. rewrite Hcu, Hcb, decide_False by done. reflexivity.
  - unfold r, leaveBoard. rewrite Hcu, Hcb, decide_False by done. apply get_delete_eq.
  - unfold r, leaveBoard. rewrite Hcu, Hcb, decide_False by done. apply get_delete_eq.
  - intros Hin. apply (leave_clients_own p1 ws b identity Hcu Hcb Hb ws) in Hin. tauto.
  - intros m Hm. exact (proj1 (leave_presence_own p1 ws b identity Hcu Hcb Hb m Hm)).
Qed.

Lemma join_then_leave_witness :
  "B" <> "" /\
  let p1 := (joinBoard empty 1 "B" HandlerProofs.alice 0).2 in
  let r := leaveBoard p1 1 in
  r.1 = Some ("B", userId HandlerProofs.alice) /\
  JsMap.get (connectionToUser r.2) 1 = None /\
  JsMap.get (connectionToBoard r.2) 1 = None /\
  (1 ∉ getBoardClients r.2 "B") /\
  (forall m, JsMap.get (presenceByBoard r.2) "B" = Some m ->
             JsMap.get m (userId HandlerProofs.alice) = None).
Proof.
  split; [discriminate|]. apply join_then_leave. discriminate.
Defined.

(** The presence map is keyed by user, the client set by connection: when
    one user has two connections on board [b] and one of them leaves, the
    other is still a client of [b] but the user's presence entry on [b] is
    gone. *)
Theorem leave_drops_shared_user_presence p ws ws2 b identity now :
  b <> "" -> ws2 <> ws ->
  ws2 ∈ getBoardClients p b ->
  let p1 := (joinBoard p ws b identity now).2 in
  let p2 := (leaveBoard p1 ws).2 in
  ws2 ∈ getBoardClients p2 b /\
  (forall m, JsMap.get (presenceByBoard p2) b = Some m -> JsMap.get m (userId identity) = None).
Proof.
  intros Hb Hne Hin p1 p2.
  destruct (HandlerProofs.joinBoard_joined p ws b identity now) as (Hcb & Hcu & _).
  fold p1 in Hcb, Hcu. split.
  - apply (leave_clients_own p1 ws b identity Hcu Hcb Hb ws2). split; [|done].
    unfold p1, getBoardClients in *. simpl. rewrite HandlerProofs.update_inner_get.
    destruct (JsMap.get (clientsByBoard p) b); [|by apply not_elem_of_nil in Hin].
    unfold JsSet.add. case_decide; [done|]. apply elem_of_app. by left.
  - intros m Hm. exact (proj1 (leave_presence_own p1 ws b identity Hcu Hcb Hb m Hm)).
Qed.

Lemma leave_drops_shared_user_presence_witness :
  let p := (joinBoard empty 2 "B" HandlerProofs.alice 0).2 in
  "B" <> "" /\ 2 <> 1 /\ 2 ∈ getBoardClients p "B" /\
  let p1 := (joinBoard p 1 "B" HandlerProofs.alice 5).2 in
  let p2 := (leaveBoard p1 1).2 in
  2 ∈ getBoardClients p2 "B" /\
  (forall m, JsMap.get (presenceByBoard p2) "B" = Some m ->
             JsMap.get m (userId HandlerProofs.alice) = None).
Proof.
  intros p. assert (H : 2 ∈ getBoardClients p "B") by (vm_compute; left).
  split; [discriminate|]. split; [lia|]. split; [exact H|].
  apply leave_drops_shared_user_presence; [discriminate|lia|exact H].
Defined.

(** [joinBoard] does not remove the connection from the board it was on:
    a connection that joins a second board and then leaves is still
    listed as a client of the first. *)
Theorem rejoin_leaves_stale_client p ws b1 b2 identity now :
  ws ∈ getBoardClients p b1 -> b1 <> b2 -> b2 <> "" ->
  ws ∈ getBoardClients (leaveBoard (joinBoard p ws b2 identity now).2 ws).2 b1.
Proof.
  intros Hin Hne Hb2.
  destruct (HandlerProofs.joinBoard_joined p ws b2 identity now) as (Hcb & Hcu & _).
  rewrite (leave_clients_other _ ws b2 b1 identity Hcu Hcb Hb2 Hne).
  by rewrite getBoardClients_join_ne.
Qed.

Lemma rejoin_leaves_stale_client_witness :
  let p := (joinBoard empty 1 "A" HandlerProofs.alice 0).2 in
  1 ∈ getBoardClients p "A" /\ "A" <> "B" /\ "B" <> "" /\
  1 ∈ getBoardClients (leaveBoard (joinBoard p 1 "B" HandlerProofs.alice 5).2 1).2 "A".
Proof.
  intros p. assert (H : 1 ∈ getBoardClients p "A") by (vm_compute; left).
  split; [exact H|]. split; [discriminate|]. split; [discriminate|].
  apply rejoin_leaves_stale_client; [exact H|discriminate|discriminate].
Defined.

(** In every state the presence manager reaches from its empty maps
    through its operations, no board keeps an empty client set or an
    empty presence map. *)
Theorem reachable_rooms_nonempty p :
  rtc op_step empty p ->
  (forall b s, In (b, s) (clientsByBoard p) -> s <> []) /\
  (forall b m, In (b, m) (presenceByBoard p) -> m <> []).
Proof. apply rooms_nonempty_reachable. Qed.

Definition trace_p : State :=
  (leaveBoard (updateCursor (joinBoard empty 1 "B" HandlerProofs.alice 0).2 1 3 4 7).2 1).2.

Lemma trace_p_reachable : rtc op_step empty trace_p.
Proof.
  eapply rtc_l; [apply os_join|]. eapply rtc_l; [apply os_cursor|].
  eapply rtc_l; [apply os_leave|]. apply rtc_refl.
Defined.

Lemma reachable_rooms_nonempty_witness :
  rtc op_step empty trace_p /\
  (forall b s, In (b, s) (clientsByBoard trace_p) -> s <> []) /\
  (forall b m, In (b, m) (presenceByBoard trace_p) -> m <> []).
Proof.
  split; [exact trace_p_reachable|]. apply reachable_rooms_nonempty. exact trace_p_reachable.
Defined.

(** A board's cursor buffer, once created, is never removed by any
    operation of the presence manager: flushing empties it and leaving
    the board keeps it. *)
Theorem cursor_buffers_persist p p' b :
  rtc op_step p p' -> b ∈ JsMap.keys (cursorBatches p) -> b ∈ JsMap.keys (cursorBatches p').
Proof.
  induction 1 as [|x y z Hxy _ IH]; [done|]. intros Hb.
  apply IH. exact (cursor_keys_step _ _ _ Hxy Hb).
Qed.

Definition buffered_p : State :=
  queueCursorUpdate (joinBoard empty 1 "B" HandlerProofs.alice 0).2 "B" "alice" "Alice" None 3 4.

Definition flushed_p : State :=
  (leaveBoard (flushCursorBatches buffered_p true).2 1).2.

Lemma flushed_p_step : rtc op_step buffered_p flushed_p.
Proof.
  eapply rtc_l; [apply os_flush|]. eapply rtc_l; [apply os_leave|]. apply rtc_refl.
Defined.

Lemma cursor_buffers_persist_witness :
  rtc op_step buffered_p flushed_p /\ "B" ∈ JsMap.keys (cursorBatches buffered_p) /\
  "B" ∈ JsMap.keys (cursorBatches flushed_p).
Proof.
  assert (H : "B" ∈ JsMap.keys (cursorBatches buffered_p)) by (vm_compute; left).
  split; [exact flushed_p_step|]. split; [exact H|].
  exact (cursor_buffers_persist _ _ _ flushed_p_step H).
Defined.

(** [updateCursor] on a joined connection whose user has a presence entry
    on its board sets that entry's cursor to [(x, y, now)], keeps the
    entry's other fields and every other user's entry, and reports the
    sender. *)
Theorem updateCursor_sets_cursor p ws b identity m pr x y now :
  JsMap.get (connectionToUser p) ws = Some identity ->
  JsMap.get (connectionToBoard p) ws = Some b -> b <> "" ->
  JsMap.get (presenceByBoard p) b = Some m ->
  JsMap.get m (userId identity) = Some pr ->
  let r := updateCursor p ws x y now in
  r.1 = Some (b, userId identity, displayName identity, avatarColor identity) /\
  exists m', JsMap.get (presenceByBoard r.2) b = Some m' /\
    JsMap.get m' (userId identity) =
      Some (mkPresence (p_boardId pr) (p_userId pr) (p_displayName pr) (p_isAnonymous pr)
              (p_avatarColor pr) (Some (x, y, now)) (p_connectedAt pr)) /\
    (forall u, u <> userId identity -> JsMap.get m' u = JsMap.get m u) /\
    (forall b', b' <> b -> JsMap.get (presenceByBoard r.2) b' = JsMap.get (presenceByBoard p) b').
Proof.
  intros Hu Hb Hne Hm Hpr r. unfold r, updateCursor.
  rewrite Hu, Hb, decide_False by done. simpl. rewrite Hm, Hpr. split; [done|].
  eexists. split; [apply JsMapFacts.get_set_eq|]. split; [apply JsMapFacts.get_set_eq|].
  split.
  - intros u Hne'. by apply JsMapFacts.get_set_ne.
  - intros b' Hb'. by apply JsMapFacts.get_set_ne.
Qed.

Lemma updateCursor_sets_cursor_witness :
  let p := (joinBoard empty 1 "B" HandlerProofs.alice 0).2 in
  let m := [("alice", (joinBoard empty 1 "B" HandlerProofs.alice 0).1)] in
  let pr := (joinBoard empty 1 "B" HandlerProofs.alice 0).1 in
  JsMap.get (connectionToUser p) 1 = Some HandlerProofs.alice /\
  JsMap.get (connectionToBoard p) 1 = Some "B" /\ "B" <> "" /\
  JsMap.get (presenceByBoard p) "B" = Some m /\
  JsMap.get m (userId HandlerProofs.alice) = Some pr /\
  let r := updateCursor p 1 3 4 9 in
  r.1 = Some ("B", userId HandlerProofs.alice, displayName HandlerProofs.alice,
              avatarColor HandlerProofs.alice) /\
  exists m', JsMap.get (presenceByBoard r.2) "B" = Some m' /\
    JsMap.get m' (userId HandlerProofs.alice) =
      Some (mkPresence (p_boardId pr) (p_userId pr) (p_displayName pr) (p_isAnonymous pr)
              (p_avatarColor pr) (Some (3%Z, 4%Z, 9%Z)) (p_connectedAt pr)) /\
    (forall u, u <> userId HandlerProofs.alice -> JsMap.get m' u = JsMap.get m u) /\
    (forall b', b' <> "B" -> JsMap.get (presenceByBoard r.2) b' = JsMap.get (presenceByBoard p) b').
Proof.
  intros p m pr.
  assert (H1 : JsMap.get (connectionToUser p) 1 = Some HandlerProofs.alice) by reflexivity.
  assert (H2 : JsMap.get (connectionToBoard p) 1 = Some "B") by reflexivity.
  assert (H3 : JsMap.get (presenceByBoard p) "B" = Some m) by reflexivity.
  assert (H4 : JsMap.get m (userId HandlerProofs.alice) = Some pr) by reflexivity.
  split; [exact H1|]. split; [exact H2|]. split; [discriminate|]. split; [exact H3|].
  split; [exact H4|].
  exact (updateCursor_sets_cursor p 1 "B" HandlerProofs.alice m pr 3 4 9 H1 H2
           ltac:(discriminate) H3 H4).
Defined.

End PresenceX.

(* ------------------------------------------------------------------ *)
(** ** Handlers, board administration and the REST routes *)

Module HandlersX.
Import Handlers HandlersMore.

Lemma broadcast_In env p b m0 ex c m :
  In (c, m) (broadcast env p b m0 ex) <->
  m = m0 /\ c ∈ Presence.getBoardClients p b /\ Some c <> ex /\ isOpen env c = true.
Proof.
  unfold broadcast. rewrite in_flat_map. split.
  - intros [c0 [Hin Hm]]. rewrite <- list_elem_of_In in Hin.
    destruct (bool_decide (Some c0 <> ex)) eqn:Hb; simpl in Hm; [|done].
    destruct (isOpen env c0) eqn:Ho; simpl in Hm; [|done].
    destruct Hm as [[= <- <-]|[]]. apply bool_decide_eq_true in Hb. done.
  - intros (-> & Hin & Hex & Ho). exists c. split; [by apply list_elem_of_In|].
    rewrite bool_decide_true by done. rewrite Ho. simpl. by left.
Qed.

Lemma leave_result p ws identity b :
  JsMap.get (Presence.connectionToUser p) ws = Some identity ->
  JsMap.get (Presence.connectionToBoard p) ws = Some b -> b <> "" ->
  (Presence.leaveBoard p ws).1 = Some (b, userId identity).
Proof. intros Hu Hb Hne. unfold Presence.leaveBoard. by rewrite Hu, Hb, decide_False. Qed.

(** After [leaveBoard] the connection is not joined to any board. *)
Lemma leave_not_joined p ws :
  let p' := (Presence.leaveBoard p ws).2 in
  JsMap.get (Presence.connectionToUser p') ws = None \/
  JsMap.get (Presence.connectionToBoard p') ws = None \/
  JsMap.get (Presence.connectionToBoard p') ws = Some "".
Proof.
  unfold Presence.leaveBoard.
  destruct (JsMap.get (Presence.connectionToUser p) ws) as [identity|] eqn:Hu; [|by left].
  destruct (JsMap.get (Presence.connectionToBoard p) ws) as [b|] eqn:Hb; [|by right; left].
  destruct (decide (b = "")) as [->|]; [by right; right|].
  left. apply PresenceMore.get_delete_eq.
Qed.

Lemma leave_twice p ws :
  Presence.leaveBoard (Presence.leaveBoard p ws).2 ws = (None, (Presence.leaveBoard p ws).2).
Proof.
  destruct (leave_not_joined p ws) as [H|[H|H]];
    remember (Presence.leaveBoard p ws).2 as p'; unfold Presence.leaveBoard at 1; rewrite H.
  - done.
  - by destruct (JsMap.get (Presence.connectionToUser p') ws).
  - destruct (JsMap.get (Presence.connectionToUser p') ws); [|done].
    by rewrite decide_True.
Qed.

Lemma find_app {A} (f : A -> bool) (l l' : list A) :
  List.find f (l ++ l') = match List.find f l with Some x => Some x | None => List.find f l' end.
Proof. induction l as [|x l IH]; simpl; [done|]. by destruct (f x). Qed.

Lemma find_key_None {A} (f : A -> string) (l : list A) b :
  b ∉ map f l -> List.find (fun r => bool_decide (f r = b)) l = None.
Proof.
  induction l as [|r l IH]; simpl; [done|]. intros Hn.
  rewrite bool_decide_false by (intros <-; apply Hn; by left).
  apply IH. intros H. apply Hn. by right.
Qed.

Lemma createBoard_fresh d b n o ip :
  b ∉ map Db.br_id (Db.boards d) ->
  exists d', DbAdmin.createBoard d b n o ip = Some (Db.rowToBoard (Db.mkBoardRow b n o ip), d') /\
    Db.getBoard d' b = Some (Db.rowToBoard (Db.mkBoardRow b n o ip)) /\
    (forall b', b' <> b -> Db.getBoard d' b' = Db.getBoard d b') /\
    Db.drawing_events d' = Db.drawing_events d /\ Db.board_snapshots d' = Db.board_snapshots d.
Proof.
  intros Hn. unfold DbAdmin.createBoard. rewrite bool_decide_false by done.
  eexists. split; [reflexivity|]. unfold Db.getBoard. simpl. rewrite !find_app.
  split; [|split; [|done]].
  - rewrite find_key_None by done. simpl. by rewrite bool_decide_true.
  - intros b' Hb'. rewrite find_app. destruct (List.find _ (Db.boards d)); [done|]. simpl.
    by rewrite bool_decide_false.
Qed.

Lemma set_db_id st : set_db st (db st) = st.
Proof. by destruct st. Qed.

Lemma initBoardSequence_fresh st b :
  JsMap.get (nextSeq st) b = None ->
  JsMap.get (nextSeq (initBoardSequence st b)) b = Some (Db.getMaxSeq (db st) b + 1).
Proof.
  intros H. unfold initBoardSequence, JsMap.has. rewrite H. simpl.
  apply JsMapFacts.get_set_eq.
Qed.

Lemma getEvents_events d d' b :
  Db.drawing_events d' = Db.drawing_events d -> Db.getEvents d' b = Db.getEvents d b.
Proof. unfold Db.getEvents. by intros ->. Qed.

Lemma getMaxSeq_events d d' b :
  Db.drawing_events d' = Db.drawing_events d -> Db.getMaxSeq d' b = Db.getMaxSeq d b.
Proof. unfold Db.getMaxSeq. by intros ->. Qed.

(** [handleDisconnect] of a connection joined to board [b <> ""] sends
    [USER_LEAVE b u], [u] the connection's user, to exactly the other
    clients of [b] whose socket is open, and to no one else. *)
Theorem handleDisconnect_recipients env st ws identity b :
  JsMap.get (Presence.connectionToUser (pres st)) ws = Some identity ->
  JsMap.get (Presence.connectionToBoard (pres st)) ws = Some b -> b <> "" ->
  forall c m, In (c, m) (handleDisconnect env st ws).2 <->
    m = USER_LEAVE b (userId identity) /\ c ∈ Presence.getBoardClients (pres st) b /\
    c <> ws /\ isOpen env c = true.
Proof.
  intros Hu Hb Hne c m. unfold handleDisconnect.
  pose proof (leave_result _ _ _ _ Hu Hb Hne) as Hr.
  pose proof (PresenceMore.leave_clients_own _ _ _ _ Hu Hb Hne) as Hc.
  destruct (Presence.leaveBoard (pres st) ws) as [r p'] eqn:E. simpl in Hr, Hc |- *. subst r.
  rewrite broadcast_In, Hc. split.
  - intros (-> & [Hin Hw] & _ & Ho). done.
  - intros (-> & Hin & Hw & Ho). repeat split; done.
Qed.

Definition st_two : Server :=
  mkServer (Presence.joinBoard (Presence.joinBoard Presence.empty 1 "B" HandlerProofs.alice 0).2
              2 "B" (mkIdentity "bob" "Bob" false None) 0).2
           [] (Db.mkDb [] [] []) [] [].

Lemma handleDisconnect_recipients_witness :
  JsMap.get (Presence.connectionToUser (pres st_two)) 1 = Some HandlerProofs.alice /\
  JsMap.get (Presence.connectionToBoard (pres st_two)) 1 = Some "B" /\ "B" <> "" /\
  (In (2, USER_LEAVE "B" "alice") (handleDisconnect HandlerProofs.env_open st_two 1).2 <->
   USER_LEAVE "B" "alice" = USER_LEAVE "B" (userId HandlerProofs.alice) /\
   2 ∈ Presence.getBoardClients (pres st_two) "B" /\ 2 <> 1 /\
   isOpen HandlerProofs.env_open 2 = true).
Proof.
  assert (H1 : JsMap.get (Presence.connectionToUser (pres st_two)) 1 = Some HandlerProofs.alice)
    by reflexivity.
  assert (H2 : JsMap.get (Presence.connectionToBoard (pres st_two)) 1 = Some "B")
    by reflexivity.
  split; [exact H1|]. split; [exact H2|]. split; [discriminate|].
  exact (handleDisconnect_recipients HandlerProofs.env_open st_two 1 HandlerProofs.alice "B"
           H1 H2 ltac:(discriminate) 2 (USER_LEAVE "B" "alice")).
Defined.

(** The socket's [close] and [error] events both call [handleDisconnect]:
    a second call changes nothing and sends nothing. *)
Theorem handleDisconnect_twice env st ws :
  let r := handleDisconnect env st ws in
  handleDisconnect env r.1 ws = (r.1, []).
Proof.
  unfold handleDisconnect. pose proof (leave_twice (pres st) ws) as H.
  destruct (Presence.leaveBoard (pres st) ws) as [r p'] eqn:E. simpl in H |- *.
  rewrite H. reflexivity.
Qed.

(** After [LEAVE_BOARD], a [DRAW_EVENT] from the same connection is
    answered with [NOT_JOINED] when [checkDrawLimit] admits it and not at
    all when [checkDrawLimit] refuses it; either way it stores nothing and
    touches neither the counters nor the presence. *)
Theorem leave_then_draw_not_joined env st ws t pl i i' :
  let st1 := (handleMessage env st ws (Some CM_LEAVE_BOARD) i).1 in
  let r := handleMessage env st1 ws (Some (CM_DRAW_EVENT t pl)) i' in
  db r.1 = db st /\ nextSeq r.1 = nextSeq st /\ pres r.1 = pres st1 /\
  r.2 = (if (RateLimiter.checkDrawLimit (drawBuckets st1) ws (i_now i')).1
         then sendOut env ws (Msg (ERROR NOT_JOINED "Must send HELLO first"))
         else []).
Proof.
  cbn zeta. unfold handleMessage, lift, handleDisconnect.
  pose proof (leave_not_joined (pres st) ws) as H.
  destruct (Presence.leaveBoard (pres st) ws) as [res p'] eqn:E. simpl in H |- *.
  unfold handleDrawEvent.
  destruct (RateLimiter.checkDrawLimit _ ws _) as [[|] dk]; simpl; [|tauto].
  assert (Hs : map (fun cm => (cm.1, Msg cm.2))
                 (send env ws (ERROR NOT_JOINED "Must send HELLO first")) =
               sendOut env ws (Msg (ERROR NOT_JOINED "Must send HELLO first")))
    by (unfold send, sendOut; by destruct (isOpen env ws)).
  destruct H as [H|[H|H]]; rewrite H.
  - destruct (JsMap.get (Presence.connectionToBoard p') ws); simpl; rewrite Hs; tauto.
  - simpl. rewrite Hs. tauto.
  - destruct (JsMap.get (Presence.connectionToUser p') ws); simpl; rewrite Hs; tauto.
Qed.


Lemma hello_join_db env st ws p now uuid anon :
  db (hello_join env st ws p now uuid anon).1 = db st.
Proof.
  unfold hello_join. destruct (Presence.joinBoard _ _ _ _ _). simpl.
  apply HandlerProofs.initBoardSequence_db.
Qed.

Lemma filter_key_ne (l : list DrawEvent) b b' :
  b' <> b ->
  filter (fun e => ev_boardId e = b') (filter (fun e => ev_boardId e <> b) l) =
  filter (fun e => ev_boardId e = b') l.
Proof.
  intros Hne. induction l as [|e l IH]; [done|].
  destruct (decide (ev_boardId e = b)) as [Hb|Hb].
  - rewrite (filter_cons_False (fun e => ev_boardId e <> b)) by tauto.
    rewrite (filter_cons_False (fun e => ev_boardId e = b')) by congruence. exact IH.
  - rewrite (filter_cons_True (fun e => ev_boardId e <> b)) by done.
    rewrite !filter_cons, IH. done.
Qed.

Lemma filter_key_eq (l : list DrawEvent) b :
  filter (fun e => ev_boardId e = b) (filter (fun e => ev_boardId e <> b) l) = [].
Proof.
  induction l as [|e l IH]; [done|]. rewrite filter_cons.
  case_decide; [rewrite filter_cons, decide_False by done|]; exact IH.
Qed.

Lemma deleteBoard_getEvents d b u b' :
  Db.getEvents (DbAdmin.deleteBoard d b u).2 b' =
    if decide (b' = b) then [] else Db.getEvents d b'.
Proof.
  unfold Db.getEvents, DbAdmin.deleteBoard. simpl.
  case_decide as H; [subst; by rewrite filter_key_eq|]. by rewrite filter_key_ne.
Qed.

Lemma find_filter_id (l : list Db.BoardRow) (Q : Db.BoardRow -> Prop) `{forall r, Decision (Q r)} b' :
  (forall r, Db.br_id r = b' -> Q r) ->
  List.find (fun r => bool_decide (Db.br_id r = b')) (filter Q l) =
  List.find (fun r => bool_decide (Db.br_id r = b')) l.
Proof.
  intros HQ. induction l as [|r l IH]; [done|]. rewrite filter_cons. simpl.
  case_decide as Hq; simpl.
  - by rewrite IH.
  - rewrite bool_decide_false; [exact IH|]. intros Hr. by apply Hq, HQ.
Qed.

Lemma NoDup_map_inj {A B} (f : A -> B) (l : list A) x y :
  NoDup (map f l) -> In x l -> In y l -> f x = f y -> x = y.
Proof.
  induction l as [|z l IH]; simpl; [done|]. intros Hnd Hx Hy Hf.
  inversion Hnd as [|? ? Hn Hnd']; subst.
  destruct Hx as [<-|Hx], Hy as [<-|Hy]; [done| | |by apply IH].
  - exfalso. apply Hn. apply list_elem_of_In, in_map_iff. by exists y.
  - exfalso. apply Hn. apply list_elem_of_In, in_map_iff. by exists x.
Qed.

Lemma getBoard_Some d b board :
  Db.getBoard d b = Some board ->
  exists r, In r (Db.boards d) /\ Db.br_id r = b /\ board = Db.rowToBoard r.
Proof.
  unfold Db.getBoard. destruct (List.find _ _) as [r|] eqn:Hf; [|discriminate].
  intros [= <-]. apply find_some in Hf as [Hin Hb]. apply bool_decide_eq_true in Hb.
  by exists r.
Qed.

Lemma find_map_replace (l : list Db.SnapshotRow) b row b' :
  Db.sr_board_id row = b ->
  List.find (fun r => bool_decide (Db.sr_board_id r = b'))
    (map (fun r => if bool_decide (Db.sr_board_id r = b) then row else r) l) =
  if decide (b' = b) then (if bool_decide (b ∈ map Db.sr_board_id l) then Some row else None)
  else List.find (fun r => bool_decide (Db.sr_board_id r = b')) l.
Proof.
  intros Hrow. induction l as [|r l IH]; simpl.
  - by destruct (decide (b' = b)).
  - destruct (bool_decide (Db.sr_board_id r = b)) eqn:Hr; simpl.
    + apply bool_decide_eq_true in Hr. case_decide as Hb'.
      * subst. rewrite bool_decide_true by done.
        rewrite bool_decide_true by (rewrite Hr; by left). done.
      * rewrite Hrow, !bool_decide_false by (rewrite ?Hr; congruence). exact IH.
    + apply bool_decide_eq_false in Hr. rewrite IH. case_decide as Hb'; [|done].
      subst. rewrite bool_decide_false by done.
      case_bool_decide as H1; case_bool_decide as H2; try done.
      * exfalso. apply H2. by right.
      * exfalso. apply elem_of_cons in H2 as [H2|H2]; [congruence|done].
Qed.

Lemma create_via_handler env st ws name ip tok uuid :
  truthy (verifyClerkToken env tok) = true ->
  uuid ∉ map Db.br_id (Db.boards (db st)) ->
  let r := handleCreateBoard env st ws name ip tok uuid in
  Db.getBoard (db r.1) uuid =
    Some (Db.mkBoard uuid name (verifyClerkToken env tok)
            (match ip with Some b => b | None => false end)) /\
  (forall b', b' <> uuid -> Db.getBoard (db r.1) b' = Db.getBoard (db st) b') /\
  Db.drawing_events (db r.1) = Db.drawing_events (db st) /\
  pres r.1 = pres st /\
  (JsMap.get (nextSeq st) uuid = None ->
   JsMap.get (nextSeq r.1) uuid = Some (Db.getMaxSeq (db st) uuid + 1)) /\
  r.2 = sendOut env ws (BOARD_CREATED uuid name ip).
Proof.
  intros Ht Hn r. unfold r, handleCreateBoard. cbv zeta. rewrite Ht. simpl negb. cbv iota.
  destruct (createBoard_fresh (db st) uuid name (verifyClerkToken env tok) ip Hn)
    as (d' & Hc & Hg & Ho & He & _).
  rewrite Hc. simpl. rewrite !HandlerProofs.initBoardSequence_db, HandlerProofs.initBoardSequence_pres.
  simpl. split; [exact Hg|]. split; [exact Ho|]. split; [exact He|]. split; [done|].
  split; [|done]. intros Hs.
  rewrite (initBoardSequence_fresh (set_db st d') uuid Hs). simpl.
  by rewrite (getMaxSeq_events _ _ uuid He).
Qed.

(** [handleCreateBoard] with a verified token and a free id: the board is
    stored with the verified user as its owner, private only when the
    message says [isPrivate: true], every other board is as before, no
    event is touched, the board's counter starts at [getMaxSeq + 1], and
    the reply is [BOARD_CREATED]. *)
Theorem handleCreateBoard_creates env st ws name ip tok uuid :
  truthy (verifyClerkToken env tok) = true ->
  uuid ∉ map Db.br_id (Db.boards (db st)) ->
  let r := handleCreateBoard env st ws name ip tok uuid in
  Db.getBoard (db r.1) uuid =
    Some (Db.mkBoard uuid name (verifyClerkToken env tok)
            (match ip with Some b => b | None => false end)) /\
  (forall b', b' <> uuid -> Db.getBoard (db r.1) b' = Db.getBoard (db st) b') /\
  Db.drawing_events (db r.1) = Db.drawing_events (db st) /\
  pres r.1 = pres st /\
  (JsMap.get (nextSeq st) uuid = None ->
   JsMap.get (nextSeq r.1) uuid = Some (Db.getMaxSeq (db st) uuid + 1)) /\
  r.2 = sendOut env ws (BOARD_CREATED uuid name ip).
Proof. exact (create_via_handler env st ws name ip tok uuid). Qed.

Lemma handleCreateBoard_creates_witness :
  truthy (verifyClerkToken HandlerProofs.env_clerk (Some "tokA")) = true /\
  ("u1" ∉ map Db.br_id (Db.boards (db HandlerProofs.server0))) /\
  let r := handleCreateBoard HandlerProofs.env_clerk HandlerProofs.server0 1 (Some "n") None
             (Some "tokA") "u1" in
  Db.getBoard (db r.1) "u1" =
    Some (Db.mkBoard "u1" (Some "n") (verifyClerkToken HandlerProofs.env_clerk (Some "tokA"))
            (match @None bool with Some b => b | None => false end)) /\
  (forall b', b' <> "u1" -> Db.getBoard (db r.1) b' = Db.getBoard (db HandlerProofs.server0) b') /\
  Db.drawing_events (db r.1) = Db.drawing_events (db HandlerProofs.server0) /\
  pres r.1 = pres HandlerProofs.server0 /\
  (JsMap.get (nextSeq HandlerProofs.server0) "u1" = None ->
   JsMap.get (nextSeq r.1) "u1" = Some (Db.getMaxSeq (db HandlerProofs.server0) "u1" + 1)) /\
  r.2 = sendOut HandlerProofs.env_clerk 1 (BOARD_CREATED "u1" (Some "n") None).
Proof.
  assert (H1 : truthy (verifyClerkToken HandlerProofs.env_clerk (Some "tokA")) = true)
    by reflexivity.
  assert (H2 : "u1" ∉ map Db.br_id (Db.boards (db HandlerProofs.server0)))
    by (simpl; apply not_elem_of_nil).
  split; [exact H1|]. split; [exact H2|].
  exact (handleCreateBoard_creates HandlerProofs.env_clerk HandlerProofs.server0 1 (Some "n") None
           (Some "tokA") "u1" H1 H2).
Defined.

(** [handleCreateBoard] changes the state only when the token verifies
    and the id is free, and then replies [BOARD_CREATED]; otherwise the
    state is unchanged and the reply is [UNAUTHORIZED] (no verified user)
    or [CREATE_FAILED] (the id is taken). *)
Theorem handleCreateBoard_outcomes env st ws name ip tok uuid :
  let r := handleCreateBoard env st ws name ip tok uuid in
  (truthy (verifyClerkToken env tok) = true /\ (uuid ∉ map Db.br_id (Db.boards (db st))) /\
   r.2 = sendOut env ws (BOARD_CREATED uuid name ip)) \/
  (truthy (verifyClerkToken env tok) = false /\ r.1 = st /\
   r.2 = sendOut env ws (Msg (ERROR UNAUTHORIZED "You must be signed in to create a board"))) \/
  (truthy (verifyClerkToken env tok) = true /\
   uuid ∈ map Db.br_id (Db.boards (db st)) /\ r.1 = st /\
   r.2 = sendOut env ws (Msg (ERROR CREATE_FAILED "Failed to create board"))).
Proof.
  cbv zeta. unfold handleCreateBoard.
  destruct (truthy (verifyClerkToken env tok)) eqn:Ht; simpl; [|by right; left].
  destruct (decide (uuid ∈ map Db.br_id (Db.boards (db st)))) as [Hin|Hn].
  - unfold DbAdmin.createBoard. rewrite bool_decide_true by done. by right; right.
  - destruct (createBoard_fresh (db st) uuid name (verifyClerkToken env tok) ip Hn)
      as (d' & -> & _). by left.
Qed.

(** A board created private through [CREATE_BOARD] turns away the
    [HELLO] of any connection whose verified user differs from the
    creator's: the reply is [ACCESS_DENIED] and the state is unchanged. *)
Theorem created_private_board_denies env st ws name tok uuid ws2 p now u2 an :
  truthy (verifyClerkToken env tok) = true ->
  uuid ∉ map Db.br_id (Db.boards (db st)) ->
  h_boardId p = uuid ->
  verifyClerkToken env (h_authToken p) <> verifyClerkToken env tok ->
  let st1 := (handleCreateBoard env st ws name (Some true) tok uuid).1 in
  let r := handleHello env st1 ws2 p now u2 an in
  r.1 = st1 /\ exists reason, r.2 = send env ws2 (ACCESS_DENIED uuid reason).
Proof.
  intros Ht Hn Hb Hv st1 r.
  destruct (create_via_handler env st ws name (Some true) tok uuid Ht Hn)
    as (Hg & _). fold st1 in Hg. rewrite <- Hb in Hg.
  unfold r. rewrite (HandlerProofs.handleHello_existing _ _ _ _ _ _ _ _ Hg). simpl.
  rewrite set_db_id, <- Hb.
  destruct (negb (truthy (verifyClerkToken env (h_authToken p)))); [split; [done|]; by eexists|].
  rewrite bool_decide_true by congruence. split; [done|]. by eexists.
Qed.

Lemma created_private_board_denies_witness :
  truthy (verifyClerkToken HandlerProofs.env_clerk (Some "tokA")) = true /\
  ("u1" ∉ map Db.br_id (Db.boards (db HandlerProofs.server0))) /\
  h_boardId (HandlerProofs.hello "u1" (Some "tokB") None false None) = "u1" /\
  verifyClerkToken HandlerProofs.env_clerk
    (h_authToken (HandlerProofs.hello "u1" (Some "tokB") None false None)) <>
    verifyClerkToken HandlerProofs.env_clerk (Some "tokA") /\
  let st1 := (handleCreateBoard HandlerProofs.env_clerk HandlerProofs.server0 1 None (Some true)
                (Some "tokA") "u1").1 in
  let r := handleHello HandlerProofs.env_clerk st1 2
             (HandlerProofs.hello "u1" (Some "tokB") None false None) 0 "x" "y" in
  r.1 = st1 /\ exists reason, r.2 = send HandlerProofs.env_clerk 2 (ACCESS_DENIED "u1" reason).
Proof.
  assert (H1 : truthy (verifyClerkToken HandlerProofs.env_clerk (Some "tokA")) = true)
    by reflexivity.
  assert (H2 : "u1" ∉ map Db.br_id (Db.boards (db HandlerProofs.server0)))
    by (simpl; apply not_elem_of_nil).
  assert (H3 : verifyClerkToken HandlerProofs.env_clerk
                 (h_authToken (HandlerProofs.hello "u1" (Some "tokB") None false None)) <>
               verifyClerkToken HandlerProofs.env_clerk (Some "tokA")) by (vm_compute; congruence).
  split; [exact H1|]. split; [exact H2|]. split; [reflexivity|]. split; [exact H3|].
  exact (created_private_board_denies HandlerProofs.env_clerk HandlerProofs.server0 1 None
           (Some "tokA") "u1" 2 (HandlerProofs.hello "u1" (Some "tokB") None false None) 0 "x" "y"
           H1 H2 eq_refl H3).
Defined.

(** The two ways to create a board default [isPrivate] differently: the
    [CREATE_BOARD] message without [isPrivate] stores NULL, read back as a
    public board, while [POST /api/boards] without it stores [true]. *)
Theorem isPrivate_defaults_differ env st ws name tok uuid :
  truthy (verifyClerkToken env tok) = true ->
  uuid ∉ map Db.br_id (Db.boards (db st)) ->
  option_map Db.b_isPrivate
    (Db.getBoard (db (handleCreateBoard env st ws name None tok uuid).1) uuid) = Some false /\
  (apiCreateBoard st (verifyClerkToken env tok) name None uuid).1 = 201%Z /\
  option_map Db.b_isPrivate
    (Db.getBoard (db (apiCreateBoard st (verifyClerkToken env tok) name None uuid).2) uuid) =
    Some true.
Proof.
  intros Ht Hn.
  destruct (create_via_handler env st ws name None tok uuid Ht Hn) as (Hg & _).
  rewrite Hg. split; [done|].
  unfold apiCreateBoard. rewrite Ht. simpl negb. cbv iota.
  destruct (createBoard_fresh (db st) uuid name (verifyClerkToken env tok) (Some true) Hn)
    as (d' & -> & Hg' & _).
  split; [done|]. simpl. rewrite HandlerProofs.initBoardSequence_db. simpl. by rewrite Hg'.
Qed.

Lemma isPrivate_defaults_differ_witness :
  truthy (verifyClerkToken HandlerProofs.env_clerk (Some "tokA")) = true /\
  ("u1" ∉ map Db.br_id (Db.boards (db HandlerProofs.server0))) /\
  option_map Db.b_isPrivate
    (Db.getBoard (db (handleCreateBoard HandlerProofs.env_clerk HandlerProofs.server0 1 None None
                        (Some "tokA") "u1").1) "u1") = Some false /\
  (apiCreateBoard HandlerProofs.server0 (verifyClerkToken HandlerProofs.env_clerk (Some "tokA"))
     None None "u1").1 = 201%Z /\
  option_map Db.b_isPrivate
    (Db.getBoard (db (apiCreateBoard HandlerProofs.server0
                        (verifyClerkToken HandlerProofs.env_clerk (Some "tokA")) None None "u1").2)
       "u1") = Some true.
Proof.
  assert (H1 : truthy (verifyClerkToken HandlerProofs.env_clerk (Some "tokA")) = true)
    by reflexivity.
  assert (H2 : "u1" ∉ map Db.br_id (Db.boards (db HandlerProofs.server0)))
    by (simpl; apply not_elem_of_nil).
  split; [exact H1|]. split; [exact H2|].
  exact (isPrivate_defaults_differ HandlerProofs.env_clerk HandlerProofs.server0 1 None
           (Some "tokA") "u1" H1 H2).
Defined.

(** [deleteBoard] removes every event of the board whoever calls it,
    even when no board row is deleted; the board's snapshot, the other
    boards' events and the snapshots stay. *)
Theorem deleteBoard_wipes_events d b u :
  let d' := (DbAdmin.deleteBoard d b u).2 in
  Db.getEvents d' b = [] /\ Db.getMaxSeq d' b = 0 /\
  (forall b', b' <> b -> Db.getEvents d' b' = Db.getEvents d b') /\
  Db.board_snapshots d' = Db.board_snapshots d.
Proof.
  cbv zeta. split; [|split; [|split]].
  - rewrite deleteBoard_getEvents. by rewrite decide_True.
  - unfold Db.getMaxSeq, Store.getMaxSeq, Store.seqs_of, DbAdmin.deleteBoard. simpl.
    induction (Db.drawing_events d) as [|e l IH]; [done|]. rewrite filter_cons.
    case_decide; simpl; [|exact IH]. rewrite filter_cons, decide_False by done. exact IH.
  - intros b' Hb'. rewrite deleteBoard_getEvents. by rewrite decide_False.
  - done.
Qed.

(** [DELETE /api/boards/:id] by a signed-in user who owns no row of the
    board answers 404, keeps every board row, and still erases all of the
    board's events. *)
Theorem apiDeleteBoard_non_owner d u b :
  u <> "" ->
  (forall r, In r (Db.boards d) -> Db.br_id r = b -> Db.br_owner_id r <> Some u) ->
  let res := apiDeleteBoard d (Some u) b in
  res.1 = 404%Z /\ Db.boards res.2 = Db.boards d /\ Db.getEvents res.2 b = [].
Proof.
  intros Hu Ho. unfold apiDeleteBoard. simpl.
  rewrite bool_decide_false by done. simpl.
  pose proof (deleteBoard_getEvents d b u b) as He. rewrite decide_True in He by done.
  unfold DbAdmin.deleteBoard in *. simpl in *.
  assert (Hr : filter (fun r => Db.br_id r = b /\ Db.br_owner_id r = Some u) (Db.boards d) = []).
  { apply CursorProofs.filter_none. intros r Hin [Hb Hro]. exact (Ho r Hin Hb Hro). }
  assert (Hk : filter (fun r => ~ (Db.br_id r = b /\ Db.br_owner_id r = Some u)) (Db.boards d) =
               Db.boards d).
  { clear Hr He. induction (Db.boards d) as [|r l IH]; [done|].
    rewrite filter_cons_True; [f_equal; apply IH; intros r' Hr'; apply Ho; by right|].
    intros [Hb Hro]. exact (Ho r (or_introl eq_refl) Hb Hro). }
  rewrite Hr, Hk. simpl. split; [done|]. split; [done|]. exact He.
Qed.

Lemma apiDeleteBoard_non_owner_witness :
  "bob" <> "" /\
  (forall r, In r (Db.boards HandlerProofs.db_fixture) -> Db.br_id r = "P" ->
             Db.br_owner_id r <> Some "bob") /\
  let res := apiDeleteBoard HandlerProofs.db_fixture (Some "bob") "P" in
  res.1 = 404%Z /\ Db.boards res.2 = Db.boards HandlerProofs.db_fixture /\
  Db.getEvents res.2 "P" = [].
Proof.
  assert (H : forall r, In r (Db.boards HandlerProofs.db_fixture) -> Db.br_id r = "P" ->
                        Db.br_owner_id r <> Some "bob").
  { intros r Hin. simpl in Hin. destruct Hin as [<-|[<-|[]]]; simpl; congruence. }
  split; [discriminate|]. split; [exact H|].
  exact (apiDeleteBoard_non_owner HandlerProofs.db_fixture "bob" "P" ltac:(discriminate) H).
Defined.

(** [DELETE /api/boards/:id] by the owner of the board (ids being unique,
    as the primary key makes them) answers 200 and removes the board row
    and its events; other boards and the board's snapshot stay. *)
Theorem apiDeleteBoard_owner d u b board :
  u <> "" -> NoDup (map Db.br_id (Db.boards d)) ->
  Db.getBoard d b = Some board -> Db.b_ownerId board = Some u ->
  let res := apiDeleteBoard d (Some u) b in
  res.1 = 200%Z /\ Db.getBoard res.2 b = None /\ Db.getEvents res.2 b = [] /\
  (forall b', b' <> b -> Db.getBoard res.2 b' = Db.getBoard d b') /\
  Db.getSnapshot res.2 b = Db.getSnapshot d b.
Proof.
  intros Hu Hnd Hg Ho. destruct (getBoard_Some _ _ _ Hg) as (r & Hin & Hrb & ->).
  simpl in Ho. unfold apiDeleteBoard. simpl. rewrite bool_decide_false by done. simpl.
  pose proof (deleteBoard_getEvents d b u b) as He. rewrite decide_True in He by done.
  pose proof (fun b' => deleteBoard_getEvents d b u b') as He'.
  unfold DbAdmin.deleteBoard in *. simpl in *.
  rewrite bool_decide_true.
  2:{ assert (Hr : r ∈ filter (fun r => Db.br_id r = b /\ Db.br_owner_id r = Some u) (Db.boards d))
        by (apply list_elem_of_filter; split; [done|]; by apply list_elem_of_In).
      revert Hr.
      generalize (filter (fun r => Db.br_id r = b /\ Db.br_owner_id r = Some u) (Db.boards d)).
      intros [|x l] Hr; [by apply not_elem_of_nil in Hr|simpl; lia]. }
  split; [done|]. split; [|split; [exact He|split; [|done]]].
  - unfold Db.getBoard. simpl.
    destruct (List.find _ (filter _ _)) as [r'|] eqn:Hf; [|done].
    apply find_some in Hf as [Hin' Hb']. apply bool_decide_eq_true in Hb'.
    apply list_elem_of_In, list_elem_of_filter in Hin' as [Hn Hin'].
    apply list_elem_of_In in Hin'.
    assert (r' = r) as -> by (apply (NoDup_map_inj Db.br_id (Db.boards d)); congruence).
    exfalso. by apply Hn.
  - intros b' Hb'. unfold Db.getBoard. simpl. f_equal.
    apply find_filter_id. intros r' Hr' [Hr'' _]. congruence.
Qed.

Lemma apiDeleteBoard_owner_witness :
  "alice" <> "" /\ NoDup (map Db.br_id (Db.boards HandlerProofs.db_fixture)) /\
  Db.getBoard HandlerProofs.db_fixture "P" = Some (Db.mkBoard "P" None (Some "alice") true) /\
  Db.b_ownerId (Db.mkBoard "P" None (Some "alice") true) = Some "alice" /\
  let res := apiDeleteBoard HandlerProofs.db_fixture (Some "alice") "P" in
  res.1 = 200%Z /\ Db.getBoard res.2 "P" = None /\ Db.getEvents res.2 "P" = [] /\
  (forall b', b' <> "P" -> Db.getBoard res.2 b' = Db.getBoard HandlerProofs.db_fixture b') /\
  Db.getSnapshot res.2 "P" = Db.getSnapshot HandlerProofs.db_fixture "P".
Proof.
  assert (H1 : NoDup (map Db.br_id (Db.boards HandlerProofs.db_fixture))).
  { simpl. apply NoDup_cons. split; [|apply NoDup_singleton].
    rewrite list_elem_of_singleton. discriminate. }
  assert (H2 : Db.getBoard HandlerProofs.db_fixture "P" = Some (Db.mkBoard "P" None (Some "alice") true))
    by reflexivity.
  split; [discriminate|]. split; [exact H1|]. split; [exact H2|]. split; [reflexivity|].
  exact (apiDeleteBoard_owner HandlerProofs.db_fixture "alice" "P" _ ltac:(discriminate) H1 H2
           eq_refl).
Defined.

(** On an existing board, [handleHello] denies exactly the connections
    [canAccessBoard] denies, for a verified id other than the empty
    string: it joins when [canAccessBoard] holds and otherwise replies
    [ACCESS_DENIED] and leaves the state unchanged. *)
Theorem canAccessBoard_decides_hello env st ws p now uuid anon board :
  Db.getBoard (db st) (h_boardId p) = Some board ->
  verifyClerkToken env (h_authToken p) <> Some "" ->
  if DbAdmin.canAccessBoard (db st) (h_boardId p) (verifyClerkToken env (h_authToken p))
  then handleHello env st ws p now uuid anon = hello_join env st ws p now uuid anon
  else exists reason,
    handleHello env st ws p now uuid anon = (st, send env ws (ACCESS_DENIED (h_boardId p) reason)).
Proof.
  intros Hg Hne. rewrite (HandlerProofs.handleHello_existing _ _ _ _ _ _ _ _ Hg), set_db_id.
  unfold DbAdmin.canAccessBoard. rewrite Hg.
  destruct (Db.b_isPrivate board); simpl; [|done].
  destruct (verifyClerkToken env (h_authToken p)) as [v|] eqn:Hv; simpl; [|by eexists].
  rewrite (bool_decide_false (v = "")) by congruence. simpl.
  destruct (decide (Db.b_ownerId board = Some v)) as [Heq|Hneq].
  - rewrite bool_decide_true by done. rewrite bool_decide_false by tauto. done.
  - rewrite bool_decide_false, bool_decide_true by done. by eexists.
Qed.

Lemma canAccessBoard_decides_hello_witness :
  let p := HandlerProofs.hello "P" (Some "tokB") None false None in
  Db.getBoard (db HandlerProofs.server_fixture) (h_boardId p) =
    Some (Db.mkBoard "P" None (Some "alice") true) /\
  verifyClerkToken HandlerProofs.env_clerk (h_authToken p) <> Some "" /\
  if DbAdmin.canAccessBoard (db HandlerProofs.server_fixture) (h_boardId p)
       (verifyClerkToken HandlerProofs.env_clerk (h_authToken p))
  then handleHello HandlerProofs.env_clerk HandlerProofs.server_fixture 1 p 0 "x" "y" =
       hello_join HandlerProofs.env_clerk HandlerProofs.server_fixture 1 p 0 "x" "y"
  else exists reason,
    handleHello HandlerProofs.env_clerk HandlerProofs.server_fixture 1 p 0 "x" "y" =
      (HandlerProofs.server_fixture,
       send HandlerProofs.env_clerk 1 (ACCESS_DENIED (h_boardId p) reason)).
Proof.
  intros p.
  assert (H1 : Db.getBoard (db HandlerProofs.server_fixture) (h_boardId p) =
                 Some (Db.mkBoard "P" None (Some "alice") true)) by reflexivity.
  assert (H2 : verifyClerkToken HandlerProofs.env_clerk (h_authToken p) <> Some "")
    by (vm_compute; congruence).
  split; [exact H1|]. split; [exact H2|].
  exact (canAccessBoard_decides_hello HandlerProofs.env_clerk HandlerProofs.server_fixture 1 p 0
           "x" "y" _ H1 H2).
Defined.

(** A [HELLO] for a board id that does not exist creates it as a public
    board with no name and no owner; since [deleteBoard] matches the
    owner, no user can delete that board's row afterwards. *)
Theorem hello_unknown_board_ownerless env st ws p now uuid anon :
  Db.getBoard (db st) (h_boardId p) = None ->
  let st' := (handleHello env st ws p now uuid anon).1 in
  Db.getBoard (db st') (h_boardId p) = Some (Db.mkBoard (h_boardId p) None None false) /\
  forall u, (DbAdmin.deleteBoard (db st') (h_boardId p) u).1 = false.
Proof.
  intros Hg st'.
  assert (Hf : List.find (fun r => bool_decide (Db.br_id r = h_boardId p)) (Db.boards (db st)) = None)
    by (unfold Db.getBoard in Hg; by destruct (List.find _ _)).
  assert (Hd : db st' = Db.ensureBoardExists (db st) (h_boardId p)).
  { unfold st', handleHello. rewrite Hg. cbv zeta.
    assert (Hg1 : Db.getBoard (Db.ensureBoardExists (db st) (h_boardId p))
                    (h_boardId p) = Some (Db.mkBoard (h_boardId p) None None false)).
    { unfold Db.getBoard, Db.ensureBoardExists. simpl. rewrite Hf. simpl.
      rewrite find_app, Hf. simpl. by rewrite bool_decide_true. }
    rewrite Hg1. cbn -[hello_join]. by rewrite hello_join_db. }
  rewrite Hd. unfold Db.getBoard, Db.ensureBoardExists. rewrite Hf. simpl.
  rewrite find_app, Hf. simpl. rewrite bool_decide_true by done. split; [done|].
  intros u. unfold DbAdmin.deleteBoard. simpl. rewrite filter_app.
  rewrite CursorProofs.filter_none.
  - rewrite filter_cons_False by (simpl; intros [_ H]; discriminate). done.
  - intros r Hin [Hb _]. pose proof (find_none _ _ Hf r Hin) as H. simpl in H.
    rewrite bool_decide_true in H by done. discriminate.
Qed.

Lemma hello_unknown_board_ownerless_witness :
  let p := HandlerProofs.hello "Z" (Some "tokA") None false None in
  Db.getBoard (db HandlerProofs.server_fixture) (h_boardId p) = None /\
  let st' := (handleHello HandlerProofs.env_clerk HandlerProofs.server_fixture 1 p 0 "x" "y").1 in
  Db.getBoard (db st') (h_boardId p) = Some (Db.mkBoard (h_boardId p) None None false) /\
  forall u, (DbAdmin.deleteBoard (db st') (h_boardId p) u).1 = false.
Proof.
  intros p. assert (H : Db.getBoard (db HandlerProofs.server_fixture) (h_boardId p) = None)
    by reflexivity.
  split; [exact H|].
  exact (hello_unknown_board_ownerless HandlerProofs.env_clerk HandlerProofs.server_fixture 1 p 0
           "x" "y" H).
Defined.

Lemma save_get d b s img :
  let d' := DbAdmin.saveSnapshot d b s img in
  Db.getSnapshot d' b = Some (Db.mkSnapshot b s img) /\
  (forall b', b' <> b -> Db.getSnapshot d' b' = Db.getSnapshot d b') /\
  Db.boards d' = Db.boards d /\ Db.drawing_events d' = Db.drawing_events d.
Proof.
  cbv zeta. unfold DbAdmin.saveSnapshot, Db.getSnapshot.
  case_bool_decide as Hin; simpl.
  - rewrite !find_map_replace by done. rewrite decide_True by done.
    rewrite bool_decide_true by done. split; [done|]. split; [|done].
    intros b' Hb'. rewrite find_map_replace by done. by rewrite decide_False.
  - rewrite find_app, find_key_None by done. simpl. rewrite bool_decide_true by done.
    split; [done|]. split; [|done]. intros b' Hb'. rewrite find_app.
    destruct (List.find _ (Db.board_snapshots d)); [done|]. simpl.
    by rewrite bool_decide_false.
Qed.

(** [saveSnapshot] then [getSnapshot] on the same board gives the saved
    seq and image, whether or not the board had a snapshot; other boards'
    snapshots, the boards and the events are unchanged. *)
Theorem saveSnapshot_getSnapshot d b s img :
  let d' := DbAdmin.saveSnapshot d b s img in
  Db.getSnapshot d' b = Some (Db.mkSnapshot b s img) /\
  (forall b', b' <> b -> Db.getSnapshot d' b' = Db.getSnapshot d b') /\
  Db.boards d' = Db.boards d /\ Db.drawing_events d' = Db.drawing_events d.
Proof. exact (save_get d b s img). Qed.


(** [maybeCompactBoard] never touches the events or the boards, nor
    another board's snapshot; it changes the database only when [seq] is
    a multiple of 5000, no compaction of the board is in progress, and
    the board has at least 5000 events, and then stores a snapshot of
    the board at [seq]. *)
Theorem maybeCompactBoard_effect toDataURL inProg d b s :
  let d' := maybeCompactBoard toDataURL inProg d b s in
  Db.drawing_events d' = Db.drawing_events d /\ Db.boards d' = Db.boards d /\
  (forall b', b' <> b -> Db.getSnapshot d' b' = Db.getSnapshot d b') /\
  (d' = d \/
   (s mod COMPACTION_THRESHOLD = 0 /\ (b ∉ inProg) /\
    COMPACTION_THRESHOLD <= length (Db.getEvents d b) /\
    exists img, Db.getSnapshot d' b = Some (Db.mkSnapshot b s img))).
Proof.
  cbv zeta. unfold maybeCompactBoard.
  destruct (Nat.eqb (s mod COMPACTION_THRESHOLD) 0) eqn:Hm; simpl;
    [|repeat split; [..|by left]; done].
  case_bool_decide as Hin; [repeat split; [..|by left]; done|].
  destruct (Nat.ltb (length (Db.getEvents d b)) COMPACTION_THRESHOLD) eqn:Hl;
    [repeat split; [..|by left]; done|].
  destruct (save_get d b s (toDataURL (Renderer.imageData
              (Renderer.renderEventsToSnapshot (Db.getEvents d b))))) as (Hg & Ho & Hb & He).
  split; [exact He|]. split; [exact Hb|]. split; [exact Ho|].
  right. apply Nat.eqb_eq in Hm. apply Nat.ltb_ge in Hl.
  split; [done|]. split; [done|]. split; [done|]. by eexists.
Qed.

(** Once [maybeCompactBoard] has compacted a board at [seq], a [HELLO]
    without [resumeFromSeq] is answered with the new snapshot (image of
    all the board's events, at [seq], with no offsets) and the events
    after [seq]. *)
Theorem compaction_then_full_sync toDataURL inProg d b s :
  s mod COMPACTION_THRESHOLD = 0 -> b ∉ inProg ->
  COMPACTION_THRESHOLD <= length (Db.getEvents d b) ->
  syncSnapshot (maybeCompactBoard toDataURL inProg d b s) b None =
    SYNC_SNAPSHOT b (Db.getEventsAfterSnapshot d b s) (Db.getMaxSeq d b) false
      (Some (mkSnapshotData
               (toDataURL (Renderer.imageData (Renderer.renderEventsToSnapshot (Db.getEvents d b))))
               s None None)).
Proof.
  intros Hm Hin Hl. unfold maybeCompactBoard.
  rewrite Hm. simpl. rewrite bool_decide_false by done.
  replace (Nat.ltb (length (Db.getEvents d b)) COMPACTION_THRESHOLD) with false
    by (symmetry; by apply Nat.ltb_ge).
  destruct (save_get d b s (toDataURL (Renderer.imageData
              (Renderer.renderEventsToSnapshot (Db.getEvents d b))))) as (Hg & _ & _ & He).
  unfold syncSnapshot. rewrite Hg. simpl.
  unfold Db.getEventsAfterSnapshot, Db.getMaxSeq. by rewrite He.
Qed.

(** 5000 events of board "B", seq 1 to 5000. *)
Definition big_db : Db.Db :=
  Db.mkDb [] (map (fun n => HandlerProofs.ev "B" n) (seq 1 5000)) [].

Lemma filter_board_map (l : list nat) b :
  filter (fun e => ev_boardId e = b) (map (fun n => HandlerProofs.ev b n) l) =
  map (fun n => HandlerProofs.ev b n) l.
Proof. induction l as [|n l IH]; [done|]. simpl. rewrite filter_cons_True by done. by f_equal. Qed.

Lemma getEvents_map_length bs ss (l : list nat) b :
  length (Db.getEvents (Db.mkDb bs (map (fun n => HandlerProofs.ev b n) l) ss) b) = length l.
Proof.
  unfold Db.getEvents. cbn [Db.drawing_events].
  rewrite (Permutation_length (merge_sort_Permutation Db.by_seq _)), filter_board_map.
  apply length_map.
Qed.

Lemma big_db_events : length (Db.getEvents big_db "B") = 5000.
Proof. unfold big_db. rewrite getEvents_map_length. apply length_seq. Qed.

Lemma compaction_then_full_sync_witness :
  5000 mod COMPACTION_THRESHOLD = 0 /\ ("B" ∉ @nil string) /\
  COMPACTION_THRESHOLD <= length (Db.getEvents big_db "B") /\
  syncSnapshot (maybeCompactBoard (fun _ => "png") [] big_db "B" 5000) "B" None =
    SYNC_SNAPSHOT "B" (Db.getEventsAfterSnapshot big_db "B" 5000) (Db.getMaxSeq big_db "B") false
      (Some (mkSnapshotData
               ((fun _ => "png") (Renderer.imageData
                  (Renderer.renderEventsToSnapshot (Db.getEvents big_db "B"))))
               5000 None None)).
Proof.
  assert (H1 : 5000 mod COMPACTION_THRESHOLD = 0) by reflexivity.
  assert (H2 : "B" ∉ @nil string) by apply not_elem_of_nil.
  assert (H3 : COMPACTION_THRESHOLD <= length (Db.getEvents big_db "B"))
    by (rewrite big_db_events; reflexivity).
  split; [exact H1|]. split; [exact H2|]. split; [exact H3|].
  exact (compaction_then_full_sync (fun _ => "png") [] big_db "B" 5000 H1 H2 H3).
Defined.

End HandlersX.

(* ------------------------------------------------------------------ *)
(** ** Rate limiter *)

Module RateX.
Import RateLimiter.

Section Burst.
Variables (rate cap : Q) (ws : conn) (t : Z).
Local Open Scope Q_scope.

Lemma burst_step buckets q :
  0 <= q <= cap ->
  tokens (getBucket buckets ws cap t) == q -> lastRefill (getBucket buckets ws cap t) = t ->
  (tryConsume buckets ws rate cap t).1 = Qle_bool 1 q /\
  tokens (getBucket (tryConsume buckets ws rate cap t).2 ws cap t) ==
    (if Qle_bool 1 q then q - 1 else q) /\
  lastRefill (getBucket (tryConsume buckets ws rate cap t).2 ws cap t) = t.
Proof.
  intros [Hq0 Hqc] Ht Hl. unfold tryConsume, refillBucket. rewrite Hl, Z.sub_diag.
  set (b := getBucket buckets ws cap t) in *.
  assert (Hm : Qmin cap (tokens b + inject_Z 0 / 1000 * rate) == q).
  { change (inject_Z 0 / 1000) with (0 # 1000).
    rewrite Q.min_r; [|rewrite Ht; lra]. rewrite Ht. lra. }
  simpl. unfold getBucket.
  destruct (Qle_bool 1 q) eqn:Hb.
  - apply Qle_bool_iff in Hb.
    assert (Hb' : Qle_bool 1 (Qmin cap (tokens b + inject_Z 0 / 1000 * rate)) = true)
      by (apply Qle_bool_iff; rewrite Hm; exact Hb).
    rewrite Hb'. cbn [fst snd]. rewrite JsMapFacts.get_set_eq. cbn [tokens lastRefill].
    split; [done|]. split; [|done]. rewrite Hm. lra.
  - assert (Hb' : Qle_bool 1 (Qmin cap (tokens b + inject_Z 0 / 1000 * rate)) = false).
    { destruct (Qle_bool 1 (Qmin _ _)) eqn:E; [|done].
      apply Qle_bool_iff in E. rewrite Hm in E. apply Qle_bool_iff in E. congruence. }
    rewrite Hb'. cbn [fst snd]. rewrite JsMapFacts.get_set_eq. cbn [tokens lastRefill].
    split; [done|]. split; [|done]. exact Hm.
Qed.

Lemma Qnat_S (m : nat) : inject_Z (Z.of_nat (S m)) == inject_Z (Z.of_nat m) + 1.
Proof. rewrite Nat2Z.inj_succ, <- Z.add_1_r, inject_Z_plus. reflexivity. Qed.

Lemma burst_run n (m : nat) buckets :
  inject_Z (Z.of_nat m) <= cap ->
  tokens (getBucket buckets ws cap t) == inject_Z (Z.of_nat m) ->
  lastRefill (getBucket buckets ws cap t) = t ->
  map (fun r => r.2) (limiter_run buckets rate cap (repeat (ws, t) n)) =
    repeat true (Nat.min n m) ++ repeat false (n - m)%nat.
Proof.
  revert m buckets. induction n as [|n IH]; intros m buckets Hc Ht Hl; [done|].
  cbn [repeat limiter_run].
  destruct (burst_step buckets (inject_Z (Z.of_nat m))) as (Hok & Ht' & Hl');
    [split; [apply RateLimiterProofs.Qnat_nonneg|exact Hc]|exact Ht|exact Hl|].
  destruct (tryConsume buckets ws rate cap t) as [ok bs'] eqn:E. simpl in Hok, Ht', Hl' |- *.
  destruct m as [|m].
  - assert (Hf : Qle_bool 1 (inject_Z (Z.of_nat 0)) = false) by reflexivity.
    rewrite Hf in Hok, Ht'. subst ok. simpl.
    rewrite (IH 0%nat bs' Hc Ht' Hl'). by rewrite Nat.min_0_r, Nat.sub_0_r.
  - assert (Hf : Qle_bool 1 (inject_Z (Z.of_nat (S m))) = true).
    { apply Qle_bool_iff. rewrite Qnat_S.
      pose proof (RateLimiterProofs.Qnat_nonneg m). lra. }
    rewrite Hf in Hok, Ht'. subst ok. simpl.
    rewrite Qnat_S in Ht', Hc.
    rewrite (IH m bs'); [done| |by rewrite Ht'; lra|exact Hl'].
    lra.
Qed.
End Burst.

(** Calls of a connection with no bucket yet, all at the same instant:
    exactly the first 30 [DRAW_EVENT]s (60 [CURSOR_MOVE]s) are admitted,
    and every later one at that instant is dropped. *)
Theorem burst_admits_capacity buckets ws t n :
  JsMap.get buckets ws = None ->
  map (fun r => r.2) (limiter_run buckets DRAW_REFILL_RATE DRAW_BUCKET_SIZE (repeat (ws, t) n)) =
    repeat true (Nat.min n 30) ++ repeat false (n - 30) /\
  map (fun r => r.2) (limiter_run buckets CURSOR_REFILL_RATE CURSOR_BUCKET_SIZE (repeat (ws, t) n)) =
    repeat true (Nat.min n 60) ++ repeat false (n - 60).
Proof.
  intros Hn. unfold getBucket. split.
  - apply burst_run; [apply Qle_refl|unfold getBucket; rewrite Hn; reflexivity|
      unfold getBucket; by rewrite Hn].
  - apply burst_run; [apply Qle_refl|unfold getBucket; rewrite Hn; reflexivity|
      unfold getBucket; by rewrite Hn].
Qed.

Lemma burst_admits_capacity_witness :
  JsMap.get (@nil (conn * Bucket)) 1 = None /\
  map (fun r => r.2) (limiter_run [] DRAW_REFILL_RATE DRAW_BUCKET_SIZE (repeat (1, 0%Z) 35)) =
    repeat true (Nat.min 35 30) ++ repeat false (35 - 30) /\
  map (fun r => r.2) (limiter_run [] CURSOR_REFILL_RATE CURSOR_BUCKET_SIZE (repeat (1, 0%Z) 35)) =
    repeat true (Nat.min 35 60) ++ repeat false (35 - 60).
Proof. split; [reflexivity|]. apply burst_admits_capacity. reflexivity. Defined.

(** A connection whose bucket holds no negative count is admitted again
    17 ms after its last refill for [DRAW_EVENT] and 9 ms after it for
    [CURSOR_MOVE], and an empty bucket is still refused one millisecond
    earlier. *)
Theorem refill_readmits buckets ws b now :
  JsMap.get buckets ws = Some b -> (0 <= tokens b)%Q ->
  ((17 <= now - lastRefill b)%Z -> (checkDrawLimit buckets ws now).1 = true) /\
  ((9 <= now - lastRefill b)%Z -> (checkCursorLimit buckets ws now).1 = true) /\
  ((tokens b == 0)%Q -> now = (lastRefill b + 16)%Z -> (checkDrawLimit buckets ws now).1 = false) /\
  ((tokens b == 0)%Q -> now = (lastRefill b + 8)%Z -> (checkCursorLimit buckets ws now).1 = false).
Proof.
  intros Hg H0.
  unfold checkDrawLimit, checkCursorLimit, tryConsume, refillBucket, getBucket.
  rewrite Hg. unfold DRAW_BUCKET_SIZE, DRAW_REFILL_RATE, CURSOR_BUCKET_SIZE, CURSOR_REFILL_RATE.
  cbn [tokens lastRefill].
  split; [|split; [|split]].
  - intros He. rewrite Zle_Qle in He.
    assert (H1 : Qle_bool 1 (Qmin 30 (tokens b + inject_Z (now - lastRefill b) / 1000 * 60)) = true).
    { apply Qle_bool_iff, Q.min_glb; [lra|]. unfold Qdiv. change (/ 1000) with (1 # 1000).
      change (inject_Z 17) with (17 # 1) in He. lra. }
    by rewrite H1.
  - intros He. rewrite Zle_Qle in He.
    assert (H1 : Qle_bool 1 (Qmin 60 (tokens b + inject_Z (now - lastRefill b) / 1000 * 120)) = true).
    { apply Qle_bool_iff, Q.min_glb; [lra|]. unfold Qdiv. change (/ 1000) with (1 # 1000).
      change (inject_Z 9) with (9 # 1) in He. lra. }
    by rewrite H1.
  - intros Hz ->. replace (lastRefill b + 16 - lastRefill b)%Z with 16%Z by ring.
    destruct (Qle_bool 1 _) eqn:E; [|done]. apply Qle_bool_iff in E.
    pose proof (Q.le_min_r 30 (tokens b + inject_Z 16 / 1000 * 60)) as Hm.
    unfold Qdiv in Hm, E. change (/ 1000) with (1 # 1000) in Hm, E.
    change (inject_Z 16) with (16 # 1) in Hm, E. change (inject_Z 8) with (8 # 1) in Hm, E. lra.
  - intros Hz ->. replace (lastRefill b + 8 - lastRefill b)%Z with 8%Z by ring.
    destruct (Qle_bool 1 _) eqn:E; [|done]. apply Qle_bool_iff in E.
    pose proof (Q.le_min_r 60 (tokens b + inject_Z 8 / 1000 * 120)) as Hm.
    unfold Qdiv in Hm, E. change (/ 1000) with (1 # 1000) in Hm, E.
    change (inject_Z 16) with (16 # 1) in Hm, E. change (inject_Z 8) with (8 # 1) in Hm, E. lra.
Qed.

Definition bucket_at : Bucket := mkBucket (1 # 2) 100.

Lemma refill_readmits_witness :
  JsMap.get [(1, bucket_at)] 1 = Some bucket_at /\ (0 <= tokens bucket_at)%Q /\
  ((17 <= 117 - lastRefill bucket_at)%Z -> (checkDrawLimit [(1, bucket_at)] 1 117).1 = true) /\
  ((9 <= 117 - lastRefill bucket_at)%Z -> (checkCursorLimit [(1, bucket_at)] 1 117).1 = true) /\
  ((tokens bucket_at == 0)%Q -> 117%Z = (lastRefill bucket_at + 16)%Z ->
   (checkDrawLimit [(1, bucket_at)] 1 117).1 = false) /\
  ((tokens bucket_at == 0)%Q -> 117%Z = (lastRefill bucket_at + 8)%Z ->
   (checkCursorLimit [(1, bucket_at)] 1 117).1 = false).
Proof.
  assert (H1 : JsMap.get [(1, bucket_at)] 1 = Some bucket_at) by reflexivity.
  assert (H2 : (0 <= tokens bucket_at)%Q) by (unfold bucket_at; simpl; lra).
  split; [exact H1|]. split; [exact H2|].
  exact (refill_readmits [(1, bucket_at)] 1 bucket_at 117 H1 H2).
Defined.

End RateX.

(* ------------------------------------------------------------------ *)
(** ** Shared helpers: names, UUIDs, stroke simplification *)

Module SharedX.
Import SharedMore.
Import Stdlib.Strings.Ascii.

Lemma Qfloor_range (r : Q) (n : Z) :
  (0 <= r < 1)%Q -> (0 < n)%Z -> (0 <= Qfloor (r * inject_Z n) < n)%Z.
Proof.
  intros [H0 H1] Hn. assert (Hn' : (0 < inject_Z n)%Q) by (rewrite Zlt_Qlt in Hn; exact Hn).
  split.
  - pose proof (Qfloor_resp_le 0 (r * inject_Z n)) as H. change (Qfloor 0) with 0%Z in H.
    apply H. apply Qmult_le_0_compat; lra.
  - pose proof (Qfloor_le (r * inject_Z n)) as H.
    assert (Hlt : (r * inject_Z n < inject_Z n)%Q).
    { apply Qlt_le_trans with (1 * inject_Z n)%Q; [|lra].
      apply Qmult_lt_r; lra. }
    assert (Hq : (inject_Z (Qfloor (r * inject_Z n)) < inject_Z n)%Q) by lra.
    rewrite <- Zlt_Qlt in Hq. exact Hq.
Qed.

(** [generateAnonymousName] with [Math.random()] in [[0, 1)] gives
    ["Anonymous "] followed by one of the animal names. *)
Theorem generateAnonymousName_animal r :
  (0 <= r < 1)%Q ->
  exists animal, In animal ANIMALS /\ generateAnonymousName r = String.append "Anonymous " animal.
Proof.
  intros Hr. unfold generateAnonymousName.
  pose proof (Qfloor_range r (Z.of_nat (length ANIMALS)) Hr ltac:(simpl; lia)) as [H0 H1].
  rewrite (proj2 (Z.ltb_ge _ 0) H0).
  destruct (nth_error ANIMALS _) as [a|] eqn:E.
  - exists a. split; [exact (nth_error_In _ _ E)|done].
  - exfalso. apply nth_error_None in E. simpl length in *. lia.
Qed.

Lemma generateAnonymousName_animal_witness :
  (0 <= 1 # 2 < 1)%Q /\
  exists animal, In animal ANIMALS /\
    generateAnonymousName (1 # 2) = String.append "Anonymous " animal.
Proof.
  assert (H : (0 <= 1 # 2 < 1)%Q) by (split; unfold Qle, Qlt; simpl; lia).
  split; [exact H|]. exact (generateAnonymousName_animal (1 # 2) H).
Defined.

(** The characters a UUID template allows at each position: any
    lowercase hex digit for [x], one of [8], [9], [a], [b] for [y], the
    character itself otherwise. *)
Definition char_ok (p c : ascii) : Prop :=
  if Ascii.eqb p "x"%char then In c (String.list_ascii_of_string HEX)
  else if Ascii.eqb p "y"%char then In c ["8"; "9"; "a"; "b"]%char
  else c = p.

Fixpoint shape_ok (pat s : string) : Prop :=
  match pat, s with
  | EmptyString, EmptyString => True
  | String p pat', String c s' => char_ok p c /\ shape_ok pat' s'
  | _, _ => False
  end.

Lemma or0_digit (r : Q) : (0 <= r < 1)%Q -> (0 <= or0 (r * 16) <= 15)%Z.
Proof.
  intros Hr. pose proof (Qfloor_range r 16 Hr ltac:(lia)) as [H0 H1].
  unfold or0. change (16 : Q) with (inject_Z 16).
  assert (Hle : Qle_bool 0 (r * inject_Z 16) = true).
  { apply Qle_bool_iff. apply Qmult_le_0_compat; [lra|]. unfold Qle; simpl; lia. }
  rewrite Hle. unfold Shared.toInt32.
  rewrite Z.mod_small by lia. rewrite (proj2 (Z.leb_gt _ _)) by lia. lia.
Qed.

Lemma hex_cases (v : Z) :
  (0 <= v <= 15)%Z ->
  exists d, toString16 v = String d EmptyString /\ char_ok "x" d /\
  exists d', toString16 (Z.lor (Z.land v 3) 8) = String d' EmptyString /\ char_ok "y" d'.
Proof.
  intros Hv.
  assert (v = 0 \/ v = 1 \/ v = 2 \/ v = 3 \/ v = 4 \/ v = 5 \/ v = 6 \/ v = 7 \/ v = 8 \/
          v = 9 \/ v = 10 \/ v = 11 \/ v = 12 \/ v = 13 \/ v = 14 \/ v = 15)%Z as Hc by lia.
  repeat (destruct Hc as [->|Hc]; [eexists; split; [reflexivity|];
    split; [vm_compute; tauto|]; eexists; split; [reflexivity|vm_compute; tauto]|]).
  subst. eexists; split; [reflexivity|]. split; [vm_compute; tauto|].
  eexists; split; [reflexivity|vm_compute; tauto].
Qed.

Lemma uuid_fill_shape tmpl rand k :
  (forall j, (0 <= rand j < 1)%Q) -> shape_ok tmpl (uuid_fill tmpl rand k).
Proof.
  intros Hr. revert k. induction tmpl as [|c t IH]; intros k; simpl; [done|].
  destruct (Ascii.eqb c "x"%char) eqn:Ex; simpl.
  - apply Ascii.eqb_eq in Ex. subst c. unfold uuid_char. simpl.
    destruct (hex_cases _ (or0_digit _ (Hr k))) as (d & -> & Hd & _). simpl.
    split; [exact Hd|apply IH].
  - destruct (Ascii.eqb c "y"%char) eqn:Ey; simpl.
    + apply Ascii.eqb_eq in Ey. subst c. unfold uuid_char. simpl.
      destruct (hex_cases _ (or0_digit _ (Hr k))) as (d & _ & _ & d' & -> & Hd'). simpl.
      split; [exact Hd'|apply IH].
    + split; [|apply IH]. unfold char_ok. by rewrite Ex, Ey.
Qed.

Lemma shape_ok_length pat s : shape_ok pat s -> String.length s = String.length pat.
Proof.
  revert s. induction pat as [|p pat IH]; intros [|c s]; simpl; try done.
  intros [_ H]. f_equal. by apply IH.
Qed.

(** [generateUUID] with every [Math.random()] value in [[0, 1)] gives a
    36-character string of the form
    [xxxxxxxx-xxxx-4xxx-yxxx-xxxxxxxxxxxx]: a lowercase hex digit at each
    [x], one of [8], [9], [a], [b] at [y], the dashes and the [4] in place. *)
Theorem generateUUID_shape rand :
  (forall k, (0 <= rand k < 1)%Q) ->
  String.length (generateUUID rand) = 36 /\ shape_ok UUID_TEMPLATE (generateUUID rand).
Proof.
  intros Hr. pose proof (uuid_fill_shape UUID_TEMPLATE rand 0 Hr) as H.
  unfold generateUUID. split; [|exact H]. rewrite (shape_ok_length _ _ H). reflexivity.
Qed.

Definition rand_half (k : nat) : Q := 1 # 2.

Lemma generateUUID_shape_witness :
  (forall k, (0 <= rand_half k < 1)%Q) /\
  String.length (generateUUID rand_half) = 36 /\ shape_ok UUID_TEMPLATE (generateUUID rand_half).
Proof.
  assert (H : forall k, (0 <= rand_half k < 1)%Q)
    by (intros k; unfold rand_half; split; unfold Qle, Qlt; simpl; lia).
  split; [exact H|]. exact (generateUUID_shape rand_half H).
Defined.


Section SimplifyProps.
Variable sqrt : Q -> Q.

(** [covers eps points r]: [r] keeps the first and the last of [points]
    and some points between them, in order; every dropped point lies
    within [eps] of the line through the two kept points around it. *)
Inductive covers (eps : Q) : list point -> list point -> Prop :=
| covers_one a : covers eps [a] [a]
| covers_seg a I b rest r :
    Forall (fun p => (perpendicularDistance sqrt p a b <= eps)%Q) I ->
    covers eps (b :: rest) (b :: r) ->
    covers eps (a :: I ++ b :: rest) (a :: b :: r).

Lemma covers_head eps l r :
  covers eps l r -> exists a l' r', l = a :: l' /\ r = a :: r'.
Proof. intros []; eauto. Qed.

Lemma covers_app eps X c Y L R :
  covers eps (X ++ [c]) L -> covers eps (c :: Y) R ->
  covers eps (X ++ c :: Y) (removelast L ++ R).
Proof.
  intros H. remember (X ++ [c]) as XL eqn:E. revert X E.
  induction H as [a|a I b rest r HF Hc IH]; intros X E HR.
  - destruct X as [|x X]; simpl in E.
    + injection E as ->. exact HR.
    + injection E as _ E. destruct X; discriminate.
  - destruct X as [|x X1]; simpl in E.
    { injection E as _ E. destruct I; discriminate. }
    injection E as <- E.
    assert (HX : exists X', X1 = I ++ X' /\ b :: rest = X' ++ [c]).
    { apply app_eq_app in E as [l [[-> E2]|[-> E2]]].
      - destruct l as [|y l]; simpl in E2.
        + exists []. rewrite !app_nil_r. split; [done|]. simpl. by rewrite E2.
        + injection E2 as _ E2. destruct l; discriminate.
      - by exists l. }
    destruct HX as (X' & -> & HX').
    pose proof (IH X' HX' HR) as Hcov.
    assert (HT : exists T, X' ++ c :: Y = b :: T).
    { destruct X' as [|x' X'']; simpl in *.
      - injection HX' as -> _. by exists Y.
      - injection HX' as -> _. by eexists. }
    destruct HT as [T HT]. rewrite HT in Hcov.
    destruct (covers_head _ _ _ Hcov) as (b' & l' & U & Hb & HU).
    injection Hb as <- _.
    change ((a :: I ++ X') ++ c :: Y) with (a :: ((I ++ X') ++ c :: Y)).
    rewrite <- app_assoc, HT.
    change (removelast (a :: b :: r) ++ R) with (a :: (removelast (b :: r) ++ R)).
    rewrite HU. apply covers_seg; [exact HF|]. by rewrite <- HU.
Qed.

Lemma max_dist_best first last ps i best :
  max_dist sqrt first last ps i best = best \/
  ((i <= (max_dist sqrt first last ps i best).2 < i + length ps)%nat /\
   (best.1 < (max_dist sqrt first last ps i best).1)%Q).
Proof.
  revert i best. induction ps as [|p ps IH]; intros i best; simpl; [by left|].
  destruct (Qle_bool (perpendicularDistance sqrt p first last) best.1) eqn:Hq; simpl.
  - destruct (IH (S i) best) as [H|[H1 H2]]; [by left|right]. split; [lia|done].
  - apply not_true_iff_false in Hq. rewrite Qle_bool_iff in Hq. apply Qnot_le_lt in Hq.
    right. destruct (IH (S i) (perpendicularDistance sqrt p first last, i)) as [H|[H1 H2]].
    + rewrite H. simpl. split; [lia|done].
    + simpl in H2. split; [lia|]. eapply Qlt_trans; eauto.
Qed.

Lemma max_dist_bound first last ps i best :
  (best.1 <= (max_dist sqrt first last ps i best).1)%Q /\
  forall p, In p ps -> (perpendicularDistance sqrt p first last <= (max_dist sqrt first last ps i best).1)%Q.
Proof.
  revert i best. induction ps as [|p ps IH]; intros i best; simpl.
  - split; [apply Qle_refl|done].
  - set (best' := if negb (Qle_bool (perpendicularDistance sqrt p first last) best.1)
                  then (perpendicularDistance sqrt p first last, i) else best).
    destruct (IH (S i) best') as [H1 H2].
    assert (Hb : (best.1 <= best'.1)%Q /\ (perpendicularDistance sqrt p first last <= best'.1)%Q).
    { unfold best'. destruct (Qle_bool (perpendicularDistance sqrt p first last) best.1) eqn:Hq; simpl.
      - apply Qle_bool_iff in Hq. split; [apply Qle_refl|done].
      - apply not_true_iff_false in Hq. rewrite Qle_bool_iff in Hq. apply Qnot_le_lt in Hq.
        split; [apply Qlt_le_weak, Hq|apply Qle_refl]. }
    split; [eapply Qle_trans; [apply Hb|exact H1]|].
    intros q [<-|Hq]; [eapply Qle_trans; [apply Hb|exact H1]|by apply H2].
Qed.

Lemma max_dist_const first last ps i best :
  (forall p, In p ps -> (perpendicularDistance sqrt p first last <= best.1)%Q) ->
  max_dist sqrt first last ps i best = best.
Proof.
  revert i. induction ps as [|p ps IH]; intros i H; simpl; [done|].
  assert (Hp : Qle_bool (perpendicularDistance sqrt p first last) best.1 = true)
    by (apply Qle_bool_iff, H; by left).
  rewrite Hp. simpl. apply IH. intros q Hq. apply H. by right.
Qed.

Lemma covers_short eps l : l <> [] -> (length l <= 2)%nat -> covers eps l l.
Proof.
  intros Hne Hl. destruct l as [|a [|b [|c l]]]; simpl in Hl; try done; try lia.
  - apply covers_one.
  - apply (covers_seg eps a [] b [] []); [constructor|apply covers_one].
Qed.

Lemma length_removelast_cons {A} (l : list A) (d : A) :
  l <> [] -> length l = S (length (removelast l)).
Proof.
  intros Hne. rewrite (@app_removelast_last _ l d Hne) at 1.
  rewrite length_app. simpl. lia.
Qed.

(** [simplifyStroke] with a nonnegative [epsilon] finishes on any
    nonempty stroke (given as many nested calls as the stroke has points
    beyond two) and returns a polyline that [covers] the stroke: it keeps
    the first and the last point, keeps the others in order, and every
    dropped point lies within [epsilon] of the kept segment around it. *)
Theorem simplify_covers eps fuel points :
  (0 <= eps)%Q -> points <> [] -> (length points <= fuel + 2)%nat ->
  exists r, simplify sqrt fuel points eps = Some r /\ covers eps points r.
Proof.
  revert points. induction fuel as [|f IH]; intros points Heps Hne Hlen.
  - destruct points as [|first rest]; [done|].
    exists (first :: rest). cbn [simplify].
    rewrite (proj2 (Nat.leb_le (length (first :: rest)) 2)) by (simpl in *; lia).
    split; [done|]. by apply covers_short.
  - destruct points as [|first rest]; [done|].
    destruct (Nat.leb (length (first :: rest)) 2) eqn:Hl.
    { exists (first :: rest). simpl in Hl |- *. rewrite Hl.
      split; [done|]. apply covers_short; [done|]. simpl. by apply Nat.leb_le. }
    apply Nat.leb_gt in Hl. simpl in Hl.
    assert (Hrest : rest <> []) by (intros ->; simpl in Hl; lia).
    pose proof (length_removelast_cons rest first Hrest) as Hrl.
    cbn [simplify]. rewrite (proj2 (Nat.leb_gt _ 2)) by (simpl; lia).
    destruct (max_dist sqrt first (List.last rest first) (removelast rest) 1 (0%Q, 0))
      as [md mi] eqn:Hmd.
    destruct (negb (Qle_bool md eps)) eqn:Hc.
    + apply negb_true_iff, not_true_iff_false in Hc. rewrite Qle_bool_iff in Hc.
      apply Qnot_le_lt in Hc.
      assert (Hmi : (1 <= mi < 1 + length (removelast rest))%nat).
      { destruct (max_dist_best first (List.last rest first) (removelast rest) 1 (0%Q, 0))
          as [H|[H1 H2]]; rewrite Hmd in *; simpl in *.
        - injection H as -> ->. exfalso. lra.
        - exact H1. }
      set (pts := first :: rest) in *.
      assert (Hlp : length pts = S (length rest)) by done.
      destruct (lookup_lt_is_Some_2 pts mi ltac:(lia)) as [c Hcm].
      assert (HL1 : take (mi + 1) pts <> []).
      { rewrite Nat.add_1_r, (take_S_r _ _ _ Hcm). intros Hn.
        apply app_eq_nil in Hn as [_ Hn]. discriminate. }
      assert (HL2 : (length (take (mi + 1) pts) <= f + 2)%nat)
        by (rewrite length_take; lia).
      destruct (IH (take (mi + 1) pts) Heps HL1 HL2) as (L & HL & HcL).
      assert (HR1 : drop mi pts <> []) by (rewrite (drop_S _ _ _ Hcm); discriminate).
      assert (HR2 : (length (drop mi pts) <= f + 2)%nat) by (rewrite length_drop; lia).
      destruct (IH (drop mi pts) Heps HR1 HR2) as (R & HR & HcR).
      rewrite HL, HR. eexists; split; [reflexivity|].
      rewrite Nat.add_1_r, (take_S_r _ _ _ Hcm) in HcL.
      rewrite (drop_S _ _ _ Hcm) in HcR.
      pose proof (covers_app _ _ _ _ _ _ HcL HcR) as Hcov.
      by rewrite (take_drop_middle _ _ _ Hcm) in Hcov.
    + apply negb_false_iff in Hc. apply Qle_bool_iff in Hc.
      eexists; split; [reflexivity|].
      assert (HF : Forall (fun p => (perpendicularDistance sqrt p first (List.last rest first) <= eps)%Q)
                     (removelast rest)).
      { apply Forall_forall. intros p Hp.
        destruct (max_dist_bound first (List.last rest first) (removelast rest) 1 (0%Q, 0))
          as [_ H2].
        rewrite Hmd in H2. eapply Qle_trans; [apply H2, list_elem_of_In, Hp|exact Hc]. }
      pose proof (covers_seg eps first (removelast rest) (List.last rest first) [] [] HF
                    (covers_one _ _)) as Hcov.
      by rewrite <- (@app_removelast_last _ rest first Hrest) in Hcov.
Qed.

(** With a negative [epsilon], [simplifyStroke] on three or more points
    whose inner points all lie on the line through the endpoints never
    returns: the maximum distance stays [0] at index [0], so the right half
    [points.slice(0)] is the whole stroke again, at every depth. *)
Theorem simplify_negative_eps_diverges eps fuel first rest :
  (eps < 0)%Q -> (2 <= length rest)%nat ->
  (forall p, In p (removelast rest) -> (perpendicularDistance sqrt p first (List.last rest first) <= 0)%Q) ->
  simplify sqrt fuel (first :: rest) eps = None.
Proof.
  intros Heps Hl Hin. induction fuel as [|f IH].
  - cbn [simplify]. by rewrite (proj2 (Nat.leb_gt (length (first :: rest)) 2)) by (simpl; lia).
  - cbn [simplify]. rewrite (proj2 (Nat.leb_gt _ 2)) by (simpl; lia).
    rewrite (max_dist_const _ _ _ _ (0%Q, 0) Hin).
    assert (Hc : Qle_bool 0 eps = false).
    { apply not_true_iff_false. rewrite Qle_bool_iff. lra. }
    rewrite Hc. simpl negb. cbn iota.
    change (drop 0 (first :: rest)) with (first :: rest). rewrite IH.
    by destruct (simplify sqrt f (take (0 + 1) (first :: rest)) eps).
Qed.

End SimplifyProps.

Definition sqrt_id (q : Q) : Q := q.

Lemma simplify_covers_witness :
  (0 <= 1 # 2)%Q /\ [(0, 0); (1, 1); (2, 0); (3, 0)]%Q <> [] /\
  (length [(0, 0); (1, 1); (2, 0); (3, 0)]%Q <= 2 + 2)%nat /\
  exists r, simplify sqrt_id 2 [(0, 0); (1, 1); (2, 0); (3, 0)]%Q (1 # 2) = Some r /\
            covers sqrt_id (1 # 2) [(0, 0); (1, 1); (2, 0); (3, 0)]%Q r.
Proof.
  assert (H0 : (0 <= 1 # 2)%Q) by (unfold Qle; simpl; lia).
  split; [exact H0|]. split; [discriminate|]. split; [simpl; lia|].
  apply (simplify_covers sqrt_id (1 # 2) 2 _ H0); [discriminate|simpl; lia].
Defined.

Lemma simplify_negative_eps_diverges_witness :
  (-1 < 0)%Q /\ (2 <= length [(1, 0); (2, 0)]%Q)%nat /\
  (forall p, In p (removelast [(1, 0); (2, 0)]%Q) ->
     (perpendicularDistance sqrt_id p (0, 0)%Q (List.last [(1, 0); (2, 0)]%Q (0, 0)%Q) <= 0)%Q) /\
  simplify sqrt_id 7 ((0, 0) :: [(1, 0); (2, 0)])%Q (-1) = None.
Proof.
  assert (H0 : (-1 < 0)%Q) by (unfold Qlt; simpl; lia).
  assert (H1 : (2 <= length [(1, 0); (2, 0)]%Q)%nat) by (simpl; lia).
  assert (H2 : forall p, In p (removelast [(1, 0); (2, 0)]%Q) ->
     (perpendicularDistance sqrt_id p (0, 0)%Q (List.last [(1, 0); (2, 0)]%Q (0, 0)%Q) <= 0)%Q).
  { intros p [<-|[]]. apply Qle_bool_iff. vm_compute. reflexivity. }
  split; [exact H0|]. split; [exact H1|]. split; [exact H2|].
  exact (simplify_negative_eps_diverges sqrt_id (-1) 7 (0, 0)%Q _ H0 H1 H2).
Defined.

End SharedX.

(* ------------------------------------------------------------------ *)
(** ** Snapshot renderer: bounding box, canvas size, line splitting *)

Module RendererX.
Import Renderer.
Local Open Scope Q_scope.

(** The rectangles [(x0, y0, x1, y1)] that [calculateBounds] folds into
    the box for one event that is drawn: one per point of a stroke, one
    for a shape, one for a text. *)
Definition extent_rects (e : DrawEvent) : list (Q * Q * Q * Q) :=
  match ev_type e, ev_payload e with
  | ETstroke, StrokePayload _ _ width _ points =>
      map (fun '(x, y) => (x - width, y - width, x + width, y + width)) points
  | ETshape, ShapePayload _ _ start end_ _ width _ =>
      [(Qmin (start.1 - width) (end_.1 - width), Qmin (start.2 - width) (end_.2 - width),
        Qmax (start.1 + width) (end_.1 + width), Qmax (start.2 + width) (end_.2 + width))]
  | ETtext, TextPayload _ text position _ fontSize =>
      let lines := split_nl text "" in
      [(position.1, position.2,
        position.1 + inject_Z (Z.of_nat (foldr Nat.max 0%nat (map String.length lines)))
                     * fontSize * (6 # 10),
        position.2 + inject_Z (Z.of_nat (length lines)) * fontSize * (13 # 10))]
  | _, _ => []
  end.

Definition extend_rect (bb : option BoundingBox) (r : Q * Q * Q * Q) : option BoundingBox :=
  let '(x0, y0, x1, y1) := r in extend bb x0 y0 x1 y1.

Definition box_has (b : BoundingBox) (r : Q * Q * Q * Q) : Prop :=
  let '(x0, y0, x1, y1) := r in
  minX b <= x0 /\ minY b <= y0 /\ x1 <= maxX b /\ y1 <= maxY b.

Definition covered (bb : option BoundingBox) (r : Q * Q * Q * Q) : Prop :=
  match bb with Some b => box_has b r | None => False end.

Definition box_ordered (bb : option BoundingBox) : Prop :=
  match bb with Some b => minX b <= maxX b /\ minY b <= maxY b | None => True end.

Definition rect_ordered (r : Q * Q * Q * Q) : Prop :=
  let '(x0, y0, x1, y1) := r in x0 <= x1 /\ y0 <= y1.

(** The sizes an event is drawn with: stroke and shape widths, text font
    sizes. *)
Definition sizes_nonneg (e : DrawEvent) : Prop :=
  match ev_payload e with
  | StrokePayload _ _ width _ _ => 0 <= width
  | ShapePayload _ _ _ _ _ width _ => 0 <= width
  | TextPayload _ _ _ _ fontSize => 0 <= fontSize
  | _ => True
  end.

Lemma bounds_step_rects del bb e :
  bounds_step del bb e =
  if renders del e then fold_left extend_rect (extent_rects e) bb else bb.
Proof.
  unfold bounds_step, renders, extent_rects.
  destruct (ev_type e), (ev_payload e); try reflexivity;
    case_bool_decide; simpl; try reflexivity.
  revert bb. induction points as [|[x y] ps IH]; intros bb; simpl; [done|apply IH].
Qed.

Lemma extend_rect_keeps bb r r' : covered bb r' -> covered (extend_rect bb r) r'.
Proof.
  destruct bb as [b|]; [|done]. destruct r as [[[x0 y0] x1] y1], r' as [[[a0 b0] a1] b1].
  simpl. intros (H1 & H2 & H3 & H4).
  repeat split; [eapply Qle_trans; [apply Q.le_min_l|exact H1]
                |eapply Qle_trans; [apply Q.le_min_l|exact H2]
                |eapply Qle_trans; [exact H3|apply Q.le_max_l]
                |eapply Qle_trans; [exact H4|apply Q.le_max_l]].
Qed.

Lemma extend_rect_new bb r : covered (extend_rect bb r) r.
Proof.
  destruct r as [[[x0 y0] x1] y1]. destruct bb as [b|]; simpl.
  - repeat split; [apply Q.le_min_r|apply Q.le_min_r|apply Q.le_max_r|apply Q.le_max_r].
  - repeat split; apply Qle_refl.
Qed.

Lemma fold_extend_keeps rs bb r : covered bb r -> covered (fold_left extend_rect rs bb) r.
Proof.
  revert bb. induction rs as [|r' rs IH]; intros bb H; simpl; [done|].
  apply IH, extend_rect_keeps, H.
Qed.

Lemma fold_extend_new rs bb r : In r rs -> covered (fold_left extend_rect rs bb) r.
Proof.
  revert bb. induction rs as [|r' rs IH]; intros bb H; simpl; [done|].
  destruct H as [<-|H]; [apply fold_extend_keeps, extend_rect_new|by apply IH].
Qed.

Lemma bounds_fold_keeps del events bb r :
  covered bb r -> covered (fold_left (bounds_step del) events bb) r.
Proof.
  revert bb. induction events as [|e es IH]; intros bb H; simpl; [done|].
  apply IH. rewrite bounds_step_rects. destruct (renders del e); [|done].
  by apply fold_extend_keeps.
Qed.

Lemma bounds_fold_new del events bb e r :
  In e events -> renders del e = true -> In r (extent_rects e) ->
  covered (fold_left (bounds_step del) events bb) r.
Proof.
  revert bb. induction events as [|e' es IH]; intros bb He Hr Hin; simpl; [done|].
  destruct He as [<-|He]; [|by apply IH].
  apply bounds_fold_keeps. rewrite bounds_step_rects, Hr. by apply fold_extend_new.
Qed.

Lemma extend_rect_ordered bb r :
  box_ordered bb -> rect_ordered r -> box_ordered (extend_rect bb r).
Proof.
  destruct r as [[[x0 y0] x1] y1]. intros Hb [Hx Hy]. destruct bb as [b|]; simpl; [|done].
  destruct Hb as [Hbx Hby]. split.
  - eapply Qle_trans; [apply Q.le_min_r|]. eapply Qle_trans; [exact Hx|apply Q.le_max_r].
  - eapply Qle_trans; [apply Q.le_min_r|]. eapply Qle_trans; [exact Hy|apply Q.le_max_r].
Qed.

Lemma sizes_nonneg_rects e r : sizes_nonneg e -> In r (extent_rects e) -> rect_ordered r.
Proof.
  unfold sizes_nonneg, extent_rects.
  destruct (ev_type e), (ev_payload e) as [sid col w op pts|sid st s en col w op|sid txt pos col fs|ids|];
    simpl; try done.
  - intros Hw Hin. apply in_map_iff in Hin as ([x y] & <- & _). simpl. split; lra.
  - intros Hw [<-|[]]. simpl. split.
    + eapply Qle_trans; [apply Q.le_min_l|]. eapply Qle_trans; [|apply Q.le_max_l]. lra.
    + eapply Qle_trans; [apply Q.le_min_l|]. eapply Qle_trans; [|apply Q.le_max_l]. lra.
  - intros Hfs [<-|[]]. simpl.
    assert (H6 : forall n : nat, 0 <= inject_Z (Z.of_nat n) * fs * (6 # 10)).
    { intros n. apply Qmult_le_0_compat; [|unfold Qle; simpl; lia].
      apply Qmult_le_0_compat; [|exact Hfs].
      change 0 with (inject_Z 0). rewrite <- Zle_Qle. lia. }
    assert (H13 : forall n : nat, 0 <= inject_Z (Z.of_nat n) * fs * (13 # 10)).
    { intros n. apply Qmult_le_0_compat; [|unfold Qle; simpl; lia].
      apply Qmult_le_0_compat; [|exact Hfs].
      change 0 with (inject_Z 0). rewrite <- Zle_Qle. lia. }
    split; [specialize (H6 (foldr Nat.max 0%nat (map String.length (split_nl txt "")))); lra
           |specialize (H13 (length (split_nl txt ""))); lra].
Qed.

Lemma bounds_fold_ordered del events bb :
  Forall sizes_nonneg events -> box_ordered bb ->
  box_ordered (fold_left (bounds_step del) events bb).
Proof.
  revert bb. induction events as [|e es IH]; intros bb Hs Hb; simpl; [done|].
  inversion Hs as [|? ? He Hes]; subst. apply IH; [done|].
  rewrite bounds_step_rects. destruct (renders del e); [|done].
  assert (Hr : forall r, In r (extent_rects e) -> rect_ordered r)
    by (intros r; by apply sizes_nonneg_rects).
  clear IH Hes. revert bb Hb. induction (extent_rects e) as [|r rs IHr]; intros bb Hb; simpl; [done|].
  apply IHr; [intros r' Hr'; apply Hr; by right|].
  apply extend_rect_ordered; [done|apply Hr; by left].
Qed.

Lemma canvas_side (lo hi : Q) :
  lo <= hi -> (200 <= Z.min MAX_CANVAS_SIZE (Qceiling (hi - lo + PADDING * 2)) <= 16384)%Z.
Proof.
  intros H. assert (Hq : 200 <= hi - lo + PADDING * 2) by (unfold PADDING; lra).
  apply Qceiling_resp_le in Hq. change (Qceiling 200) with 200%Z in Hq.
  unfold MAX_CANVAS_SIZE. lia.
Qed.

Lemma drop_In {A} (l : list A) n x : In x (drop n l) -> In x l.
Proof.
  revert l. induction n as [|n IH]; intros [|y l]; simpl; try done.
  intros H. right. by apply IH.
Qed.

(** The box [calculateBounds] returns encloses every extent it folds in:
    each point of a drawn stroke widened by the stroke width, the corners
    of a drawn shape widened by its width, and the text block of a drawn
    text. *)
Theorem calculateBounds_encloses events deletedIds b e r :
  calculateBounds events deletedIds = Some b ->
  In e events -> renders deletedIds e = true -> In r (extent_rects e) ->
  box_has b r.
Proof.
  intros Hb He Hr Hin. pose proof (bounds_fold_new deletedIds events None e r He Hr Hin) as H.
  unfold calculateBounds in Hb. by rewrite Hb in H.
Qed.

(** When no event carries a negative stroke width, shape width or font
    size, [renderEventsToSnapshot] returns either the 1x1 canvas or a
    canvas whose width and height both lie between 200 (the padding on
    both sides) and 16384. *)
Theorem renderEventsToSnapshot_canvas_size events :
  Forall sizes_nonneg events ->
  let c := imageData (renderEventsToSnapshot events) in
  (c_width c = 1 /\ c_height c = 1)%Z \/
  ((200 <= c_width c <= 16384) /\ (200 <= c_height c <= 16384))%Z.
Proof.
  intros Hs. unfold renderEventsToSnapshot.
  destruct (first_pass events) as [deletedIds lastClearIndex].
  set (toRender := if (0 <=? lastClearIndex)%Z
                   then drop (Z.to_nat lastClearIndex + 1) events else events).
  assert (Hs' : Forall sizes_nonneg toRender).
  { apply Forall_forall. intros e He. rewrite Forall_forall in Hs. apply Hs.
    apply list_elem_of_In in He. apply list_elem_of_In.
    unfold toRender in He. destruct (0 <=? lastClearIndex)%Z; [|done].
    by apply drop_In in He. }
  pose proof (bounds_fold_ordered deletedIds toRender None Hs' I) as Ho.
  unfold calculateBounds. destruct (fold_left (bounds_step deletedIds) toRender None) as [b|].
  - right. destruct Ho as [Hx Hy]. simpl. split; by apply canvas_side.
  - left. done.
Qed.

(** [text.split('\n')] followed by [join('\n')] gives the text back. *)
Theorem split_nl_join text :
  String.concat (String (Ascii.ascii_of_nat 10) EmptyString) (split_nl text "") = text.
Proof.
  assert (Happ : forall s t u : string, ((s +:+ t) +:+ u)%string = (s +:+ (t +:+ u))%string).
  { induction s as [|c s IH]; intros t u; [reflexivity|].
    change (String c ((s +:+ t) +:+ u) = String c (s +:+ (t +:+ u)))%string. by rewrite IH. }
  assert (Hne : forall s cur, exists l ls, split_nl s cur = l :: ls).
  { induction s as [|c s IH]; intros cur; simpl; [by eauto|].
    destruct (Ascii.eqb c (Ascii.ascii_of_nat 10)); [by eauto|apply IH]. }
  enough (H : forall cur, String.concat (String (Ascii.ascii_of_nat 10) EmptyString)
                            (split_nl text cur) = (cur +:+ text)%string) by apply H.
  assert (Hcc : forall sep x y ys,
             String.concat sep (x :: y :: ys) = (x +:+ (sep +:+ String.concat sep (y :: ys)))%string)
    by done.
  induction text as [|c s IH]; intros cur; simpl.
  - symmetry. induction cur as [|c cur IHc]; [reflexivity|].
    change (String c (cur +:+ "") = String c cur)%string. by rewrite IHc.
  - destruct (Ascii.eqb c (Ascii.ascii_of_nat 10)) eqn:Ec.
    + apply Ascii.eqb_eq in Ec. subst c.
      destruct (Hne s "") as (l & ls & Hl). rewrite Hl, Hcc, <- Hl, IH. done.
    + rewrite IH, Happ. done.
Qed.


Definition enc_stroke : DrawEvent :=
  mkDrawEvent "B" 1 ETstroke "alice" 0 (StrokePayload "s1" "#000000" 2 None [(10, 10); (40, 5)]).

Definition enc_text : DrawEvent :=
  mkDrawEvent "B" 2 ETtext "alice" 0 (TextPayload "t1" "hi" (50, 60) "#000000" 16).

Definition enc_events : list DrawEvent := [enc_stroke; enc_text].

Definition enc_box : BoundingBox :=
  match calculateBounds enc_events [] with Some b => b | None => mkBox 0 0 0 0 end.

Definition enc_rect : Q * Q * Q * Q := hd (0, 0, 0, 0) (extent_rects enc_stroke).

Lemma calculateBounds_encloses_witness :
  calculateBounds enc_events [] = Some enc_box /\ In enc_stroke enc_events /\
  renders [] enc_stroke = true /\ In enc_rect (extent_rects enc_stroke) /\
  box_has enc_box enc_rect.
Proof.
  assert (H1 : calculateBounds enc_events [] = Some enc_box) by (vm_compute; reflexivity).
  assert (H2 : In enc_stroke enc_events) by (left; reflexivity).
  assert (H3 : renders [] enc_stroke = true) by (vm_compute; reflexivity).
  assert (H4 : In enc_rect (extent_rects enc_stroke)) by (left; reflexivity).
  split; [exact H1|]. split; [exact H2|]. split; [exact H3|]. split; [exact H4|].
  exact (calculateBounds_encloses enc_events [] enc_box enc_stroke enc_rect H1 H2 H3 H4).
Defined.

Lemma renderEventsToSnapshot_canvas_size_witness :
  Forall sizes_nonneg enc_events /\
  let c := imageData (renderEventsToSnapshot enc_events) in
  (c_width c = 1 /\ c_height c = 1)%Z \/
  ((200 <= c_width c <= 16384) /\ (200 <= c_height c <= 16384))%Z.
Proof.
  assert (H : Forall sizes_nonneg enc_events).
  { apply Forall_forall. intros e He. apply list_elem_of_In in He.
    destruct He as [<-|[<-|[]]]; vm_compute; discriminate. }
  split; [exact H|]. exact (renderEventsToSnapshot_canvas_size enc_events H).
Defined.

End RendererX.

End Extras.
